(** * A model of [app.py]: progress parsing, command building, the job
      runner, and the status and delivery endpoints.

    The Python program is embedded shallowly.  Text is a list of code
    points below 256; a float is the rational value of a double;
    dictionaries are finite maps; the effects of the
    operating system (the child process, the directory listing, the clock
    and the file tree) are explicit inputs and explicit state. *)

From Stdlib Require Import String Ascii List ZArith QArith Qabs Lia Lqa Bool Sorted Permutation.
From Stdlib Require DecimalString.
From stdpp Require Import gmap strings.
Import ListNotations.

Open Scope Z_scope.

(** ** Text *)

(** A Python [str] whose characters are code points below 256.  String
    literals of the source are written as literals and converted. *)
Abbreviation str := (list ascii).
Coercion list_ascii_of_string : string >-> list.

Definition code (a : ascii) : N := N_of_ascii a.

(** [str.isdecimal] on one character, which is also the class [\d] of a
    [str] pattern: below 256 only the digits 0 to 9. *)
Definition is_digit (a : ascii) : bool :=
  ((48 <=? code a) && (code a <=? 57))%N.

(** [str.isspace] on one character, which is also the class [\s] of a
    [str] pattern: below 256 that is TAB, LF, VT, FF, CR, the separators
    FS, GS, RS, US, the space, NEL and the no-break space. *)
Definition is_space (a : ascii) : bool :=
  (((9 <=? code a) && (code a <=? 13)) || ((28 <=? code a) && (code a <=? 32))
   || (code a =? 133) || (code a =? 160))%N.

(** The class [.] (no DOTALL flag): every character but the line feed. *)
Definition is_dot (a : ascii) : bool := negb (Ascii.eqb a "010").

Definition is_char (c a : ascii) : bool := Ascii.eqb a c.

(** [[\d\.]] and [[KMG]]. *)
Definition is_digit_or_dot (a : ascii) : bool := is_digit a || is_char "." a.
Definition is_KMG (a : ascii) : bool := is_char "K" a || is_char "M" a || is_char "G" a.

Fixpoint lstrip (s : str) : str :=
  match s with
  | a :: s' => if is_space a then lstrip s' else s
  | [] => []
  end.

Definition rstrip (s : str) : str := rev (lstrip (rev s)).

(** [s.strip()] *)
Definition strip (s : str) : str := rstrip (lstrip s).

Fixpoint starts_with (p s : str) : bool :=
  match p, s with
  | [], _ => true
  | a :: p', b :: s' => Ascii.eqb a b && starts_with p' s'
  | _ :: _, [] => false
  end.

(** [p in s] *)
Fixpoint contains (p s : str) : bool :=
  starts_with p s ||
  match s with
  | [] => false
  | _ :: s' => contains p s'
  end.

Fixpoint rfind_from (c : ascii) (s : str) (i last : Z) : Z :=
  match s with
  | [] => last
  | a :: s' => rfind_from c s' (i + 1) (if Ascii.eqb a c then i else last)
  end.

(** [s.rfind(c)]: the index of the last [c], or -1. *)
Definition rfind (c : ascii) (s : str) : Z := rfind_from c s 0 (-1).

(** [posixpath.basename]: [i = p.rfind('/') + 1; return p[i:]]. *)
Definition basename (p : str) : str := drop (Z.to_nat (rfind "/" p + 1)) p.

(** [str(n)] for an [int], as an f-string formats it. *)
Definition show_Z (n : Z) : str :=
  list_ascii_of_string (DecimalString.NilZero.string_of_int (Z.to_int n)).

(** ** Results of fallible calls *)

Inductive result (A : Type) : Type :=
| Ok (a : A)
| Raise (msg : str).
Arguments Ok {A} a.
Arguments Raise {A} msg.

(** ** Regular expressions, as [re.search] runs them

    The constructors are those the three patterns of the source use.  A
    repetition is always over a character class there, so [Rep] takes the
    class; bounded repetitions are unfolded into [Cat] and [Opt]. *)

Inductive re : Type :=
| Eps : re
| Cls (p : ascii -> bool) : re
| Cat (r1 r2 : re) : re
| Alt (r1 r2 : re) : re
| Rep (greedy : bool) (p : ascii -> bool) : re
| Grp (n : nat) (r : re) : re.

Definition Opt (r : re) : re := Alt r Eps.
Definition Plus (greedy : bool) (p : ascii -> bool) : re := Cat (Cls p) (Rep greedy p).

Fixpoint Lit (s : str) : re :=
  match s with
  | [] => Eps
  | a :: s' => Cat (Cls (is_char a)) (Lit s')
  end.

(** The groups captured so far, the latest binding first. *)
Abbreviation caps := (list (nat * str)).

Fixpoint group (n : nat) (c : caps) : option str :=
  match c with
  | [] => None
  | (i, s) :: c' => if Nat.eqb i n then Some s else group n c'
  end.

(** [p*] (greedy) or [p*?] (lazy) followed by the continuation [k]. *)
Fixpoint rep {A : Type} (greedy : bool) (p : ascii -> bool) (s : str)
    (k : str -> option A) : option A :=
  match s with
  | [] => k []
  | a :: s' =>
      if p a then
        if greedy then
          match rep greedy p s' k with
          | Some x => Some x
          | None => k s
          end
        else
          match k s with
          | Some x => Some x
          | None => rep greedy p s' k
          end
      else k s
  end.

(** The backtracking matcher: [r] is matched at the head of [s]; the
    continuation receives the rest of the input and the groups.  The
    alternatives are tried in the order of the engine: left branch before
    right, more repetitions first when greedy and fewer first when lazy. *)
Fixpoint rmatch {A : Type} (r : re) (s : str) (c : caps)
    (k : str -> caps -> option A) : option A :=
  match r with
  | Eps => k s c
  | Cls p =>
      match s with
      | a :: s' => if p a then k s' c else None
      | [] => None
      end
  | Cat r1 r2 => rmatch r1 s c (fun s' c' => rmatch r2 s' c' k)
  | Alt r1 r2 =>
      match rmatch r1 s c k with
      | Some x => Some x
      | None => rmatch r2 s c k
      end
  | Rep g p => rep g p s (fun s' => k s' c)
  | Grp n r' =>
      rmatch r' s c
        (fun s' c' => k s' ((n, take (length s - length s') s) :: c'))
  end.

Definition match_at (r : re) (s : str) : option caps :=
  rmatch r s [] (fun _ c => Some c).

(** [re.search(r, s)]: the first position, from the left, at which [r]
    matches; the result is the groups of that match. *)
Fixpoint re_search (r : re) (s : str) : option caps :=
  match match_at r s with
  | Some c => Some c
  | None =>
      match s with
      | [] => None
      | _ :: s' => re_search r s'
      end
  end.

(** [m.group(n)] of a group that took part in the match. *)
Definition group_or_empty (n : nat) (c : caps) : str :=
  match group n c with
  | Some s => s
  | None => []
  end.

(** *** The patterns of the source *)

(** [\d{1,3}] *)
Definition re_d13 : re :=
  Cat (Cls is_digit) (Opt (Cat (Cls is_digit) (Opt (Cls is_digit)))).

(** [(\d{1,3}\.\d+|\d{1,3})] *)
Definition re_pct : re :=
  Grp 1 (Alt (Cat re_d13 (Cat (Lit ".") (Plus true is_digit))) re_d13).

(** [([\d\.]+[KMG]?iB/s)] *)
Definition re_rate : re :=
  Grp 2 (Cat (Plus true is_digit_or_dot) (Cat (Opt (Cls is_KMG)) (Lit "iB/s"))).

(** [(\d{2}:\d{2})] *)
Definition re_eta : re :=
  Grp 3 (Cat (Cls is_digit) (Cat (Cls is_digit)
          (Cat (Lit ":") (Cat (Cls is_digit) (Cls is_digit))))).

(** [(\d{1,3}\.\d+|\d{1,3})%.*?at\s+([\d\.]+[KMG]?iB/s)] *)
Definition re_reduced : re :=
  Cat re_pct (Cat (Lit "%") (Cat (Rep false is_dot)
    (Cat (Lit "at") (Cat (Plus true is_space) re_rate)))).

(** [(\d{1,3}\.\d+|\d{1,3})%.*?at\s+([\d\.]+[KMG]?iB/s).*?ETA\s+(\d{2}:\d{2})] *)
Definition re_full : re :=
  Cat re_reduced (Cat (Rep false is_dot)
    (Cat (Lit "ETA") (Cat (Plus true is_space) re_eta))).

(** [Destination:\s(.+)] *)
Definition re_destination : re :=
  Cat (Lit "Destination:") (Cat (Cls is_space) (Grp 1 (Plus true is_dot))).

(** ** [parse_progress_line] *)

Fixpoint digits_value (s : str) (acc : Z) : option Z :=
  match s with
  | [] => Some acc
  | a :: s' =>
      if is_digit a then digits_value s' (10 * acc + (Z.of_N (code a) - 48))
      else None
  end.

(** The text before the first [.] and, when there is one, the text after it. *)
Fixpoint split_dot (s : str) : str * option str :=
  match s with
  | [] => ([], None)
  | a :: s' =>
      if is_char "." a then ([], Some s')
      else let '(i, f) := split_dot s' in (a :: i, f)
  end.

Definition float_error (s : str) : str :=
  "could not convert string to float: '" ++ s ++ "'".

(** The number that plain decimal text denotes ([digits],
    [digits.digits], [digits.] or [.digits]).  Signs, exponents and the
    like are left out and raise here; the parser only converts its first
    group, which is plain decimal text. *)
Definition decimal_value (s : str) : result Q :=
  match split_dot s with
  | ([], None) | ([], Some []) => Raise (float_error s)
  | (i, None) =>
      match digits_value i 0 with
      | Some n => Ok (inject_Z n)
      | None => Raise (float_error s)
      end
  | (i, Some f) =>
      match digits_value (i ++ f) 0 with
      | Some n => Ok (Qmake n (Z.to_pos (10 ^ Z.of_nat (length f))))
      | None => Raise (float_error s)
      end
  end.

(** *** Doubles

    A Python [float] is an IEEE 754 double: a significand of at most 53
    bits times a power of two, the smallest power being [2^-1074].  The
    value of a double is kept as a rational number. *)

(** [2^e], also for negative [e]. *)
Definition pow2 (e : Z) : Q :=
  if 0 <=? e then inject_Z (2 ^ e) else Qmake 1 (Z.to_pos (2 ^ (- e))).

(** The exponent [e] with [2^e <= q < 2^(e+1)], for positive [q]. *)
Definition floor_log2 (q : Q) : Z :=
  let e := Z.log2 (Qnum q) - Z.log2 (Zpos (Qden q)) in
  if Qle_bool (pow2 e) q then e else e - 1.

(** The nearest integer; of two that are equally near, the even one. *)
Definition round_half_even (q : Q) : Z :=
  let n := Qnum q in
  let d := Zpos (Qden q) in
  let f := n / d in
  match 2 * (n mod d) ?= d with
  | Lt => f
  | Gt => f + 1
  | Eq => if Z.even f then f else f + 1
  end.

(** The conversion of a number that is not negative to a double, as
    [float] does it for decimal text: the nearest double, and of two
    that are equally near the one with the even significand.  The
    doubles around [q] are the multiples of [2^u], where [u] is 52 below
    the exponent of [q] and at least -1074. *)
Definition nearest_double (q : Q) : Q :=
  let q := Qred q in
  if Qle_bool q 0 then 0%Q
  else
    let u := Z.max (floor_log2 q - 52) (-1074) in
    Qred (inject_Z (round_half_even (q / pow2 u)) * pow2 u).

(** [float(s)] on plain decimal text: the double nearest to the number
    the text denotes.  From [2^1024] on the interpreter returns [inf],
    which is no number: such text (more than 300 digits before the
    point) is left out like the signs and raises here. *)
Definition float (s : str) : result Q :=
  match decimal_value s with
  | Raise e => Raise e
  | Ok q =>
      let d := nearest_double q in
      if Qle_bool (pow2 1024) d then Raise (float_error s) else Ok d
  end.

Definition parse_progress_line (line : str) : result (option (Q * str * option str)) :=
  match re_search re_full line with
  | Some m =>
      match float (group_or_empty 1 m) with
      | Ok p => Ok (Some (p, group_or_empty 2 m, Some (group_or_empty 3 m)))
      | Raise e => Raise e
      end
  | None =>
      match re_search re_reduced line with
      | Some m2 =>
          match float (group_or_empty 1 m2) with
          | Ok p => Ok (Some (p, group_or_empty 2 m2, None))
          | Raise e => Raise e
          end
      | None => Ok None
      end
  end.

(** ** [build_web_cmd] *)

Definition QUALITY_MAP : gmap str str :=
  list_to_map
    [ ("144p (Low)" : str, "144" : str);
      ("240p" : str, "240" : str);
      ("360p" : str, "360" : str);
      ("480p" : str, "480" : str);
      ("720p" : str, "720" : str);
      ("1080p" : str, "1080" : str);
      ("1440p" : str, "1440" : str);
      ("2160p (4K - High)" : str, "2160" : str) ].

Definition COOKIE_SOURCES : list str := ["none" : str; "cookies.txt" : str].

Definition speed_profile (concurrent chunk : str) : gmap str str :=
  list_to_map [("concurrent" : str, concurrent); ("chunk" : str, chunk)].

Definition SPEED_MAP : gmap str (gmap str str) :=
  list_to_map
    [ ("Slow" : str, speed_profile "1" "1M");
      ("Mid" : str, speed_profile "10" "1M");
      ("High" : str, speed_profile "20" "5M");
      ("Turbo" : str, speed_profile "40" "10M");
      ("Superfast" : str, speed_profile "80" "20M") ].

(** [d[k]], a [KeyError] when the key is missing. *)
Definition getitem {V : Type} (d : gmap str V) (k : str) : result V :=
  match d !! k with
  | Some v => Ok v
  | None => Raise ("'" ++ k ++ "'")
  end.

(** [d.get(k, dflt)] *)
Definition dict_get {V : Type} (d : gmap str V) (k : str) (dflt : V) : V :=
  default dflt (d !! k).

Definition str_eqb (a b : str) : bool := bool_decide (a = b).

Definition ends_with (p s : str) : bool := starts_with (rev p) (rev s).

(** [posixpath.join(a, b)] *)
Definition path_join (a b : str) : str :=
  if starts_with "/" b then b
  else if str_eqb a [] || ends_with "/" a then a ++ b
  else a ++ "/" ++ b.

(** [WEB_DOWNLOADER_DIR], from the working directory of the process. *)
Definition WEB_DOWNLOADER_DIR (cwd : str) : str := path_join cwd "web_downloader".

(** [cwd] is [os.getcwd()] and [cookie_file] is
    [os.path.exists("cookies.txt")], the one look at the file system. *)
Definition build_web_cmd (cwd : str) (cookie_file : bool)
    (url quality fmt cookies speed : str) : result (list str) :=
  let h := dict_get QUALITY_MAP quality "480" in
  match getitem SPEED_MAP "Turbo" with
  | Raise e => Raise e
  | Ok turbo =>
      let s := dict_get SPEED_MAP speed turbo in
      let base : list str :=
        if str_eqb fmt "MP4 - Video"
        then ["yt-dlp" : str; "-f" : str; "best[height<=" ++ h ++ "][ext=mp4]"]
        else ["yt-dlp" : str; "-f" : str; "bestaudio[ext=m4a]" : str] in
      let cookie : list str :=
        if str_eqb cookies "cookies.txt" && cookie_file
        then ["--cookies" : str; "cookies.txt" : str]
        else [] in
      match getitem s "concurrent" with
      | Raise e => Raise e
      | Ok concurrent =>
          match getitem s "chunk" with
          | Raise e => Raise e
          | Ok chunk =>
              let fast : list str :=
                [ "--concurrent-fragments" : str; concurrent;
                  "--http-chunk-size" : str; chunk;
                  "--retries" : str; "3" : str;
                  "--fragment-retries" : str; "3" : str;
                  "--newline" : str ] in
              let out_tmpl := path_join (WEB_DOWNLOADER_DIR cwd) "%(title)s.%(ext)s" in
              Ok (base ++ cookie ++ ["--no-playlist" : str] ++ fast
                    ++ ["-o" : str; out_tmpl; strip url])
          end
      end
  end.

(** ** Jobs and the runner *)

Record Status : Type := { pct : Q; speed : str; eta : str; text : str }.

Record Job : Type :=
  { status : Status; filename : option str; done : bool; error : option str }.

Definition initial_job : Job :=
  {| status := {| pct := 0; speed := "--"; eta := "--"; text := "Starting..." |};
     filename := None; done := false; error := None |}.

Definition set_text (t : str) (j : Job) : Job :=
  {| status := {| pct := pct (status j); speed := speed (status j);
                  eta := eta (status j); text := t |};
     filename := filename j; done := done j; error := error j |}.

Definition update_status (p : Q) (sp et : str) (j : Job) : Job :=
  {| status := {| pct := p; speed := sp; eta := et; text := text (status j) |};
     filename := filename j; done := done j; error := error j |}.

Definition set_filename (f : str) (j : Job) : Job :=
  {| status := status j; filename := Some f; done := done j; error := error j |}.

Definition set_done (j : Job) : Job :=
  {| status := status j; filename := filename j; done := true; error := error j |}.

Definition set_error (e : str) (j : Job) : Job :=
  {| status := status j; filename := filename j; done := done j; error := Some e |}.

(** [x or dflt] for an optional string: [None] and the empty string are false. *)
Definition py_or (x : option str) (dflt : str) : str :=
  match x with
  | Some (a :: s) => a :: s
  | _ => dflt
  end.

(** [not x] for an optional string. *)
Definition falsy (x : option str) : bool :=
  match x with
  | Some (_ :: _) => false
  | _ => true
  end.

(** The body of the runner mutates the job record and may raise; the
    mutations made before an exception stay. *)
Definition run (A : Type) : Type := Job -> result A * Job.

Definition ret {A : Type} (a : A) : run A := fun j => (Ok a, j).

Definition raise {A : Type} (e : str) : run A := fun j => (Raise e, j).

Definition bind {A B : Type} (m : run A) (k : A -> run B) : run B :=
  fun j =>
    match m j with
    | (Ok a, j') => k a j'
    | (Raise e, j') => (Raise e, j')
    end.

Definition lift {A : Type} (r : result A) : run A := fun j => (r, j).

Definition modify (f : Job -> Job) : run unit := fun j => (Ok tt, f j).

Definition get : run Job := fun j => (Ok j, j).

Notation "x <- m ;; k" := (bind m (fun x => k))
  (at level 100, m at next level, right associativity).
Notation "m ;; k" := (bind m (fun _ => k))
  (at level 100, right associativity).

(** The body of [for raw in proc.stdout]. *)
Definition on_line (raw : str) : run unit :=
  let line := strip raw in
  modify (set_text (take 160 line)) ;;
  parsed <- lift (parse_progress_line line) ;;
  match parsed with
  | Some (p, sp, et) => modify (update_status p sp (py_or et "--"))
  | None => ret tt
  end ;;
  if contains "Destination:" line then
    match re_search re_destination line with
    | Some m => modify (set_filename (basename (group_or_empty 1 m)))
    | None => ret tt
    end
  else ret tt.

Fixpoint for_each (f : str -> run unit) (l : list str) : run unit :=
  match l with
  | [] => ret tt
  | x :: l' => f x ;; for_each f l'
  end.

(** What the child process does, as the runner sees it: [Popen] raises,
    or the process starts and the loop [for raw in proc.stdout] receives
    the lines [out], after which either the stream ends and [wait] gives
    the exit code, or reading the stream raises.  [out] is what the loop
    received, not what the process wrote: the text layer decodes the
    pipe block by block, and when a block cannot be decoded the lines in
    it are lost with the exception. *)
Inductive finish : Type :=
| Exits (ret_code : Z)
| ReadFails (msg : str).

Inductive process : Type :=
| SpawnFails (msg : str)
| Spawned (out : list str) (fin : finish).

(** One name of [os.listdir(WEB_DOWNLOADER_DIR)]: what [os.path.isfile]
    says of it and what [os.path.getmtime] gives, which raises when the
    file is gone by then. *)
Record dirent : Type :=
  { d_name : str; d_isfile : bool; d_mtime : result Z }.

(** The keys [sorted] computes, in the order of the list; the first
    exception ends the call. *)
Fixpoint mtime_keys (l : list dirent) : result (list (Z * str)) :=
  match l with
  | [] => Ok []
  | d :: l' =>
      match d_mtime d with
      | Raise e => Raise e
      | Ok t =>
          match mtime_keys l' with
          | Raise e => Raise e
          | Ok ks => Ok ((t, d_name d) :: ks)
          end
      end
  end.

(** Insertion in front of an already sorted tail: [x] came before the
    tail in the list, and stays before what has the same key. *)
Fixpoint insert_desc (x : Z * str) (l : list (Z * str)) : list (Z * str) :=
  match l with
  | [] => [x]
  | y :: l' => if fst y <=? fst x then x :: y :: l' else y :: insert_desc x l'
  end.

(** [sorted(..., key=..., reverse=True)]: descending and stable. *)
Definition sort_desc (l : list (Z * str)) : list (Z * str) :=
  foldr insert_desc [] l.

(** The [files] of the fallback; [ls] is [os.listdir], which may raise. *)
Definition newest_first (ls : result (list dirent)) : result (list str) :=
  match ls with
  | Raise e => Raise e
  | Ok names =>
      match mtime_keys (List.filter d_isfile names) with
      | Raise e => Raise e
      | Ok ks => Ok (map snd (sort_desc ks))
      end
  end.

(** The [try] block of [web_download_worker]. *)
Definition supervise (p : process) (ls : result (list dirent)) : run unit :=
  match p with
  | SpawnFails e => raise e
  | Spawned out fin =>
      for_each on_line out ;;
      match fin with
      | ReadFails e => raise e
      | Exits r =>
          if r =? 0 then
            modify set_done ;;
            j <- get ;;
            if falsy (filename j) then
              files <- lift (newest_first ls) ;;
              match files with
              | f :: _ => modify (set_filename f)
              | [] => ret tt
              end
            else ret tt
          else modify (set_error ("yt-dlp exited " ++ show_Z r))
      end
  end.

(** The record of the job when the runner has ended: the [try] block on
    the initial record, then the [except] clause. *)
Definition run_job (p : process) (ls : result (list dirent)) : Job :=
  match supervise p ls initial_job with
  | (Ok _, j) => j
  | (Raise e, j) => set_error e j
  end.

(** ** The registry and the endpoints [/download] and [/status] *)

(** [web_jobs], and the threads that [start()] has launched and that
    have not run their first statement yet. *)
Record server : Type :=
  { web_jobs : gmap str Job; launched : list (str * list str) }.

(** The first statement of [web_download_worker]. *)
Definition worker_begin (job_id : str) (jobs : gmap str Job) : gmap str Job :=
  <[job_id := initial_job]> jobs.

(** [web_download_worker(job_id, cmd)] run to its end; [popen] is what
    the child process does for a command. *)
Definition web_download_worker (popen : list str -> process)
    (ls : result (list dirent)) (job_id : str) (cmd : list str)
    (jobs : gmap str Job) : gmap str Job :=
  <[job_id := run_job (popen cmd) ls]> (worker_begin job_id jobs).

Inductive download_response : Type :=
| DownloadOk (job_id : str)
| DownloadError (msg : str) (code : Z)
| DownloadCrash (msg : str).

(** [web_download]; [form] is [request.form] and [uuid_hex] is
    [uuid.uuid4().hex]. *)
Definition web_download (cwd : str) (cookie_file : bool)
    (form : gmap str str) (uuid_hex : str) (sv : server)
    : download_response * server :=
  let url := form !! ("url" : str) in
  let quality := dict_get form "quality" ("480p" : str) in
  let fmt := dict_get form "format" ("MP4 - Video" : str) in
  let cookies := dict_get form "cookies" ("none" : str) in
  let speed := dict_get form "speed" ("Turbo" : str) in
  match url with
  | None | Some [] => (DownloadError "Missing URL" 400, sv)
  | Some u =>
      match build_web_cmd cwd cookie_file u quality fmt cookies speed with
      | Raise e => (DownloadCrash e, sv)
      | Ok cmd =>
          let job_id := take 12 uuid_hex in
          (DownloadOk job_id,
           {| web_jobs := web_jobs sv;
              launched := launched sv ++ [(job_id, cmd)] |})
      end
  end.

(** A launched thread runs its first statement. *)
Definition thread_begins (sv : server) : server :=
  match launched sv with
  | [] => sv
  | (job_id, _) :: rest =>
      {| web_jobs := worker_begin job_id (web_jobs sv); launched := rest |}
  end.

Inductive status_response : Type :=
| StatusOk (st : Status) (d : bool) (f : option str) (e : option str)
| StatusError (msg : str) (code : Z).

(** [web_status]; [arg] is [request.args.get("job")]. *)
Definition web_status (arg : option str) (jobs : gmap str Job) : status_response :=
  match arg with
  | None | Some [] => StatusError "Invalid job" 400
  | Some job_id =>
      match jobs !! job_id with
      | None => StatusError "Invalid job" 400
      | Some job => StatusOk (status job) (done job) (filename job) (error job)
      end
  end.

(** ** The file tree and the endpoint [/fetch] *)

Inductive node : Type :=
| File (data : list Byte.byte)
| Dir.

(** The file tree: every file and directory but the root, under the
    list of names that leads to it from the root.  There are no symbolic
    links. *)
Abbreviation tree := (gmap (list str) node).

(** [s.split("/")] *)
Fixpoint split_slash (s : str) : list str :=
  match s with
  | [] => [[]]
  | a :: s' =>
      if is_char "/" a then [] :: split_slash s'
      else
        match split_slash s' with
        | c :: cs => (a :: c) :: cs
        | [] => [[a]]
        end
  end.

(** ["/".join(l)] *)
Fixpoint join_slash (l : list str) : str :=
  match l with
  | [] => []
  | [c] => c
  | c :: l' => c ++ "/" ++ join_slash l'
  end.

Definition node_at (t : tree) (p : list str) : option node :=
  match p with
  | [] => Some Dir
  | _ => t !! p
  end.

Definition is_dir (t : tree) (p : list str) : bool :=
  match node_at t p with
  | Some Dir => true
  | _ => false
  end.

(** Path resolution by the kernel, one name at a time from the directory
    [cur]: a name is looked up in a directory only, the empty name and
    [.] stay, [..] goes up (and stays at the root). *)
Fixpoint walk (t : tree) (cur : list str) (names : list str) : option (list str) :=
  match names with
  | [] => Some cur
  | c :: rest =>
      if negb (is_dir t cur) then None
      else if str_eqb c [] || str_eqb c "." then walk t cur rest
      else if str_eqb c ".." then walk t (removelast cur) rest
      else
        match t !! (cur ++ [c]) with
        | Some _ => walk t (cur ++ [c]) rest
        | None => None
        end
  end.

(** Where [p] leads; a relative path starts at the working directory
    [cwd], which is absolute. *)
Definition resolve (cwd : str) (t : tree) (p : str) : option (list str) :=
  match p with
  | [] => None
  | _ => walk t [] (split_slash (path_join cwd p))
  end.

(** [os.path.exists] and [os.path.isfile] *)
Definition os_path_exists (cwd : str) (t : tree) (p : str) : bool :=
  bool_decide (is_Some (resolve cwd t p)).

Definition read_file (cwd : str) (t : tree) (p : str) : option (list Byte.byte) :=
  match resolve cwd t p with
  | Some q =>
      match node_at t q with
      | Some (File data) => Some data
      | _ => None
      end
  | None => None
  end.

Definition os_path_isfile (cwd : str) (t : tree) (p : str) : bool :=
  bool_decide (is_Some (read_file cwd t p)).

(** [os.remove] *)
Definition os_remove (cwd : str) (t : tree) (p : str) : result tree :=
  match resolve cwd t p with
  | Some q =>
      match node_at t q with
      | Some (File _) => Ok (delete q t)
      | _ => Raise "Is a directory"
      end
  | None => Raise "No such file or directory"
  end.

(** What [delayed_delete] does once its sleep is over. *)
Definition delayed_delete (cwd : str) (path : str) (t : tree) : tree :=
  match os_remove cwd t path with
  | Ok t' => t'
  | Raise _ => t
  end.

(** The machine the service runs on: the file tree, the clock, and the
    sleeping [delayed_delete] threads, each with the time at which its
    sleep ends and its path. *)
Record host : Type :=
  { files : tree; clock : Z; sleepers : list (Z * str) }.

Inductive fetch_response : Type :=
| Attachment (data : list Byte.byte)
| FileNotFound
| Aborted404.

(** [web_fetch]; [send] is the framework's [send_from_directory] on the
    file tree. *)
Definition web_fetch (send : tree -> str -> str -> fetch_response)
    (cwd : str) (filename : str) (h : host) : fetch_response * host :=
  let full_path := path_join (WEB_DOWNLOADER_DIR cwd) filename in
  if negb (os_path_exists cwd (files h) full_path) then (FileNotFound, h)
  else
    let h' := {| files := files h; clock := clock h;
                 sleepers := sleepers h ++ [(clock h + 10, full_path)] |} in
    (send (files h') (WEB_DOWNLOADER_DIR cwd) filename, h').

(** The sleepers whose time has come run, in the order they were
    started. *)
Fixpoint wake (cwd : str) (now : Z) (l : list (Z * str)) (t : tree)
    : tree * list (Z * str) :=
  match l with
  | [] => (t, [])
  | (w, p) :: l' =>
      if w <=? now then wake cwd now l' (delayed_delete cwd p t)
      else let '(t', r) := wake cwd now l' t in (t', (w, p) :: r)
  end.

(** [dt] time units pass. *)
Definition advance (cwd : str) (dt : Z) (h : host) : host :=
  let now := clock h + dt in
  let '(t, r) := wake cwd now (sleepers h) (files h) in
  {| files := t; clock := now; sleepers := r |}.

(** *** The framework's [send_from_directory] *)

(** The loop of [posixpath.normpath]; [acc] is [new_comps], last name
    first. *)
Fixpoint norm_comps (initial_slashes : bool) (comps : list str) (acc : list str)
    : list str :=
  match comps with
  | [] => rev acc
  | c :: rest =>
      if str_eqb c [] || str_eqb c "." then norm_comps initial_slashes rest acc
      else if negb (str_eqb c "..")
              || (negb initial_slashes && bool_decide (acc = []))
              || match acc with
                 | top :: _ => str_eqb top ".."
                 | [] => false
                 end
      then norm_comps initial_slashes rest (c :: acc)
      else norm_comps initial_slashes rest (tl acc)
  end.

Definition normpath (path : str) : str :=
  match path with
  | [] => "."
  | _ =>
      let initial := starts_with "/" path in
      let slashes : str :=
        if initial then
          if starts_with "//" path && negb (starts_with "///" path) then "//" else "/"
        else [] in
      match slashes ++ join_slash (norm_comps initial (split_slash path) []) with
      | [] => "."
      | r => r
      end
  end.

(** Werkzeug's [safe_join(directory, filename)] on a POSIX system. *)
Definition safe_join (directory filename : str) : option str :=
  let directory : str := match directory with [] => "." | _ => directory end in
  let filename := match filename with [] => [] | _ => normpath filename end in
  if starts_with "/" filename || str_eqb filename ".." || starts_with "../" filename
  then None
  else Some (path_join directory filename).

(** Flask's [send_from_directory(directory, filename)]: 404 unless the
    safely joined path is a regular file, whose content is the body. *)
Definition send_from_directory (cwd : str) (t : tree) (directory filename : str)
    : fetch_response :=
  match safe_join directory filename with
  | None => Aborted404
  | Some p =>
      match read_file cwd t p with
      | Some data => Attachment data
      | None => Aborted404
      end
  end.

(** ** What the theorems speak of *)

(** When a pattern matches a text exactly, and which groups it adds:
    the meaning of a pattern, without the order of the search. *)
Inductive matches : re -> str -> caps -> caps -> Prop :=
| M_Eps c : matches Eps [] c c
| M_Cls p a c : p a = true -> matches (Cls p) [a] c c
| M_Cat r1 r2 s1 s2 c c1 c2 :
    matches r1 s1 c c1 -> matches r2 s2 c1 c2 -> matches (Cat r1 r2) (s1 ++ s2) c c2
| M_AltL r1 r2 s c c' : matches r1 s c c' -> matches (Alt r1 r2) s c c'
| M_AltR r1 r2 s c c' : matches r2 s c c' -> matches (Alt r1 r2) s c c'
| M_Rep g p s c : forallb p s = true -> matches (Rep g p) s c c
| M_Grp n r s c c' : matches r s c c' -> matches (Grp n r) s c ((n, s) :: c').

(** The pattern matches somewhere in the text. *)
Definition has_match (r : re) (s : str) : Prop :=
  exists pre mid post c, s = pre ++ mid ++ post /\ matches r mid [] c.

(** One to three digits. *)
Definition digits13 (s : str) : Prop :=
  forallb is_digit s = true /\ (1 <= length s <= 3)%nat.

(** At least one digit. *)
Definition digits1 (s : str) : Prop := forallb is_digit s = true /\ s <> [].

(** A percentage as the tool prints it: whole part [i], and fraction [f]
    when there is one. *)
Definition pct_text (i : str) (f : option str) (s : str) : Prop :=
  digits13 i /\
  match f with
  | None => s = i
  | Some f' => digits1 f' /\ s = i ++ "." ++ f'
  end.

(** The number that decimal digits denote. *)
Definition digits_number (s : str) : Z :=
  fold_left (fun acc a => 10 * acc + (Z.of_N (code a) - 48)) s 0.

(** The real number that the percentage text denotes. *)
Definition pct_number (i : str) (f : option str) : Q :=
  match f with
  | None => inject_Z (digits_number i)
  | Some f' =>
      (inject_Z (digits_number i)
       + inject_Z (digits_number f') / inject_Z (10 ^ Z.of_nat (length f')))%Q
  end.

(** The value of a double: a significand below [2^53] in size, times a
    power of two between [2^-1074] and [2^971]. *)
Definition is_double (x : Q) : Prop :=
  exists m e : Z, Z.abs m < 2 ^ 53 /\ -1074 <= e <= 971 /\ (x == inject_Z m * pow2 e)%Q.

(** [q] is a double, and no double is nearer to [v]. *)
Definition nearest (v q : Q) : Prop :=
  is_double q /\ forall d, is_double d -> (Qabs (q - v) <= Qabs (d - v))%Q.

(** [q] is what [float] makes of the number [v]: the double nearest to
    it, which is [v] itself when [v] is a double; below 1024 the two
    differ by [2^-44] at most. *)
Definition float_of (v q : Q) : Prop :=
  q = nearest_double v /\ nearest v q /\
  (Qabs (q - v) <= pow2 (-44))%Q /\
  (is_double v -> (q == v)%Q).

(** A rate: a magnitude of digits and dots, an optional binary prefix,
    and the unit. *)
Definition rate_text (s : str) : Prop :=
  exists m u, s = m ++ u ++ "iB/s" /\ m <> [] /\ forallb is_digit_or_dot m = true /\
    (u = [] \/ exists a, u = [a] /\ is_KMG a = true).

(** The form MM:SS *)
Definition eta_text (s : str) : Prop :=
  exists a b c d, s = [a; b; ":"%char; c; d] /\
    is_digit a = true /\ is_digit b = true /\ is_digit c = true /\ is_digit d = true.

(** White space, at least one character. *)
Definition spaces1 (s : str) : Prop := forallb is_space s = true /\ s <> [].

(** A text the reduced pattern matches exactly, with its two groups. *)
Definition reduced_shape (mid num rate : str) : Prop :=
  exists x w,
    mid = num ++ "%" ++ x ++ "at" ++ w ++ rate /\
    (exists i f, pct_text i f num) /\ forallb is_dot x = true /\ spaces1 w /\
    rate_text rate.

(** A text the full pattern matches exactly, with its three groups. *)
Definition full_shape (mid num rate eta' : str) : Prop :=
  exists red y w,
    mid = red ++ y ++ "ETA" ++ w ++ eta' /\
    reduced_shape red num rate /\ forallb is_dot y = true /\ spaces1 w /\
    eta_text eta'.

(** The line holds a progress report of the reduced form, of the full form. *)
Definition reduced_line (line : str) : Prop :=
  exists pre mid post num rate, line = pre ++ mid ++ post /\ reduced_shape mid num rate.

Definition full_line (line : str) : Prop :=
  exists pre mid post num rate eta',
    line = pre ++ mid ++ post /\ full_shape mid num rate eta'.

(** A text that is empty or begins outside the class [p]. *)
Definition starts_outside (p : ascii -> bool) (s : str) : Prop :=
  match s with
  | [] => True
  | a :: _ => p a = false
  end.

(** The line cut into the parts of a report of the reduced form that
    begins after [pre]: the percentage text, the sign, any text [x],
    [at], white space [w], the rate, and the rest of the line. *)
Definition reduced_parts (line pre num x w rate post : str) : Prop :=
  line = pre ++ num ++ "%" ++ x ++ "at" ++ w ++ rate ++ post /\
  (exists i f, pct_text i f num) /\ forallb is_dot x = true /\ spaces1 w /\
  rate_text rate.

(** The same for a report of the full form: after the rate any text
    [y], [ETA], white space [w'], the ETA, and the rest of the line. *)
Definition full_parts (line pre num x w rate y w' eta' post : str) : Prop :=
  reduced_parts line pre num x w rate (y ++ "ETA" ++ w' ++ eta' ++ post) /\
  forallb is_dot y = true /\ spaces1 w' /\ eta_text eta'.

(** The file a line of output announces, as the loop of the runner reads
    it. *)
Definition announced (raw : str) : option str :=
  let line := strip raw in
  if contains "Destination:" line then
    match re_search re_destination line with
    | Some m => Some (basename (group_or_empty 1 m))
    | None => None
    end
  else None.

(** The file announced last. *)
Definition last_announced (out : list str) : option str :=
  fold_left (fun acc raw => match announced raw with Some f => Some f | None => acc end)
    out None.

(** A name of a directory entry: not empty, no slash, neither [.] nor [..]. *)
Definition plain_name (f : str) : Prop :=
  f <> [] /\ forallb (fun a => negb (is_char "/" a)) f = true /\
  f <> ("." : str) /\ f <> (".." : str).

(** The path, resolved, lies strictly below the managed directory. *)
Definition inside_managed_dir (cwd : str) (t : tree) (p : str) : Prop :=
  exists d q, resolve cwd t (WEB_DOWNLOADER_DIR cwd) = Some d /\
    resolve cwd t p = Some q /\ exists rest, rest <> [] /\ q = d ++ rest.

(** *** Sample data *)

(** The application in [/srv/app], beside its managed directory, which
    holds one download. *)
Definition sample_tree : tree :=
  list_to_map
    [ (["srv" : str], Dir);
      (["srv" : str; "app" : str], Dir);
      (["srv" : str; "app" : str; "app.py" : str], File [Byte.x69; Byte.x6d; Byte.x70]);
      (["srv" : str; "app" : str; "web_downloader" : str], Dir);
      (["srv" : str; "app" : str; "web_downloader" : str; "clip.mp4" : str],
       File [Byte.x00; Byte.x01; Byte.x02; Byte.x03]) ].

Definition sample_host : host :=
  {| files := sample_tree; clock := 100; sleepers := [] |}.

Definition sample_form : gmap str str :=
  list_to_map [("url" : str, "https://example.com/watch?v=1" : str)].

Definition sample_uuid : str := "0123456789abcdef0123456789abcdef".

Definition progress_full : str :=
  "[download]  12.3% of 10.00MiB at 1.23MiB/s ETA 00:12".

Definition progress_reduced : str :=
  "[download] 100% of 10.00MiB at 2.00MiB/s in 00:05".

Definition progress_none : str := "[youtube] dQw4: Downloading webpage".

(** ** What the further theorems speak of *)

(** The text does not begin, does not end, with white space. *)
Definition no_leading_space (s : str) : Prop :=
  match s with
  | a :: _ => is_space a = false
  | [] => True
  end.

Definition no_trailing_space (s : str) : Prop := no_leading_space (rev s).


(** Newest first: every entry is at least as new as those after it. *)
Definition descending (l : list (Z * str)) : Prop :=
  StronglySorted (fun a b => fst b <= fst a) l.

(** The entries of a given age, in the order of the list. *)
Definition of_age (t : Z) (l : list (Z * str)) : list (Z * str) :=
  List.filter (fun p => fst p =? t) l.


(** The oldest launched thread runs [web_download_worker] to its end. *)
Definition thread_runs (popen : list str -> process) (ls : result (list dirent))
    (sv : server) : server :=
  match launched sv with
  | [] => sv
  | (job_id, cmd) :: rest =>
      {| web_jobs := web_download_worker popen ls job_id cmd (web_jobs sv);
         launched := rest |}
  end.

(** A file tree in which whatever exists lies in a directory. *)
Definition tree_wf (t : tree) : Prop :=
  forall p n, t !! p = Some n -> is_dir t (removelast p) = true.

(** * The model on sample inputs *)

(** [12.3] is no double; the one nearest to it is [3462142213541069 / 2^48]. *)
Example parse_full_example :
  parse_progress_line progress_full
  = Ok (Some (Qmake 3462142213541069 (2 ^ 48), "1.23MiB/s" : str, Some ("00:12" : str))).
Proof. vm_compute. reflexivity. Qed.

Example parse_reduced_example :
  parse_progress_line progress_reduced
  = Ok (Some (inject_Z 100, "2.00MiB/s" : str, None)).
Proof. vm_compute. reflexivity. Qed.

Example parse_none_example : parse_progress_line progress_none = Ok None.
Proof. vm_compute. reflexivity. Qed.

(** The lazy [.*?] stops at the first [at] that a rate follows, and the
    three-digit bound makes the search start inside a longer number. *)
Example parse_backtracking_example :
  parse_progress_line "x 1234.5% at at  5.KiB/s at 7GiB/s"
  = Ok (Some (Qmake 469 2, "5.KiB/s" : str, None)).
Proof. vm_compute. reflexivity. Qed.

(** The conversion rounds: seventeen nines after the point give 100,
    and a tie goes to the even significand. *)
Example float_rounds_example :
  float "99.99999999999999999" = Ok (inject_Z 100) /\
  float "999.99999999999999999" = Ok (inject_Z 1000) /\
  float "0.5" = Ok (Qmake 1 2) /\
  float "9007199254740993" = Ok (inject_Z 9007199254740992) /\
  float "9007199254740995" = Ok (inject_Z 9007199254740996).
Proof. vm_compute. repeat split; reflexivity. Qed.

Example build_web_cmd_example :
  build_web_cmd "/srv/app" true " https://example.com/watch?v=1 "
    "720p" "MP4 - Video" "cookies.txt" "High"
  = Ok [ "yt-dlp" : str; "-f" : str; "best[height<=720][ext=mp4]" : str;
         "--cookies" : str; "cookies.txt" : str; "--no-playlist" : str;
         "--concurrent-fragments" : str; "20" : str;
         "--http-chunk-size" : str; "5M" : str;
         "--retries" : str; "3" : str; "--fragment-retries" : str; "3" : str;
         "--newline" : str; "-o" : str;
         "/srv/app/web_downloader/%(title)s.%(ext)s" : str;
         "https://example.com/watch?v=1" : str ].
Proof. vm_compute. reflexivity. Qed.

Example run_job_example :
  run_job
    (Spawned [ "[youtube] dQw4: Downloading webpage" : str;
               "[download] Destination: /srv/app/web_downloader/clip.mp4" : str;
               progress_full; progress_reduced ]
       (Exits 0))
    (Ok [])
  = {| status := {| pct := inject_Z 100; speed := "2.00MiB/s"; eta := "--";
                    text := progress_reduced |};
       filename := Some ("clip.mp4" : str); done := true; error := None |}.
Proof. vm_compute. reflexivity. Qed.

(** The newest regular file comes first; of two files of the same age,
    the one listed first. *)
Example newest_first_example :
  newest_first
    (Ok [ {| d_name := "a.mp4"; d_isfile := true; d_mtime := Ok 5 |};
          {| d_name := "b.mp4"; d_isfile := true; d_mtime := Ok 7 |};
          {| d_name := "c.mp4"; d_isfile := true; d_mtime := Ok 7 |};
          {| d_name := "sub"; d_isfile := false; d_mtime := Ok 9 |} ])
  = Ok [ "b.mp4" : str; "c.mp4" : str; "a.mp4" : str ].
Proof. vm_compute. reflexivity. Qed.

Example normpath_examples :
  map normpath [ "a/./b/../c" : str; "../x" : str; "/../x" : str; "//a//b/" : str;
                 "a/../.." : str; "./" : str ]
  = [ "a/c" : str; "../x" : str; "/x" : str; "//a/b" : str; ".." : str; "." : str ].
Proof. vm_compute. reflexivity. Qed.

Example web_fetch_example :
  web_fetch (send_from_directory "/srv/app") "/srv/app" "clip.mp4" sample_host
  = (Attachment [Byte.x00; Byte.x01; Byte.x02; Byte.x03],
     {| files := sample_tree; clock := 100;
        sleepers := [(110, "/srv/app/web_downloader/clip.mp4" : str)] |}).
Proof. vm_compute. reflexivity. Qed.

(** The sample download lies in the managed directory. *)
Lemma sample_clip_inside :
  inside_managed_dir "/srv/app" sample_tree "/srv/app/web_downloader/clip.mp4".
Proof.
  exists ["srv" : str; "app" : str; "web_downloader" : str],
         ["srv" : str; "app" : str; "web_downloader" : str; "clip.mp4" : str].
  split; [vm_compute; reflexivity|]. split; [vm_compute; reflexivity|].
  exists ["clip.mp4" : str]. split; [discriminate | reflexivity].
Qed.

(** * Text *)

Lemma starts_with_app (p s : str) : starts_with p (p ++ s) = true.
Proof.
  induction p as [|a p IH]; simpl; [reflexivity|].
  rewrite Ascii.eqb_refl. exact IH.
Qed.

Lemma starts_with_inv (p s : str) :
  starts_with p s = true -> exists r, s = p ++ r.
Proof.
  revert s. induction p as [|a p IH]; intros s H; simpl in H.
  - exists s. reflexivity.
  - destruct s as [|b s]; [discriminate|].
    apply andb_prop in H as [Hab Hp].
    apply Ascii.eqb_eq in Hab. subst b.
    destruct (IH _ Hp) as [r ->]. exists r. reflexivity.
Qed.

Lemma contains_app_r (p a b : str) : contains p b = true -> contains p (a ++ b) = true.
Proof.
  intros H. induction a as [|x a IH]; simpl; [exact H|].
  rewrite IH. apply orb_true_r.
Qed.

Lemma contains_here (p s : str) : starts_with p s = true -> contains p s = true.
Proof. intros H. destruct s; simpl in *; rewrite H; reflexivity. Qed.

Lemma contains_mid (p a b : str) : contains p (a ++ p ++ b) = true.
Proof. apply contains_app_r, contains_here, starts_with_app. Qed.

(** *** [basename] *)

Lemma rfind_from_no (c : ascii) (s : str) (i last : Z) :
  forallb (fun a => negb (is_char c a)) s = true -> rfind_from c s i last = last.
Proof.
  revert i last. induction s as [|a s IH]; intros i last H; simpl in *; [reflexivity|].
  apply andb_prop in H as [Ha Hs]. unfold is_char in Ha.
  destruct (Ascii.eqb a c); [discriminate|]. apply IH, Hs.
Qed.

Lemma rfind_from_app (c : ascii) (a b : str) (i last : Z) :
  rfind_from c (a ++ b) i last = rfind_from c b (i + Z.of_nat (length a)) (rfind_from c a i last).
Proof.
  revert i last. induction a as [|x a IH]; intros i last; simpl.
  - f_equal. lia.
  - rewrite IH. f_equal. lia.
Qed.

Lemma basename_no_slash (b : str) :
  forallb (fun a => negb (is_char "/" a)) b = true -> basename b = b.
Proof.
  intros H. unfold basename, rfind. rewrite rfind_from_no by exact H. reflexivity.
Qed.

Lemma basename_dir (d b : str) :
  forallb (fun a => negb (is_char "/" a)) b = true ->
  basename (d ++ "/" ++ b) = b.
Proof.
  intros H. unfold basename, rfind.
  change (d ++ "/" ++ b) with (d ++ "/"%char :: b).
  rewrite rfind_from_app. simpl. rewrite rfind_from_no by exact H.
  replace (Z.to_nat (0 + Z.of_nat (length d) + 1)) with (length d + 1)%nat by lia.
  rewrite <- drop_drop, drop_app_length. reflexivity.
Qed.

(** Every path is a directory part, empty or ending in a slash, followed
    by its base name, which has no slash. *)
Lemma basename_spec (p : str) :
  exists d, p = d ++ basename p /\
    forallb (fun a => negb (is_char "/" a)) (basename p) = true /\
    (d = [] \/ exists d', d = d' ++ "/").
Proof.
  induction p as [|a p IH] using rev_ind.
  - exists []. repeat split; auto.
  - destruct IH as (d & Hp & Hb & Hd).
    destruct (is_char "/" a) eqn:Ha.
    + apply Ascii.eqb_eq in Ha. subst a.
      replace (basename (p ++ ["/"%char])) with ([] : str).
      * exists (p ++ "/"). rewrite app_nil_r. repeat split; eauto.
      * symmetry. rewrite <- (app_nil_r (p ++ ["/"%char])), <- app_assoc.
        apply (basename_dir p []). reflexivity.
    + assert (Hb' : forallb (fun a => negb (is_char "/" a)) (basename p ++ [a]) = true).
      { rewrite forallb_app, Hb. simpl. rewrite Ha. reflexivity. }
      assert (E : basename (p ++ [a]) = basename p ++ [a]).
      { destruct Hd as [-> | [d' ->]].
        - simpl in Hp. rewrite <- Hp in Hb' |- *. apply basename_no_slash. exact Hb'.
        - rewrite Hp at 1. rewrite <- !app_assoc. apply basename_dir. exact Hb'. }
      rewrite E. exists d. rewrite app_assoc, <- Hp. repeat split; auto.
Qed.

(** * The matcher agrees with the meaning of patterns *)

Section Matcher.
Context {A : Type}.

Lemma rep_sound (g : bool) (p : ascii -> bool) (s : str) (k : str -> option A) (x : A) :
  rep g p s k = Some x ->
  exists s1 s2, s = s1 ++ s2 /\ forallb p s1 = true /\ k s2 = Some x.
Proof.
  induction s as [|a s IH]; simpl; intros H.
  - exists [], []. auto.
  - destruct (p a) eqn:Hp.
    + assert (Hrec : rep g p s k = Some x ->
              exists s1 s2, a :: s = s1 ++ s2 /\ forallb p s1 = true /\ k s2 = Some x).
      { intros Hr. destruct (IH Hr) as (s1 & s2 & -> & Hall & Hk).
        exists (a :: s1), s2. simpl. rewrite Hp. auto. }
      assert (Hnow : k (a :: s) = Some x ->
              exists s1 s2, a :: s = s1 ++ s2 /\ forallb p s1 = true /\ k s2 = Some x).
      { intros Hk. exists [], (a :: s). auto. }
      destruct g.
      * destruct (rep true p s k) eqn:Hr; [inversion H; subst; auto | auto].
      * destruct (k (a :: s)) eqn:Hk; [inversion H; subst; auto | auto].
    + exists [], (a :: s). auto.
Qed.

Lemma rep_complete (g : bool) (p : ascii -> bool) (s1 s2 : str) (k : str -> option A) :
  forallb p s1 = true -> is_Some (k s2) -> is_Some (rep g p (s1 ++ s2) k).
Proof.
  induction s1 as [|a s1 IH]; simpl; intros Hall Hk.
  - destruct s2 as [|b s2]; simpl; [exact Hk|].
    destruct (p b); [|exact Hk].
    destruct g.
    + destruct (rep true p s2 k); [eauto | exact Hk].
    + destruct (k (b :: s2)); [eauto | destruct Hk; discriminate].
  - apply andb_prop in Hall as [Ha Hall]. rewrite Ha.
    specialize (IH Hall Hk).
    destruct g.
    + destruct IH as [y ->]. eauto.
    + destruct (k (a :: s1 ++ s2)); [eauto | exact IH].
Qed.
End Matcher.

Lemma rmatch_sound (r : re) :
  forall (A : Type) (s : str) (c : caps) (k : str -> caps -> option A) (x : A),
    rmatch r s c k = Some x ->
    exists s1 s2 c', s = s1 ++ s2 /\ matches r s1 c c' /\ k s2 c' = Some x.
Proof.
  induction r as [|p|r1 IH1 r2 IH2|r1 IH1 r2 IH2|g p|n r IH]; intros A s c k x H; simpl in H.
  - exists [], s, c. repeat split; [constructor | exact H].
  - destruct s as [|a s]; [discriminate|].
    destruct (p a) eqn:Hp; [|discriminate].
    exists [a], s, c. repeat split; [constructor; exact Hp | exact H].
  - apply IH1 in H as (s1 & s' & c1 & -> & M1 & H).
    apply IH2 in H as (s2 & s3 & c2 & -> & M2 & H).
    exists (s1 ++ s2), s3, c2. rewrite app_assoc. repeat split; [|exact H].
    econstructor; eassumption.
  - destruct (rmatch r1 s c k) eqn:H1.
    + inversion H; subst. apply IH1 in H1 as (s1 & s2 & c' & -> & M & Hk).
      exists s1, s2, c'. repeat split; [apply M_AltL; exact M | exact Hk].
    + apply IH2 in H as (s1 & s2 & c' & -> & M & Hk).
      exists s1, s2, c'. repeat split; [apply M_AltR; exact M | exact Hk].
  - apply rep_sound in H as (s1 & s2 & -> & Hall & Hk).
    exists s1, s2, c. repeat split; [constructor; exact Hall | exact Hk].
  - apply IH in H as (s1 & s2 & c' & -> & M & Hk).
    rewrite length_app in Hk.
    replace (length s1 + length s2 - length s2)%nat with (length s1) in Hk by lia.
    rewrite take_app_length in Hk.
    exists s1, s2, ((n, s1) :: c'). repeat split; [constructor; exact M | exact Hk].
Qed.

Lemma rmatch_complete (r : re) (s1 : str) (c c' : caps) :
  matches r s1 c c' ->
  forall (A : Type) (s2 : str) (k : str -> caps -> option A),
    is_Some (k s2 c') -> is_Some (rmatch r (s1 ++ s2) c k).
Proof.
  induction 1 as [c|p a c Hp|r1 r2 s1 s2 c c1 c2 M1 IH1 M2 IH2|r1 r2 s c c' M IH
                 |r1 r2 s c c' M IH|g p s c Hall|n r s c c' M IH];
    intros A s3 k Hk; simpl.
  - exact Hk.
  - rewrite Hp. exact Hk.
  - rewrite <- app_assoc. apply IH1, IH2, Hk.
  - destruct (IH A s3 k Hk) as [y ->]. eauto.
  - destruct (rmatch r1 (s ++ s3) c k); [eauto|]. apply IH, Hk.
  - apply rep_complete; assumption.
  - apply IH. rewrite length_app.
    replace (length s + length s3 - length s3)%nat with (length s) by lia.
    rewrite take_app_length. exact Hk.
Qed.

Lemma match_at_sound (r : re) (s : str) (c : caps) :
  match_at r s = Some c -> exists mid post, s = mid ++ post /\ matches r mid [] c.
Proof.
  unfold match_at. intros H. apply rmatch_sound in H as (s1 & s2 & c' & -> & M & E).
  inversion E; subst. eauto.
Qed.

Lemma match_at_complete (r : re) (mid post : str) (c : caps) :
  matches r mid [] c -> is_Some (match_at r (mid ++ post)).
Proof.
  intros M. unfold match_at. eapply rmatch_complete; [exact M | eauto].
Qed.

(** [re.search] finds a match exactly when there is one. *)
Lemma re_search_sound (r : re) (s : str) (c : caps) :
  re_search r s = Some c ->
  exists pre mid post, s = pre ++ mid ++ post /\ matches r mid [] c.
Proof.
  induction s as [|a s IH]; simpl.
  - destruct (match_at r []) eqn:E; [|discriminate].
    intros H; inversion H; subst.
    apply match_at_sound in E as (mid & post & -> & M). exists [], mid, post. auto.
  - destruct (match_at r (a :: s)) eqn:E.
    + intros H; inversion H; subst.
      apply match_at_sound in E as (mid & post & -> & M). exists [], mid, post. auto.
    + intros H. apply IH in H as (pre & mid & post & -> & M).
      exists (a :: pre), mid, post. auto.
Qed.

Lemma re_search_complete (r : re) (s : str) :
  has_match r s -> is_Some (re_search r s).
Proof.
  intros (pre & mid & post & c & -> & M).
  induction pre as [|a pre IH]; simpl.
  - destruct (match_at_complete r mid post c M) as [c' E].
    destruct (mid ++ post); simpl; rewrite E; eauto.
  - destruct (match_at r (a :: pre ++ mid ++ post)); [eauto | exact IH].
Qed.

Lemma re_search_none (r : re) (s : str) :
  ~ has_match r s -> re_search r s = None.
Proof.
  intros H. destruct (re_search r s) eqn:E; [|reflexivity].
  exfalso. apply H. apply re_search_sound in E as (pre & mid & post & -> & M).
  exists pre, mid, post, l. auto.
Qed.

(** [re.search] returns a match at the first position that has one. *)
Lemma re_search_leftmost r s c :
  re_search r s = Some c ->
  exists pre mid post,
    s = pre ++ mid ++ post /\ matches r mid [] c /\
    forall pre' mid' post' c',
      s = pre' ++ mid' ++ post' -> matches r mid' [] c' ->
      (length pre <= length pre')%nat.
Proof.
  induction s as [|a s IH]; cbn [re_search].
  - destruct (match_at r []) eqn:E; [|discriminate].
    intros H; inversion H; subst.
    apply match_at_sound in E as (mid & post & -> & M).
    exists [], mid, post. repeat split; auto. intros. simpl. lia.
  - destruct (match_at r (a :: s)) eqn:E.
    + intros H; inversion H; subst.
      apply match_at_sound in E as (mid & post & -> & M).
      exists [], mid, post. repeat split; auto. intros. simpl. lia.
    + intros H. apply IH in H as (pre & mid & post & -> & M & Hleft).
      exists (a :: pre), mid, post. repeat split; auto.
      intros pre' mid' post' c' Hs M'.
      destruct pre' as [|b pre'].
      * simpl in Hs. rewrite Hs in E.
        destruct (match_at_complete r mid' post' c' M') as [x Hx]. congruence.
      * simpl in Hs. inversion Hs; subst.
        specialize (Hleft _ _ _ _ H1 M'). simpl. lia.
Qed.


(** * What the patterns of the source match *)

Lemma matches_Eps_inv s c c' : matches Eps s c c' -> s = [] /\ c' = c.
Proof. inversion 1; subst; auto. Qed.

Lemma matches_Cls_inv p s c c' :
  matches (Cls p) s c c' -> exists a, s = [a] /\ p a = true /\ c' = c.
Proof. inversion 1; subst; eauto. Qed.

Lemma matches_Cat_inv r1 r2 s c c' :
  matches (Cat r1 r2) s c c' ->
  exists s1 s2 c1, s = s1 ++ s2 /\ matches r1 s1 c c1 /\ matches r2 s2 c1 c'.
Proof. inversion 1; subst; eauto 7. Qed.

Lemma matches_Alt_inv r1 r2 s c c' :
  matches (Alt r1 r2) s c c' -> matches r1 s c c' \/ matches r2 s c c'.
Proof. inversion 1; subst; auto. Qed.

Lemma matches_Rep_inv g p s c c' :
  matches (Rep g p) s c c' -> forallb p s = true /\ c' = c.
Proof. inversion 1; subst; auto. Qed.

Lemma matches_Grp_inv n r s c c' :
  matches (Grp n r) s c c' -> exists c0, matches r s c c0 /\ c' = (n, s) :: c0.
Proof. inversion 1; subst; eauto. Qed.

Lemma matches_Opt_inv r s c c' :
  matches (Opt r) s c c' -> matches r s c c' \/ (s = [] /\ c' = c).
Proof.
  intros H. apply matches_Alt_inv in H as [H|H]; [auto|].
  apply matches_Eps_inv in H. auto.
Qed.

Lemma matches_Plus_inv g p s c c' :
  matches (Plus g p) s c c' -> forallb p s = true /\ s <> [] /\ c' = c.
Proof.
  intros H. apply matches_Cat_inv in H as (s1 & s2 & c1 & -> & H1 & H2).
  apply matches_Cls_inv in H1 as (a & -> & Ha & ->).
  apply matches_Rep_inv in H2 as [H2 ->].
  simpl. rewrite Ha, H2. auto.
Qed.

Lemma matches_Plus_intro g p s c :
  forallb p s = true -> s <> [] -> matches (Plus g p) s c c.
Proof.
  intros H Hne. destruct s as [|a s]; [congruence|].
  simpl in H. apply andb_prop in H as [Ha Hs].
  change (a :: s) with ([a] ++ s). econstructor; constructor; assumption.
Qed.

Lemma matches_Lit_inv l s c c' : matches (Lit l) s c c' -> s = l /\ c' = c.
Proof.
  revert s c c'. induction l as [|a l IH]; intros s c c' H; simpl in H.
  - apply matches_Eps_inv in H. exact H.
  - apply matches_Cat_inv in H as (s1 & s2 & c1 & -> & H1 & H2).
    apply matches_Cls_inv in H1 as (b & -> & Hb & ->).
    apply Ascii.eqb_eq in Hb. subst b.
    apply IH in H2 as [-> ->]. auto.
Qed.

Lemma matches_Lit_intro l c : matches (Lit l) l c c.
Proof.
  induction l as [|a l IH]; simpl; [constructor|].
  change (a :: l) with ([a] ++ l). econstructor; [|exact IH].
  constructor. apply Ascii.eqb_refl.
Qed.

Lemma matches_Opt_none r c : matches (Opt r) [] c c.
Proof. apply M_AltR. constructor. Qed.

Lemma matches_Opt_some r s c c' : matches r s c c' -> matches (Opt r) s c c'.
Proof. apply M_AltL. Qed.

(** Inversion of a match of a compound pattern, one layer at a time. *)
Ltac inv_matches :=
  repeat match goal with
    | H : matches (Cat _ _) _ _ _ |- _ =>
        apply matches_Cat_inv in H as (? & ? & ? & -> & ? & ?)
    | H : matches (Cls _) _ _ _ |- _ =>
        apply matches_Cls_inv in H as (? & -> & ? & ->)
    | H : matches (Rep _ _) _ _ _ |- _ =>
        apply matches_Rep_inv in H as (? & ->)
    | H : matches (Plus _ _) _ _ _ |- _ =>
        apply matches_Plus_inv in H as (? & ? & ->)
    | H : matches (Lit _) _ _ _ |- _ =>
        apply matches_Lit_inv in H as (-> & ->)
    | H : matches (Grp _ _) _ _ _ |- _ =>
        apply matches_Grp_inv in H as (? & ? & ->)
    | H : matches (Opt _) _ _ _ |- _ =>
        apply matches_Opt_inv in H as [H | [-> ->]]
    | H : matches (Alt _ _) _ _ _ |- _ =>
        apply matches_Alt_inv in H as [H | H]
    | H : matches Eps _ _ _ |- _ =>
        apply matches_Eps_inv in H as (-> & ->)
    end.

Lemma d13_inv s c c' : matches re_d13 s c c' -> digits13 s /\ c' = c.
Proof.
  unfold re_d13. intros H. inv_matches; unfold digits13; simpl;
    repeat match goal with H : is_digit _ = true |- _ => rewrite H; clear H end;
    simpl; (split; [split; [reflexivity | lia] | reflexivity]).
Qed.

Lemma d13_intro s c : digits13 s -> matches re_d13 s c c.
Proof.
  intros [Hd Hl]. unfold re_d13.
  destruct s as [|a [|b [|d [|e s]]]]; simpl in Hl; try lia;
    simpl in Hd; repeat (apply andb_prop in Hd as [? Hd]).
  - change [a] with ([a] ++ []). econstructor; [constructor; assumption|].
    apply matches_Opt_none.
  - change [a; b] with ([a] ++ ([b] ++ [])). econstructor; [constructor; assumption|].
    apply matches_Opt_some. econstructor; [constructor; assumption|].
    apply matches_Opt_none.
  - change [a; b; d] with ([a] ++ ([b] ++ [d])). econstructor; [constructor; assumption|].
    apply matches_Opt_some. econstructor; [constructor; assumption|].
    apply matches_Opt_some. constructor; assumption.
Qed.

Lemma pct_inv s c c' :
  matches re_pct s c c' -> (exists i f, pct_text i f s) /\ c' = (1%nat, s) :: c.
Proof.
  unfold re_pct. intros H.
  apply matches_Grp_inv in H as (c0 & H & ->).
  apply matches_Alt_inv in H as [H | H].
  - apply matches_Cat_inv in H as (i & s2 & c1 & -> & Hi & H).
    apply d13_inv in Hi as [Hi ->].
    apply matches_Cat_inv in H as (dot & f & c2 & -> & Hdot & Hf).
    apply matches_Lit_inv in Hdot as [-> ->].
    apply matches_Plus_inv in Hf as (Hf & Hne & ->).
    split; [|reflexivity]. exists i, (Some f). repeat split; auto; apply Hi.
  - apply d13_inv in H as [Hi ->].
    split; [|reflexivity]. exists s, None. split; [exact Hi | reflexivity].
Qed.

Lemma pct_intro i f s c : pct_text i f s -> matches re_pct s c ((1%nat, s) :: c).
Proof.
  intros [Hi Hs]. unfold re_pct. constructor. destruct f as [f|].
  - destruct Hs as [[Hf Hne] ->]. apply M_AltL.
    econstructor; [apply d13_intro; exact Hi|].
    econstructor; [apply matches_Lit_intro|].
    apply matches_Plus_intro; assumption.
  - subst s. apply M_AltR. apply d13_intro. exact Hi.
Qed.

Lemma rate_inv s c c' :
  matches re_rate s c c' -> rate_text s /\ c' = (2%nat, s) :: c.
Proof.
  unfold re_rate. intros H.
  apply matches_Grp_inv in H as (c0 & H & ->).
  apply matches_Cat_inv in H as (m & s2 & c1 & -> & Hm & H).
  apply matches_Plus_inv in Hm as (Hm & Hne & ->).
  apply matches_Cat_inv in H as (u & s3 & c2 & -> & Hu & H).
  apply matches_Lit_inv in H as [-> ->].
  apply matches_Opt_inv in Hu as [Hu | [-> ->]].
  - apply matches_Cls_inv in Hu as (a & -> & Ha & ->).
    split; [|reflexivity]. exists m, [a]. repeat split; eauto.
  - split; [|reflexivity]. exists m, []. repeat split; auto.
Qed.

Lemma rate_intro s c : rate_text s -> matches re_rate s c ((2%nat, s) :: c).
Proof.
  intros (m & u & -> & Hne & Hm & Hu). unfold re_rate. constructor.
  econstructor; [apply matches_Plus_intro; assumption|].
  econstructor; [|apply matches_Lit_intro].
  destruct Hu as [-> | (a & -> & Ha)].
  - apply matches_Opt_none.
  - apply matches_Opt_some. constructor. exact Ha.
Qed.

Lemma eta_inv s c c' :
  matches re_eta s c c' -> eta_text s /\ c' = (3%nat, s) :: c.
Proof.
  unfold re_eta. intros H.
  apply matches_Grp_inv in H as (c0 & H & ->).
  inv_matches. split; [|reflexivity].
  unfold eta_text. simpl. eauto 10.
Qed.

Lemma eta_intro s c : eta_text s -> matches re_eta s c ((3%nat, s) :: c).
Proof.
  intros (a & b & x & y & -> & Ha & Hb & Hx & Hy). unfold re_eta. constructor.
  change [a; b; ":"%char; x; y] with ([a] ++ [b] ++ (":" : str) ++ [x] ++ [y]).
  repeat (econstructor; [first [apply matches_Lit_intro | constructor; assumption] |]).
  constructor; assumption.
Qed.

Lemma reduced_inv s c c' :
  matches re_reduced s c c' ->
  exists num rate, reduced_shape s num rate /\ c' = (2%nat, rate) :: (1%nat, num) :: c.
Proof.
  unfold re_reduced. intros H.
  apply matches_Cat_inv in H as (num & s1 & c1 & -> & Hnum & H).
  apply pct_inv in Hnum as [Hnum ->].
  apply matches_Cat_inv in H as (p & s2 & c2 & -> & Hp & H).
  apply matches_Lit_inv in Hp as [-> ->].
  apply matches_Cat_inv in H as (x & s3 & c3 & -> & Hx & H).
  apply matches_Rep_inv in Hx as [Hx ->].
  apply matches_Cat_inv in H as (a & s4 & c4 & -> & Ha & H).
  apply matches_Lit_inv in Ha as [-> ->].
  apply matches_Cat_inv in H as (w & rate & c5 & -> & Hw & H).
  apply matches_Plus_inv in Hw as (Hw & Hwne & ->).
  apply rate_inv in H as [Hrate ->].
  exists num, rate. split; [|reflexivity].
  exists x, w. repeat split; auto.
Qed.

Lemma reduced_intro s num rate c :
  reduced_shape s num rate ->
  matches re_reduced s c ((2%nat, rate) :: (1%nat, num) :: c).
Proof.
  intros (x & w & -> & (i & f & Hnum) & Hx & [Hw Hwne] & Hrate). unfold re_reduced.
  econstructor; [eapply pct_intro; exact Hnum|].
  econstructor; [apply matches_Lit_intro|].
  econstructor; [constructor; exact Hx|].
  econstructor; [apply matches_Lit_intro|].
  econstructor; [apply matches_Plus_intro; assumption|].
  apply rate_intro. exact Hrate.
Qed.

Lemma full_inv s c c' :
  matches re_full s c c' ->
  exists num rate eta',
    full_shape s num rate eta' /\
    c' = (3%nat, eta') :: (2%nat, rate) :: (1%nat, num) :: c.
Proof.
  unfold re_full. intros H.
  apply matches_Cat_inv in H as (red & s1 & c1 & -> & Hred & H).
  apply reduced_inv in Hred as (num & rate & Hred & ->).
  apply matches_Cat_inv in H as (y & s2 & c2 & -> & Hy & H).
  apply matches_Rep_inv in Hy as [Hy ->].
  apply matches_Cat_inv in H as (e & s3 & c3 & -> & He & H).
  apply matches_Lit_inv in He as [-> ->].
  apply matches_Cat_inv in H as (w & eta' & c4 & -> & Hw & H).
  apply matches_Plus_inv in Hw as (Hw & Hwne & ->).
  apply eta_inv in H as [Heta ->].
  exists num, rate, eta'. split; [|reflexivity].
  exists red, y, w. repeat split; auto.
Qed.

Lemma full_intro s num rate eta' c :
  full_shape s num rate eta' ->
  matches re_full s c ((3%nat, eta') :: (2%nat, rate) :: (1%nat, num) :: c).
Proof.
  intros (red & y & w & -> & Hred & Hy & [Hw Hwne] & Heta). unfold re_full.
  econstructor; [apply reduced_intro; exact Hred|].
  econstructor; [constructor; exact Hy|].
  econstructor; [apply matches_Lit_intro|].
  econstructor; [apply matches_Plus_intro; assumption|].
  apply eta_intro. exact Heta.
Qed.

Lemma full_line_has_match line : full_line line <-> has_match re_full line.
Proof.
  split.
  - intros (pre & mid & post & num & rate & eta' & -> & H).
    exists pre, mid, post. eexists. split; [reflexivity|]. apply full_intro, H.
  - intros (pre & mid & post & c & -> & H).
    apply full_inv in H as (num & rate & eta' & H & _).
    exists pre, mid, post, num, rate, eta'. auto.
Qed.

Lemma reduced_line_has_match line : reduced_line line <-> has_match re_reduced line.
Proof.
  split.
  - intros (pre & mid & post & num & rate & -> & H).
    exists pre, mid, post. eexists. split; [reflexivity|]. apply reduced_intro, H.
  - intros (pre & mid & post & c & -> & H).
    apply reduced_inv in H as (num & rate & H & _).
    exists pre, mid, post, num, rate. auto.
Qed.

(** * [float] on the text of a percentage *)

Lemma is_digit_not_dot a : is_digit a = true -> is_char "." a = false.
Proof.
  unfold is_digit, is_char, code. intros H.
  destruct (Ascii.eqb a ".") eqn:E; [|reflexivity].
  apply Ascii.eqb_eq in E. subst a. discriminate H.
Qed.

Lemma split_dot_digits (i : str) :
  forallb is_digit i = true -> split_dot i = (i, None).
Proof.
  induction i as [|a i IH]; simpl; intros H; [reflexivity|].
  apply andb_prop in H as [Ha Hi].
  rewrite (is_digit_not_dot a Ha), (IH Hi). reflexivity.
Qed.

Lemma split_dot_fraction (i f : str) :
  forallb is_digit i = true -> split_dot (i ++ "." ++ f) = (i, Some f).
Proof.
  induction i as [|a i IH]; simpl; intros H; [reflexivity|].
  apply andb_prop in H as [Ha Hi].
  rewrite (is_digit_not_dot a Ha). simpl in IH. rewrite (IH Hi). reflexivity.
Qed.

Lemma digits_value_fold (s : str) (acc : Z) :
  forallb is_digit s = true ->
  digits_value s acc =
    Some (fold_left (fun acc a => 10 * acc + (Z.of_N (code a) - 48)) s acc).
Proof.
  revert acc. induction s as [|a s IH]; simpl; intros acc H; [reflexivity|].
  apply andb_prop in H as [Ha Hs]. rewrite Ha. apply IH, Hs.
Qed.

Lemma fold_digits_shift (s : str) (acc : Z) :
  fold_left (fun acc a => 10 * acc + (Z.of_N (code a) - 48)) s acc =
  acc * 10 ^ Z.of_nat (length s) + digits_number s.
Proof.
  unfold digits_number. revert acc.
  induction s as [|a s IH]; intros acc; simpl fold_left.
  - simpl. lia.
  - rewrite IH, (IH (10 * 0 + _)).
    replace (Z.of_nat (length (a :: s))) with (Z.succ (Z.of_nat (length s)))
      by (simpl length; lia).
    rewrite Z.pow_succ_r by lia. ring.
Qed.

Lemma digits_number_app (i f : str) :
  digits_number (i ++ f) = digits_number i * 10 ^ Z.of_nat (length f) + digits_number f.
Proof.
  unfold digits_number at 1. rewrite fold_left_app.
  fold (digits_number i). apply fold_digits_shift.
Qed.

Lemma digits_value_number (s : str) :
  forallb is_digit s = true -> digits_value s 0 = Some (digits_number s).
Proof. intros H. rewrite digits_value_fold by exact H. reflexivity. Qed.

Lemma decimal_fraction_value (n m k : Z) :
  0 < k -> (Qmake (n * k + m) (Z.to_pos k) == inject_Z n + inject_Z m / inject_Z k)%Q.
Proof.
  intros Hk. rewrite Qmake_Qdiv, Z2Pos.id by exact Hk.
  rewrite inject_Z_plus, inject_Z_mult.
  field. intros E. apply (inject_Z_injective k 0) in E. lia.
Qed.

Lemma digit_value_bounds (a : ascii) :
  is_digit a = true -> 0 <= Z.of_N (code a) - 48 <= 9.
Proof.
  unfold is_digit. intros H. apply andb_prop in H as [H1 H2].
  apply N.leb_le in H1, H2. lia.
Qed.

Lemma digits_number_bounds (s : str) :
  forallb is_digit s = true -> 0 <= digits_number s < 10 ^ Z.of_nat (length s).
Proof.
  induction s as [|a s IH] using rev_ind; intros H.
  - unfold digits_number. simpl. lia.
  - rewrite forallb_app in H. apply andb_prop in H as [Hs Ha].
    simpl in Ha. rewrite andb_true_r in Ha.
    specialize (IH Hs). pose proof (digit_value_bounds a Ha) as Hd.
    rewrite digits_number_app, length_app. simpl length.
    replace (Z.of_nat (length s + 1)) with (Z.succ (Z.of_nat (length s))) by lia.
    rewrite Z.pow_succ_r by lia.
    assert (E : digits_number [a] = Z.of_N (code a) - 48)
      by (unfold digits_number; simpl; lia).
    rewrite E. change (10 ^ Z.of_nat 1) with 10. lia.
Qed.

Lemma pct_number_bounds (i : str) (f : option str) (s : str) :
  pct_text i f s -> (0 <= pct_number i f)%Q /\ (pct_number i f < 1000)%Q.
Proof.
  intros [[Hi Hl] Hs].
  pose proof (digits_number_bounds i Hi) as Bi.
  assert (Hi3 : digits_number i <= 999).
  { assert (10 ^ Z.of_nat (length i) <= 10 ^ 3) by (apply Z.pow_le_mono_r; lia).
    change (10 ^ 3) with 1000 in *. lia. }
  destruct f as [f|]; simpl.
  - destruct Hs as [[Hf Hne] _].
    pose proof (digits_number_bounds f Hf) as Bf.
    set (k := 10 ^ Z.of_nat (length f)) in *.
    assert (Hk : 0 < k) by (apply Z.pow_pos_nonneg; lia).
    assert (E : (inject_Z (digits_number i) + inject_Z (digits_number f) / inject_Z k
                 == Qmake (digits_number i * k + digits_number f) (Z.to_pos k))%Q)
      by (symmetry; apply decimal_fraction_value; exact Hk).
    rewrite E. unfold Qle, Qlt. simpl. rewrite Z2Pos.id by exact Hk. nia.
  - unfold Qle, Qlt. simpl. lia.
Qed.

(** ** Powers of two *)

Lemma pow2_nonneg_eq (e : Z) : 0 <= e -> pow2 e = inject_Z (2 ^ e).
Proof. intros H. unfold pow2. destruct (0 <=? e) eqn:E; [reflexivity | lia]. Qed.

Lemma pow2_pos (e : Z) : (0 < pow2 e)%Q.
Proof.
  unfold pow2. destruct (0 <=? e) eqn:E.
  - assert (0 < 2 ^ e) by (apply Z.pow_pos_nonneg; lia).
    unfold Qlt, inject_Z. simpl. lia.
  - unfold Qlt. simpl. lia.
Qed.

Lemma pow2_succ (e : Z) : (pow2 (e + 1) == 2 * pow2 e)%Q.
Proof.
  unfold pow2. destruct (0 <=? e) eqn:E, (0 <=? e + 1) eqn:E1; try lia.
  - rewrite Z.pow_add_r by lia. unfold Qeq, Qmult, inject_Z. simpl. lia.
  - assert (e = -1) by lia. subst e. reflexivity.
  - assert (Hp : 0 < 2 ^ (- (e + 1))) by (apply Z.pow_pos_nonneg; lia).
    replace (- e) with (- (e + 1) + 1) by lia.
    rewrite (Z.pow_add_r 2 (- (e + 1)) 1) by lia.
    unfold Qeq, Qmult. cbn [Qnum Qden].
    rewrite !Pos2Z.inj_mul, !Z2Pos.id by lia. lia.
Qed.

Lemma pow2_add_nat (a : Z) (n : nat) : (pow2 (a + Z.of_nat n) == pow2 a * inject_Z (2 ^ Z.of_nat n))%Q.
Proof.
  induction n as [|n IH].
  - replace (a + Z.of_nat 0) with a by lia.
    change (inject_Z (2 ^ Z.of_nat 0)) with 1%Q. rewrite Qmult_1_r. reflexivity.
  - replace (a + Z.of_nat (S n)) with (a + Z.of_nat n + 1) by lia.
    rewrite pow2_succ, IH.
    replace (Z.of_nat (S n)) with (Z.of_nat n + 1) by lia.
    rewrite Z.pow_add_r by lia. rewrite inject_Z_mult. change (inject_Z (2 ^ 1)) with 2%Q. ring.
Qed.

Lemma pow2_add_nonneg (a b : Z) : 0 <= b -> (pow2 (a + b) == pow2 a * inject_Z (2 ^ b))%Q.
Proof.
  intros H. rewrite <- (Z2Nat.id b) by exact H. apply pow2_add_nat.
Qed.

Lemma pow2_le (a b : Z) : a <= b -> (pow2 a <= pow2 b)%Q.
Proof.
  intros H. replace b with (a + (b - a)) by lia.
  rewrite pow2_add_nonneg by lia.
  assert (H1 : (1 <= inject_Z (2 ^ (b - a)))%Q).
  { assert (0 < 2 ^ (b - a)) by (apply Z.pow_pos_nonneg; lia).
    unfold Qle, inject_Z. simpl. lia. }
  pose proof (pow2_pos a). nra.
Qed.

Lemma pow2_lt (a b : Z) : a < b -> (pow2 a < pow2 b)%Q.
Proof.
  intros H. apply Qlt_le_trans with (pow2 (a + 1)).
  - rewrite pow2_succ. pose proof (pow2_pos a). lra.
  - apply pow2_le. lia.
Qed.

(** ** Rounding to a double *)

Lemma floor_log2_spec (q : Q) :
  (0 < q)%Q -> (pow2 (floor_log2 q) <= q < pow2 (floor_log2 q + 1))%Q.
Proof.
  intros Hq. unfold floor_log2.
  destruct q as [n d]. cbn [Qnum Qden].
  assert (Hn : 0 < n) by (unfold Qlt in Hq; simpl in Hq; lia).
  set (a := Z.log2 n). set (b := Z.log2 (Z.pos d)).
  assert (Ha : 2 ^ a <= n < 2 ^ Z.succ a) by (apply Z.log2_spec; exact Hn).
  assert (Hb : 2 ^ b <= Z.pos d < 2 ^ Z.succ b) by (apply Z.log2_spec; lia).
  assert (Ha0 : 0 <= a) by apply Z.log2_nonneg.
  assert (Hb0 : 0 <= b) by apply Z.log2_nonneg.
  rewrite !Z.pow_succ_r in Ha, Hb by assumption.
  assert (HE : (pow2 (a - b) * inject_Z (2 ^ b) == inject_Z (2 ^ a))%Q).
  { rewrite <- pow2_add_nonneg by exact Hb0.
    replace (a - b + b) with a by lia. rewrite pow2_nonneg_eq by exact Ha0. reflexivity. }
  assert (HN : ((n # d) * inject_Z (Z.pos d) == inject_Z n)%Q).
  { unfold Qeq, Qmult, inject_Z. cbn [Qnum Qden]. rewrite Pos2Z.inj_mul. lia. }
  assert (HA : (inject_Z (2 ^ a) <= inject_Z n)%Q) by (rewrite <- Zle_Qle; lia).
  assert (HA' : (inject_Z n < 2 * inject_Z (2 ^ a))%Q).
  { change 2%Q with (inject_Z 2). rewrite <- inject_Z_mult, <- Zlt_Qlt. lia. }
  assert (HB : (inject_Z (2 ^ b) <= inject_Z (Z.pos d))%Q) by (rewrite <- Zle_Qle; lia).
  assert (HB' : (inject_Z (Z.pos d) < 2 * inject_Z (2 ^ b))%Q).
  { change 2%Q with (inject_Z 2). rewrite <- inject_Z_mult, <- Zlt_Qlt. lia. }
  assert (HD : (0 < inject_Z (Z.pos d))%Q) by (change 0%Q with (inject_Z 0); rewrite <- Zlt_Qlt; lia).
  assert (HB0 : (0 < inject_Z (2 ^ b))%Q).
  { change 0%Q with (inject_Z 0). rewrite <- Zlt_Qlt. apply Z.pow_pos_nonneg; lia. }
  pose proof (pow2_pos (a - b)) as HE0.
  set (E := pow2 (a - b)) in *. set (q := n # d) in *.
  set (D := inject_Z (Z.pos d)) in *. set (B := inject_Z (2 ^ b)) in *.
  set (N := inject_Z n) in *. set (A := inject_Z (2 ^ a)) in *.
  assert (Hup : (q < 2 * E)%Q).
  { destruct (Qlt_le_dec q (2 * E)) as [|Hc]; [assumption|].
    exfalso. assert ((2 * E * D <= q * D)%Q) by (apply Qmult_le_compat_r; lra).
    assert ((2 * (E * B) <= 2 * E * D)%Q) by nra. nra. }
  assert (Hlo : (E < 2 * q)%Q).
  { destruct (Qlt_le_dec E (2 * q)) as [|Hc]; [assumption|].
    exfalso. assert ((2 * q * D <= E * D)%Q) by (apply Qmult_le_compat_r; lra).
    assert ((E * D < E * (2 * B))%Q) by nra. nra. }
  destruct (Qle_bool E q) eqn:Hc.
  - apply Qle_bool_iff in Hc. split; [exact Hc|].
    unfold E in *. rewrite pow2_succ. exact Hup.
  - assert (Hlt : (q < E)%Q).
    { destruct (Qlt_le_dec q E) as [|Hc']; [assumption|].
      apply Qle_bool_iff in Hc'. congruence. }
    replace (a - b - 1 + 1) with (a - b) by lia.
    split; [|exact Hlt].
    assert (H2 : (pow2 (a - b) == 2 * pow2 (a - b - 1))%Q).
    { rewrite <- pow2_succ. replace (a - b - 1 + 1) with (a - b) by lia. reflexivity. }
    fold E in H2. lra.
Qed.

Lemma round_Z (n d k : Z) :
  0 < d ->
  let f := n / d in
  let m := match 2 * (n mod d) ?= d with
           | Lt => f
           | Gt => f + 1
           | Eq => if Z.even f then f else f + 1
           end in
  Z.abs (m * d - n) <= Z.abs (k * d - n) /\ 2 * Z.abs (m * d - n) <= d.
Proof.
  intros Hd f m.
  pose proof (Z.div_mod n d ltac:(lia)) as E.
  pose proof (Z.mod_pos_bound n d Hd) as Hr.
  fold f in E. set (r := n mod d) in *.
  assert (Hk : k <= f \/ f + 1 <= k) by lia.
  assert (Hm : (m = f /\ 2 * r <= d) \/ (m = f + 1 /\ d <= 2 * r)).
  { unfold m. destruct (Z.compare_spec (2 * r) d).
    - destruct (Z.even f); [left | right]; lia.
    - left; lia.
    - right; lia. }
  destruct Hm as [[-> H]|[-> H]]; destruct Hk; split; nia.
Qed.

Lemma round_half_even_nearest (x : Q) (k : Z) :
  (Qabs (inject_Z (round_half_even x) - x) <= Qabs (inject_Z k - x))%Q.
Proof.
  destruct x as [n d]. unfold round_half_even. cbn [Qnum Qden].
  destruct (round_Z n (Z.pos d) k ltac:(lia)) as [H _]. cbv zeta in H.
  set (m := match 2 * (n mod Z.pos d) ?= Z.pos d with
            | Lt => n / Z.pos d | Gt => n / Z.pos d + 1
            | Eq => if Z.even (n / Z.pos d) then n / Z.pos d else n / Z.pos d + 1 end) in *.
  unfold Qle, Qabs, Qminus, Qplus, Qopp, inject_Z. cbn [Qnum Qden].
  rewrite !Pos2Z.inj_mul.
  replace (m * Z.pos d + - n * 1) with (m * Z.pos d - n) by lia.
  replace (k * Z.pos d + - n * 1) with (k * Z.pos d - n) by lia.
  nia.
Qed.

Lemma round_half_even_half (x : Q) :
  (Qabs (inject_Z (round_half_even x) - x) <= 1 # 2)%Q.
Proof.
  destruct x as [n d]. unfold round_half_even. cbn [Qnum Qden].
  destruct (round_Z n (Z.pos d) 0 ltac:(lia)) as [_ H]. cbv zeta in H.
  set (m := match 2 * (n mod Z.pos d) ?= Z.pos d with
            | Lt => n / Z.pos d | Gt => n / Z.pos d + 1
            | Eq => if Z.even (n / Z.pos d) then n / Z.pos d else n / Z.pos d + 1 end) in *.
  unfold Qle, Qabs, Qminus, Qplus, Qopp, inject_Z. cbn [Qnum Qden].
  rewrite !Pos2Z.inj_mul.
  replace (m * Z.pos d + - n * 1) with (m * Z.pos d - n) by lia.
  lia.
Qed.

(** Scaling the rounding: [m * 2^u] is as near to [q] as any multiple of [2^u]. *)
Lemma round_scaled (q : Q) (u k : Z) :
  (Qabs (inject_Z (round_half_even (q / pow2 u)) * pow2 u - q)
   <= Qabs (inject_Z k * pow2 u - q))%Q.
Proof.
  pose proof (pow2_pos u) as HP.
  set (x := (q / pow2 u)%Q).
  assert (Hx : (q == x * pow2 u)%Q).
  { unfold x. field. intros H. rewrite H in HP. apply (Qlt_irrefl 0). exact HP. }
  pose proof (round_half_even_nearest x k) as H.
  set (m := round_half_even x) in *.
  assert (E1 : (inject_Z m * pow2 u - q == (inject_Z m - x) * pow2 u)%Q) by (rewrite Hx; ring).
  assert (E2 : (inject_Z k * pow2 u - q == (inject_Z k - x) * pow2 u)%Q) by (rewrite Hx; ring).
  rewrite E1, E2, !Qabs_Qmult, (Qabs_pos (pow2 u)) by lra.
  apply Qmult_le_compat_r; [exact H | lra].
Qed.

Lemma round_scaled_half (q : Q) (u : Z) :
  (Qabs (inject_Z (round_half_even (q / pow2 u)) * pow2 u - q) <= pow2 (u - 1))%Q.
Proof.
  pose proof (pow2_pos u) as HP.
  set (x := (q / pow2 u)%Q).
  assert (Hx : (q == x * pow2 u)%Q).
  { unfold x. field. intros H. rewrite H in HP. apply (Qlt_irrefl 0). exact HP. }
  pose proof (round_half_even_half x) as H.
  set (m := round_half_even x) in *.
  assert (E1 : (inject_Z m * pow2 u - q == (inject_Z m - x) * pow2 u)%Q) by (rewrite Hx; ring).
  assert (E2 : (pow2 u == 2 * pow2 (u - 1))%Q).
  { rewrite <- pow2_succ. replace (u - 1 + 1) with u by lia. reflexivity. }
  rewrite E1, Qabs_Qmult, (Qabs_pos (pow2 u)) by lra.
  assert (H0 : (0 <= Qabs (inject_Z m - x))%Q) by apply Qabs_nonneg.
  assert (H1 : (Qabs (inject_Z m - x) * pow2 u <= (1 # 2) * pow2 u)%Q)
    by (apply Qmult_le_compat_r; [exact H | lra]).
  lra.
Qed.

Lemma inject_mul_le (a b : Z) (P : Q) :
  (0 < P)%Q -> a <= b -> (inject_Z a * P <= inject_Z b * P)%Q.
Proof.
  intros HP H. apply Qmult_le_compat_r; [|lra]. rewrite <- Zle_Qle. exact H.
Qed.

Lemma inject_succ_mul (a : Z) (P : Q) :
  (inject_Z (a + 1) * P == inject_Z a * P + P)%Q.
Proof. rewrite inject_Z_plus. change (inject_Z 1) with 1%Q. ring. Qed.

Lemma pow2_shift (u n : Z) : 0 <= n -> (inject_Z (2 ^ n) * pow2 u == pow2 (u + n))%Q.
Proof. intros H. rewrite pow2_add_nonneg by exact H. ring. Qed.

(** Among the multiples of [P], one that is off the side of [K * P] on
    which [q] lies is not the nearest. *)
Lemma nearest_multiple_le (q P : Q) (m K : Z) :
  (0 < P)%Q -> (q <= inject_Z K * P)%Q ->
  (Qabs (inject_Z m * P - q) <= Qabs (inject_Z K * P - q))%Q -> m <= K.
Proof.
  intros HP Hq H.
  destruct (Z_le_gt_dec m K) as [|Hc]; [assumption|]. exfalso.
  pose proof (inject_mul_le (K + 1) m P HP ltac:(lia)) as H1.
  rewrite inject_succ_mul in H1.
  rewrite !Qabs_pos in H by lra. lra.
Qed.

Lemma nearest_multiple_ge (q P : Q) (m K : Z) :
  (0 < P)%Q -> (inject_Z K * P <= q)%Q ->
  (Qabs (inject_Z m * P - q) <= Qabs (inject_Z K * P - q))%Q -> K <= m.
Proof.
  intros HP Hq H.
  destruct (Z_le_gt_dec K m) as [|Hc]; [assumption|]. exfalso.
  pose proof (inject_mul_le (m + 1) K P HP ltac:(lia)) as H1.
  rewrite inject_succ_mul in H1.
  rewrite !Qabs_neg in H by lra. lra.
Qed.

Lemma round_mantissa (q : Q) :
  (0 < q)%Q ->
  let e := floor_log2 q in
  let u := Z.max (e - 52) (-1074) in
  let m := round_half_even (q / pow2 u) in
  0 <= m <= 2 ^ 53 /\ (u = e - 52 -> 2 ^ 52 <= m).
Proof.
  intros Hq e u m.
  pose proof (pow2_pos u) as HP.
  destruct (floor_log2_spec q Hq) as [Hlo Hhi]. fold e in Hlo, Hhi.
  assert (Hup : (q <= inject_Z (2 ^ 53) * pow2 u)%Q).
  { rewrite pow2_shift by lia. apply Qle_trans with (pow2 (e + 1)); [lra|].
    apply pow2_le. lia. }
  split; [split|].
  - apply (nearest_multiple_ge q (pow2 u)); [exact HP| |apply round_scaled].
    change (inject_Z 0) with 0%Q. lra.
  - apply (nearest_multiple_le q (pow2 u)); [exact HP|exact Hup|apply round_scaled].
  - intros Hu. apply (nearest_multiple_ge q (pow2 u)); [exact HP| |apply round_scaled].
    rewrite pow2_shift by lia. replace (u + 52) with e by lia. exact Hlo.
Qed.

Lemma is_double_0 : is_double 0.
Proof. exists 0, 0. split; [reflexivity|]. split; [lia|]. reflexivity. Qed.

Lemma is_double_Z (n : Z) : Z.abs n < 2 ^ 53 -> is_double (inject_Z n).
Proof.
  intros H. exists n, 0. split; [exact H|]. split; [lia|].
  change (pow2 0) with 1%Q. ring.
Qed.


Lemma is_double_wd (x y : Q) : (x == y)%Q -> is_double x -> is_double y.
Proof.
  intros E (m & e & Hm & He & Ex). exists m, e.
  split; [exact Hm|]. split; [exact He|]. rewrite <- E. exact Ex.
Qed.

Lemma nearest_double_zero (v : Q) : (v <= 0)%Q -> nearest_double v = 0%Q.
Proof.
  intros H. unfold nearest_double. rewrite <- (Qred_correct v) in H.
  apply Qle_bool_iff in H. rewrite H. reflexivity.
Qed.

(** What [nearest_double] is made of, for a positive number: the
    significand [m], the unit [2^u] and the exponent [e] of the number. *)
Lemma nearest_double_parts (v : Q) :
  (0 < v)%Q ->
  exists m u e,
    (nearest_double v == inject_Z m * pow2 u)%Q /\
    (pow2 e <= v)%Q /\ (v < pow2 (e + 1))%Q /\ u = Z.max (e - 52) (-1074) /\
    0 <= m <= 2 ^ 53 /\ (u = e - 52 -> 2 ^ 52 <= m) /\
    (forall k, (Qabs (inject_Z m * pow2 u - v) <= Qabs (inject_Z k * pow2 u - v))%Q) /\
    (Qabs (inject_Z m * pow2 u - v) <= pow2 (u - 1))%Q.
Proof.
  intros Hv. unfold nearest_double.
  pose proof (Qred_correct v) as Hred.
  set (q := Qred v) in *.
  assert (Hq : (0 < q)%Q) by (rewrite Hred; exact Hv).
  destruct (Qle_bool q 0) eqn:Hz.
  { apply Qle_bool_iff in Hz. exfalso. lra. }
  cbv zeta.
  pose proof (round_mantissa q Hq) as Hm. cbv zeta in Hm.
  destruct (floor_log2_spec q Hq) as [Hlo Hhi].
  set (e := floor_log2 q) in *.
  set (u := Z.max (e - 52) (-1074)) in *.
  exists (round_half_even (q / pow2 u)), u, e.
  split; [apply Qred_correct|].
  rewrite Hred in Hlo, Hhi.
  split; [exact Hlo|]. split; [exact Hhi|]. split; [reflexivity|].
  split; [apply Hm|]. split; [apply Hm|]. split.
  - intros k. rewrite <- Hred. apply round_scaled.
  - rewrite <- Hred. apply round_scaled_half.
Qed.

Lemma nearest_double_nonneg (v : Q) : (0 <= nearest_double v)%Q.
Proof.
  destruct (Qlt_le_dec 0 v) as [Hv|Hv].
  - destruct (nearest_double_parts v Hv) as (m & u & e & E & _ & _ & _ & Hm & _).
    rewrite E. pose proof (pow2_pos u).
    apply Qmult_le_0_compat; [|lra].
    change 0%Q with (inject_Z 0). rewrite <- Zle_Qle. lia.
  - rewrite (nearest_double_zero v Hv). lra.
Qed.

(** The result is a double, unless it is beyond the largest one. *)
Lemma nearest_double_is_double (v : Q) :
  (nearest_double v < pow2 1024)%Q -> is_double (nearest_double v).
Proof.
  intros Hfin.
  destruct (Qlt_le_dec 0 v) as [Hv|Hv];
    [|rewrite (nearest_double_zero v Hv); exact is_double_0].
  destruct (nearest_double_parts v Hv)
    as (m & u & e & E & Hlo & Hhi & Hu & [Hm0 Hm53] & Hm52 & Hnear & _).
  rewrite E in Hfin. apply (is_double_wd _ _ (Qeq_sym _ _ E)).
  pose proof (pow2_pos u) as HP.
  destruct (Z.eq_dec m (2 ^ 53)) as [E53|N53].
  - exists (2 ^ 52), (u + 1).
    rewrite E53, pow2_shift in Hfin by lia.
    assert (u + 53 < 1024).
    { destruct (Z_lt_ge_dec (u + 53) 1024) as [|Hc]; [assumption|].
      exfalso. pose proof (pow2_le 1024 (u + 53) ltac:(lia)). lra. }
    split; [reflexivity|]. split; [lia|].
    rewrite E53, !pow2_shift by lia. replace (u + 1 + 52) with (u + 53) by lia.
    reflexivity.
  - exists m, u. split; [lia|]. split; [|reflexivity].
    split; [lia|].
    destruct (Z_le_gt_dec u 971) as [|Hc]; [assumption|]. exfalso.
    assert (Hu' : u = e - 52) by lia.
    specialize (Hm52 Hu').
    pose proof (inject_mul_le _ _ (pow2 u) HP Hm52) as H1.
    rewrite pow2_shift in H1 by lia.
    pose proof (pow2_le 1024 (u + 52) ltac:(lia)). lra.
Qed.

(** No double is nearer to the number than the result. *)
Lemma nearest_double_nearest (v d : Q) :
  (0 <= v)%Q -> is_double d ->
  (Qabs (nearest_double v - v) <= Qabs (d - v))%Q.
Proof.
  intros Hv0 Hd.
  destruct (Qlt_le_dec 0 v) as [Hv|Hv].
  2:{ rewrite (nearest_double_zero v Hv).
      assert (E : (0 - v == 0)%Q) by lra. rewrite E. apply Qabs_nonneg. }
  destruct (nearest_double_parts v Hv)
    as (m & u & e & E & Hlo & Hhi & Hu & [Hm0 Hm53] & Hm52 & Hnear & _).
  rewrite E. destruct Hd as (m' & e' & Hm' & He' & Ed). rewrite Ed.
  destruct (Z_le_gt_dec u e') as [Hue|Hue].
  - specialize (Hnear (m' * 2 ^ (e' - u))).
    assert (E' : (inject_Z (m' * 2 ^ (e' - u)) * pow2 u == inject_Z m' * pow2 e')%Q).
    { rewrite inject_Z_mult, <- Qmult_assoc, pow2_shift by lia.
      replace (u + (e' - u)) with e' by lia. reflexivity. }
    rewrite E' in Hnear. exact Hnear.
  - assert (Hu' : u = e - 52) by lia.
    specialize (Hnear (2 ^ 52)). rewrite pow2_shift in Hnear by lia.
    replace (u + 52) with e in Hnear by lia.
    assert (Hlt : (inject_Z m' * pow2 e' < pow2 e)%Q).
    { apply Qle_lt_trans with (inject_Z (2 ^ 53 - 1) * pow2 e')%Q.
      - apply inject_mul_le; [apply pow2_pos | lia].
      - pose proof (pow2_pos e').
        pose proof (inject_succ_mul (2 ^ 53 - 1) (pow2 e')) as H1.
        replace (2 ^ 53 - 1 + 1) with (2 ^ 53) in H1 by lia.
        rewrite pow2_shift in H1 by lia.
        pose proof (pow2_le (e' + 53) e ltac:(lia)). lra. }
    rewrite (Qabs_neg (inject_Z m' * pow2 e' - v)) by lra.
    rewrite (Qabs_neg (pow2 e - v)) in Hnear by lra.
    lra.
Qed.

(** [nearest_double] is what its name says. *)
Lemma nearest_double_spec (v : Q) :
  (0 <= v)%Q -> (nearest_double v < pow2 1024)%Q -> nearest v (nearest_double v).
Proof.
  intros Hv Hfin. split; [exact (nearest_double_is_double v Hfin)|].
  intros d Hd. exact (nearest_double_nearest v d Hv Hd).
Qed.

(** A number that is a double is converted to itself. *)
Lemma nearest_double_exact (v : Q) :
  (0 <= v)%Q -> is_double v -> (nearest_double v == v)%Q.
Proof.
  intros Hv Hd. pose proof (nearest_double_nearest v v Hv Hd) as H.
  assert (E : (v - v == 0)%Q) by ring. rewrite E in H. change (Qabs 0) with 0%Q in H.
  revert H. apply Qabs_case; intros; lra.
Qed.

(** The conversion does not cross a double. *)
Lemma nearest_double_le (v d : Q) :
  (0 <= v)%Q -> is_double d -> (v <= d)%Q -> (nearest_double v <= d)%Q.
Proof.
  intros Hv Hd Hle. pose proof (nearest_double_nearest v d Hv Hd) as H.
  destruct (Qlt_le_dec d (nearest_double v)) as [Hc|]; [|assumption].
  rewrite !Qabs_pos in H by lra. lra.
Qed.

Lemma nearest_double_ge (v d : Q) :
  (0 <= v)%Q -> is_double d -> (d <= v)%Q -> (d <= nearest_double v)%Q.
Proof.
  intros Hv Hd Hle. pose proof (nearest_double_nearest v d Hv Hd) as H.
  destruct (Qlt_le_dec (nearest_double v) d) as [Hc|]; [|assumption].
  rewrite !Qabs_neg in H by lra. lra.
Qed.

(** The error of the conversion is at most half a unit in the last place. *)
Lemma nearest_double_error (v : Q) (k : Z) :
  (0 <= v)%Q -> (v < pow2 (k + 1))%Q -> -1022 <= k ->
  (Qabs (nearest_double v - v) <= pow2 (k - 53))%Q.
Proof.
  intros Hv0 Hk Hmin.
  destruct (Qlt_le_dec 0 v) as [Hv|Hv].
  2:{ rewrite (nearest_double_zero v Hv).
      assert (E : (0 - v == 0)%Q) by lra. rewrite E. change (Qabs 0) with 0%Q.
      pose proof (pow2_pos (k - 53)). lra. }
  destruct (nearest_double_parts v Hv)
    as (m & u & e & E & Hlo & Hhi & Hu & _ & _ & _ & Hhalf).
  rewrite E.
  assert (He : e <= k).
  { destruct (Z_le_gt_dec e k) as [|Hc]; [assumption|]. exfalso.
    pose proof (pow2_le (k + 1) e ltac:(lia)). lra. }
  pose proof (pow2_le (u - 1) (k - 53) ltac:(lia)). lra.
Qed.

Lemma nearest_double_wd (v v' : Q) : (v == v')%Q -> nearest_double v = nearest_double v'.
Proof. intros E. unfold nearest_double. rewrite (Qred_complete _ _ E). reflexivity. Qed.

Lemma pow2_10 : pow2 10 = inject_Z 1024.
Proof. reflexivity. Qed.

Lemma is_double_1000 : is_double (inject_Z 1000).
Proof. apply is_double_Z. reflexivity. Qed.

(** The number a percentage text denotes, as [decimal_value] computes it. *)
Lemma decimal_pct_text (i : str) (f : option str) (s : str) :
  pct_text i f s -> exists q, decimal_value s = Ok q /\ (q == pct_number i f)%Q.
Proof.
  intros [[Hi Hl] Hs]. unfold decimal_value.
  assert (Hne : i <> []) by (destruct i; simpl in Hl; [lia | discriminate]).
  destruct f as [f|].
  - destruct Hs as [[Hf Hfne] ->].
    rewrite split_dot_fraction by exact Hi.
    assert (Hv : digits_value (i ++ f) 0 = Some (digits_number (i ++ f))).
    { apply digits_value_number. rewrite forallb_app, Hi, Hf. reflexivity. }
    destruct i as [|a i]; [congruence|]. rewrite Hv.
    eexists. split; [reflexivity|].
    rewrite digits_number_app. simpl pct_number.
    apply decimal_fraction_value. apply Z.pow_pos_nonneg; lia.
  - subst s. rewrite split_dot_digits by exact Hi.
    destruct i as [|a i]; [congruence|].
    rewrite digits_value_number by exact Hi.
    eexists. split; [reflexivity|]. simpl. reflexivity.
Qed.

(** The double of a percentage lies between 0 and 1000, both included. *)
Lemma pct_double_bounds (i : str) (f : option str) (s : str) :
  pct_text i f s ->
  (0 <= nearest_double (pct_number i f))%Q /\
  (nearest_double (pct_number i f) <= inject_Z 1000)%Q.
Proof.
  intros Hp. destruct (pct_number_bounds i f s Hp) as [B0 B1].
  split; [apply nearest_double_nonneg|].
  apply nearest_double_le; [exact B0 | exact is_double_1000|].
  change (inject_Z 1000) with 1000%Q. lra.
Qed.

(** The conversion of a percentage text succeeds and gives the double
    nearest to the number the text denotes. *)
Lemma float_pct_text (i : str) (f : option str) (s : str) :
  pct_text i f s -> float s = Ok (nearest_double (pct_number i f)).
Proof.
  intros Hp. destruct (decimal_pct_text i f s Hp) as (q & Eq & Hq).
  unfold float. rewrite Eq. cbv zeta.
  rewrite (nearest_double_wd _ _ Hq).
  destruct (pct_double_bounds i f s Hp) as [_ B].
  destruct (Qle_bool (pow2 1024) (nearest_double (pct_number i f))) eqn:Ho; [|reflexivity].
  exfalso. apply Qle_bool_iff in Ho.
  pose proof (pow2_lt 10 1024 ltac:(lia)) as H. rewrite pow2_10 in H.
  assert ((inject_Z 1000 < inject_Z 1024)%Q) by (rewrite <- Zlt_Qlt; lia).
  lra.
Qed.

(** What the conversion of a percentage text gives, in words of the
    number the text denotes. *)
Lemma pct_double_spec (i : str) (f : option str) (s : str) :
  pct_text i f s ->
  nearest (pct_number i f) (nearest_double (pct_number i f)) /\
  (Qabs (nearest_double (pct_number i f) - pct_number i f) <= pow2 (-44))%Q /\
  (is_double (pct_number i f) ->
   (nearest_double (pct_number i f) == pct_number i f)%Q).
Proof.
  intros Hp. destruct (pct_number_bounds i f s Hp) as [B0 B1].
  destruct (pct_double_bounds i f s Hp) as [_ B].
  split; [|split].
  - apply nearest_double_spec; [exact B0|].
    pose proof (pow2_lt 10 1024 ltac:(lia)) as H. rewrite pow2_10 in H.
    assert ((inject_Z 1000 < inject_Z 1024)%Q) by (rewrite <- Zlt_Qlt; lia).
    lra.
  - apply (nearest_double_error _ 9); [exact B0| |lia].
    change (pow2 (9 + 1)) with (inject_Z 1024).
    assert ((1000 < inject_Z 1024)%Q) by reflexivity. lra.
  - intros Hd. apply nearest_double_exact; assumption.
Qed.

Lemma pct_float_of (i : str) (f : option str) (s : str) :
  pct_text i f s -> float_of (pct_number i f) (nearest_double (pct_number i f)).
Proof.
  intros Hp. destruct (pct_double_spec i f s Hp) as (H1 & H2 & H3).
  split; [reflexivity|]. split; [exact H1|]. split; [exact H2 | exact H3].
Qed.

(** * [parse_progress_line] *)

Lemma search_full_inv line c :
  re_search re_full line = Some c ->
  exists pre mid post num rate eta',
    line = pre ++ mid ++ post /\ full_shape mid num rate eta' /\
    c = [(3%nat, eta'); (2%nat, rate); (1%nat, num)] /\
    forall pre' mid' post' n' r' e',
      line = pre' ++ mid' ++ post' -> full_shape mid' n' r' e' ->
      (length pre <= length pre')%nat.
Proof.
  intros H. apply re_search_leftmost in H as (pre & mid & post & -> & M & Hleft).
  apply full_inv in M as (num & rate & eta' & Hs & ->).
  exists pre, mid, post, num, rate, eta'. repeat split; auto.
  intros pre' mid' post' n' r' e' E Hs'.
  eapply Hleft; [exact E | apply full_intro; exact Hs'].
Qed.

Lemma search_reduced_inv line c :
  re_search re_reduced line = Some c ->
  exists pre mid post num rate,
    line = pre ++ mid ++ post /\ reduced_shape mid num rate /\
    c = [(2%nat, rate); (1%nat, num)] /\
    forall pre' mid' post' n' r',
      line = pre' ++ mid' ++ post' -> reduced_shape mid' n' r' ->
      (length pre <= length pre')%nat.
Proof.
  intros H. apply re_search_leftmost in H as (pre & mid & post & -> & M & Hleft).
  apply reduced_inv in M as (num & rate & Hs & ->).
  exists pre, mid, post, num, rate. repeat split; auto.
  intros pre' mid' post' n' r' E Hs'.
  eapply Hleft; [exact E | apply reduced_intro; exact Hs'].
Qed.

Lemma full_shape_pct mid num rate eta' :
  full_shape mid num rate eta' -> exists i f, pct_text i f num.
Proof. intros (red & y & w & _ & (x & w' & _ & H & _) & _). exact H. Qed.

Lemma reduced_shape_pct mid num rate :
  reduced_shape mid num rate -> exists i f, pct_text i f num.
Proof. intros (x & w' & _ & H & _). exact H. Qed.

(** The parser never raises: its conversions are of percentage texts. *)
Lemma parse_progress_line_total line : exists r, parse_progress_line line = Ok r.
Proof.
  unfold parse_progress_line.
  destruct (re_search re_full line) as [c|] eqn:E.
  - apply search_full_inv in E as (pre & mid & post & num & rate & eta' & _ & Hs & -> & _).
    apply full_shape_pct in Hs as (i & f & Hp).
    apply float_pct_text in Hp as Hq.
    change (group_or_empty 1 _) with num. rewrite Hq. eauto.
  - destruct (re_search re_reduced line) as [c|] eqn:E2; [|eauto].
    apply search_reduced_inv in E2 as (pre & mid & post & num & rate & _ & Hs & -> & _).
    apply reduced_shape_pct in Hs as (i & f & Hp).
    apply float_pct_text in Hp as Hq.
    change (group_or_empty 1 _) with num. rewrite Hq. eauto.
Qed.

Lemma re_search_has_match r s c : re_search r s = Some c -> has_match r s.
Proof.
  intros H. apply re_search_sound in H as (pre & mid & post & -> & M).
  exists pre, mid, post, c. auto.
Qed.

Lemma re_search_no_match r s : re_search r s = None -> ~ has_match r s.
Proof.
  intros H Hm. apply re_search_complete in Hm as [c Hc]. congruence.
Qed.

Lemma full_line_reduced line : full_line line -> reduced_line line.
Proof.
  intros (pre & mid & post & num & rate & eta' & -> & (red & y & w & -> & Hred & _)).
  exists pre, red, ((y ++ "ETA" ++ w ++ eta') ++ post), num, rate.
  split; [|exact Hred]. rewrite <- !app_assoc. reflexivity.
Qed.

Lemma parse_full line :
  full_line line ->
  exists pre mid post num rate eta' i f q,
    line = pre ++ mid ++ post /\ full_shape mid num rate eta' /\
    (forall pre' mid' post' n' r' e',
       line = pre' ++ mid' ++ post' -> full_shape mid' n' r' e' ->
       (length pre <= length pre')%nat) /\
    pct_text i f num /\ float_of (pct_number i f) q /\
    parse_progress_line line = Ok (Some (q, rate, Some eta')).
Proof.
  intros H. apply full_line_has_match, re_search_complete in H as [c E].
  unfold parse_progress_line. rewrite E.
  apply search_full_inv in E
    as (pre & mid & post & num & rate & eta' & Hl & Hs & -> & Hleft).
  destruct (full_shape_pct _ _ _ _ Hs) as (i & f & Hp).
  change (group_or_empty 1 _) with num. rewrite (float_pct_text _ _ _ Hp).
  pose proof (pct_float_of _ _ _ Hp) as Hv.
  exists pre, mid, post, num, rate, eta', i, f, (nearest_double (pct_number i f)). auto 10.
Qed.

Lemma parse_reduced line :
  ~ full_line line -> reduced_line line ->
  exists pre mid post num rate i f q,
    line = pre ++ mid ++ post /\ reduced_shape mid num rate /\
    (forall pre' mid' post' n' r',
       line = pre' ++ mid' ++ post' -> reduced_shape mid' n' r' ->
       (length pre <= length pre')%nat) /\
    pct_text i f num /\ float_of (pct_number i f) q /\
    parse_progress_line line = Ok (Some (q, rate, None)).
Proof.
  intros Hn H. unfold parse_progress_line.
  rewrite re_search_none by (rewrite <- full_line_has_match; exact Hn).
  apply reduced_line_has_match, re_search_complete in H as [c E]. rewrite E.
  apply search_reduced_inv in E as (pre & mid & post & num & rate & Hl & Hs & -> & Hleft).
  destruct (reduced_shape_pct _ _ _ Hs) as (i & f & Hp).
  change (group_or_empty 1 _) with num. rewrite (float_pct_text _ _ _ Hp).
  pose proof (pct_float_of _ _ _ Hp) as Hv.
  exists pre, mid, post, num, rate, i, f, (nearest_double (pct_number i f)). auto 10.
Qed.

Lemma parse_none line :
  ~ reduced_line line -> parse_progress_line line = Ok None.
Proof.
  intros Hn. unfold parse_progress_line.
  rewrite re_search_none
    by (rewrite <- full_line_has_match; intros H; apply Hn, full_line_reduced, H).
  rewrite re_search_none by (rewrite <- reduced_line_has_match; exact Hn).
  reflexivity.
Qed.

(** * Which report the parser takes *)

(** The lazy repetition stops at the first place from which the rest of
    the pattern matches. *)
Lemma rep_lazy_first {A : Type} (p : ascii -> bool) (s : str) (k : str -> option A) (r : A) :
  rep false p s k = Some r ->
  exists x rest, s = x ++ rest /\ forallb p x = true /\ k rest = Some r /\
    forall x' rest', s = x' ++ rest' -> (length x' < length x)%nat -> k rest' = None.
Proof.
  induction s as [|a s IH]; cbn [rep]; intros H.
  - exists [], []. repeat split; auto. intros x' rest' _ Hl. simpl in Hl. lia.
  - assert (Hnow : k (a :: s) = Some r ->
              exists x rest, a :: s = x ++ rest /\ forallb p x = true /\ k rest = Some r /\
                forall x' rest', a :: s = x' ++ rest' -> (length x' < length x)%nat ->
                                 k rest' = None).
    { intros Hk. exists [], (a :: s). repeat split; auto.
      intros x' rest' _ Hl. simpl in Hl. lia. }
    destruct (p a) eqn:Hp; [|auto].
    destruct (k (a :: s)) eqn:Hk; [inversion H; subst; auto|].
    destruct (IH H) as (x & rest & -> & Hx & Hr & Hmin).
    exists (a :: x), rest. simpl. rewrite Hp, Hx. repeat split; auto.
    intros x' rest' E Hl. destruct x' as [|b x'].
    + simpl in E. subst rest'. exact Hk.
    + simpl in E. inversion E; subst. apply (Hmin x' rest'); [assumption | simpl in Hl; lia].
Qed.

(** A run of characters of a class that is followed by a character
    outside the class is found in one way only. *)
Lemma span_unique (p : ascii -> bool) (a a' b b' : str) :
  forallb p a = true -> forallb p a' = true ->
  starts_outside p b -> starts_outside p b' ->
  a ++ b = a' ++ b' -> a = a' /\ b = b'.
Proof.
  revert a'. induction a as [|x a IH]; intros a' Ha Ha' Hb Hb' E.
  - destruct a' as [|y a']; [auto|].
    simpl in E. subst b. simpl in Hb, Ha'. apply andb_prop in Ha' as [Hy _]. congruence.
  - destruct a' as [|y a'].
    + simpl in E. subst b'. simpl in Hb', Ha. apply andb_prop in Ha as [Hx _]. congruence.
    + simpl in E. inversion E; subst.
      simpl in Ha, Ha'. apply andb_prop in Ha as [_ Ha]. apply andb_prop in Ha' as [_ Ha'].
      destruct (IH a' Ha Ha' Hb Hb' H1) as [-> ->]. auto.
Qed.

Lemma is_digit_or_dot_not_space a : is_digit_or_dot a = true -> is_space a = false.
Proof.
  destruct a as [[] [] [] [] [] [] [] []]; vm_compute; intros H;
    first [reflexivity | discriminate H].
Qed.

Lemma is_KMG_not_digit_or_dot a : is_KMG a = true -> is_digit_or_dot a = false.
Proof.
  destruct a as [[] [] [] [] [] [] [] []]; vm_compute; intros H;
    first [reflexivity | discriminate H].
Qed.

Lemma pct_text_chars i f s : pct_text i f s -> forallb is_digit_or_dot s = true.
Proof.
  assert (D : forall l, forallb is_digit l = true -> forallb is_digit_or_dot l = true).
  { induction l as [|a l IH]; simpl; [auto|]. intros H. apply andb_prop in H as [Ha Hl].
    unfold is_digit_or_dot at 1. rewrite Ha, (IH Hl). reflexivity. }
  intros [[Hi _] Hs]. destruct f as [f|].
  - destruct Hs as [[Hf _] ->]. rewrite forallb_app, (D i Hi). simpl. exact (D f Hf).
  - subst s. exact (D i Hi).
Qed.

Lemma rate_text_head s : rate_text s -> exists a s', s = a :: s' /\ is_digit_or_dot a = true.
Proof.
  intros (m & u & -> & Hne & Hm & _). destruct m as [|a m]; [congruence|].
  simpl in Hm. apply andb_prop in Hm as [Ha _]. exists a, (m ++ u ++ "iB/s"). auto.
Qed.

Lemma eta_text_head s : eta_text s -> exists a s', s = a :: s' /\ is_digit a = true.
Proof. intros (a & b & c & d & -> & Ha & _). eauto. Qed.

(** The percentage text before the sign. *)
Lemma pct_unique i f i' f' (n n' t t' : str) :
  pct_text i f n -> pct_text i' f' n' ->
  n ++ "%" ++ t = n' ++ "%" ++ t' -> n = n' /\ t = t'.
Proof.
  intros H H' E.
  destruct (span_unique is_digit_or_dot n n' ("%" ++ t) ("%" ++ t')
              (pct_text_chars _ _ _ H) (pct_text_chars _ _ _ H')
              eq_refl eq_refl E) as [-> E'].
  inversion E'. auto.
Qed.

(** The white space before a rate or an ETA. *)
Lemma spaces_unique (w w' t t' : str) :
  spaces1 w -> spaces1 w' ->
  (exists a s, t = a :: s /\ is_digit_or_dot a = true) ->
  (exists a s, t' = a :: s /\ is_digit_or_dot a = true) ->
  w ++ t = w' ++ t' -> w = w' /\ t = t'.
Proof.
  intros [Hw _] [Hw' _] (a & s & -> & Ha) (a' & s' & -> & Ha') E.
  apply (span_unique is_space); auto; simpl; apply is_digit_or_dot_not_space; assumption.
Qed.

(** A rate at a given place. *)
Lemma rate_unique (r r' t t' : str) :
  rate_text r -> rate_text r' -> r ++ t = r' ++ t' -> r = r' /\ t = t'.
Proof.
  intros (m & u & -> & _ & Hm & Hu) (m' & u' & -> & _ & Hm' & Hu') E.
  rewrite <- !app_assoc in E.
  assert (O : forall v x, (v = [] \/ exists a, v = [a] /\ is_KMG a = true) ->
              starts_outside is_digit_or_dot (v ++ "iB/s" ++ x)).
  { intros v x [-> | (a & -> & Ha)]; simpl; [reflexivity|].
    apply is_KMG_not_digit_or_dot, Ha. }
  destruct (span_unique is_digit_or_dot m m' _ _ Hm Hm' (O u t Hu) (O u' t' Hu') E)
    as [-> E'].
  destruct Hu as [-> | (a & -> & Ha)], Hu' as [-> | (a' & -> & Ha')]; simpl in E'.
  - inversion E'. auto.
  - inversion E'.
  - inversion E'.
  - inversion E'; subst. auto.
Qed.

(** An ETA at a given place. *)
Lemma eta_unique (e e' t t' : str) :
  eta_text e -> eta_text e' -> e ++ t = e' ++ t' -> e = e' /\ t = t'.
Proof.
  intros (a & b & c & d & -> & _) (a' & b' & c' & d' & -> & _) E.
  inversion E. auto.
Qed.

Lemma rmatch_Cat {A : Type} r1 r2 s c (k : str -> caps -> option A) :
  rmatch (Cat r1 r2) s c k = rmatch r1 s c (fun s' c' => rmatch r2 s' c' k).
Proof. reflexivity. Qed.

Lemma rmatch_Rep {A : Type} g p s c (k : str -> caps -> option A) :
  rmatch (Rep g p) s c k = rep g p s (fun s' => k s' c).
Proof. reflexivity. Qed.

(** [re.search] returns the match at the first position that has one. *)
Lemma re_search_at (r : re) (s : str) (c : caps) :
  re_search r s = Some c ->
  exists pre rest, s = pre ++ rest /\ match_at r rest = Some c /\
    forall pre' mid' post' c',
      s = pre' ++ mid' ++ post' -> matches r mid' [] c' ->
      (length pre <= length pre')%nat.
Proof.
  induction s as [|a s IH]; cbn [re_search].
  - destruct (match_at r []) eqn:E; [|discriminate].
    intros H; inversion H; subst. exists [], []. repeat split; auto.
    intros. simpl. lia.
  - destruct (match_at r (a :: s)) eqn:E.
    + intros H; inversion H; subst. exists [], (a :: s). repeat split; auto.
      intros. simpl. lia.
    + intros H. destruct (IH H) as (pre & rest & -> & Hm & Hleft).
      exists (a :: pre), rest. repeat split; auto.
      intros pre' mid' post' c' Hs M'.
      destruct pre' as [|b pre'].
      * simpl in Hs. rewrite Hs in E.
        destruct (match_at_complete r mid' post' c' M') as [x Hx]. congruence.
      * simpl in Hs. injection Hs as _ Hs'.
        specialize (Hleft _ _ _ _ Hs' M'). simpl. lia.
Qed.

(** The rate part of the patterns, from [at] on. *)
Lemma rate_tail_intro (w rate : str) (c : caps) :
  spaces1 w -> rate_text rate ->
  matches (Cat (Lit "at") (Cat (Plus true is_space) re_rate))
    ("at" ++ w ++ rate) c ((2%nat, rate) :: c).
Proof.
  intros [Hw Hne] Hr.
  econstructor; [apply matches_Lit_intro|].
  econstructor; [apply matches_Plus_intro; assumption|].
  apply rate_intro, Hr.
Qed.

Lemma rate_tail_inv (s : str) (c c' : caps) :
  matches (Cat (Lit "at") (Cat (Plus true is_space) re_rate)) s c c' ->
  exists w rate, s = "at" ++ w ++ rate /\ spaces1 w /\ rate_text rate /\
    c' = (2%nat, rate) :: c.
Proof.
  intros H.
  apply matches_Cat_inv in H as (a & s4 & c4 & -> & Ha & H).
  apply matches_Lit_inv in Ha as [-> ->].
  apply matches_Cat_inv in H as (w & rate & c5 & -> & Hw & H).
  apply matches_Plus_inv in Hw as (Hw & Hwne & ->).
  apply rate_inv in H as [Hrate ->].
  exists w, rate. repeat split; auto.
Qed.

(** The ETA part of the full pattern, from [ETA] on. *)
Lemma eta_tail_intro (w eta' : str) (c : caps) :
  spaces1 w -> eta_text eta' ->
  matches (Cat (Lit "ETA") (Cat (Plus true is_space) re_eta))
    ("ETA" ++ w ++ eta') c ((3%nat, eta') :: c).
Proof.
  intros [Hw Hne] He.
  econstructor; [apply matches_Lit_intro|].
  econstructor; [apply matches_Plus_intro; assumption|].
  apply eta_intro, He.
Qed.

Lemma eta_tail_inv (s : str) (c c' : caps) :
  matches (Cat (Lit "ETA") (Cat (Plus true is_space) re_eta)) s c c' ->
  exists w eta', s = "ETA" ++ w ++ eta' /\ spaces1 w /\ eta_text eta' /\
    c' = (3%nat, eta') :: c.
Proof.
  intros H.
  apply matches_Cat_inv in H as (a & s4 & c4 & -> & Ha & H).
  apply matches_Lit_inv in Ha as [-> ->].
  apply matches_Cat_inv in H as (w & eta' & c5 & -> & Hw & H).
  apply matches_Plus_inv in Hw as (Hw & Hwne & ->).
  apply eta_inv in H as [He ->].
  exists w, eta'. repeat split; auto.
Qed.

(** The reduced pattern at the head of [s], followed by [k]: the match
    that is taken has the percentage at the head, and its rate is the
    first one after which [k] succeeds. *)
Lemma rmatch_reduced_first {A : Type} (s : str) (k : str -> caps -> option A) (r : A) :
  rmatch re_reduced s [] k = Some r ->
  exists num x w rate t,
    s = num ++ "%" ++ x ++ "at" ++ w ++ rate ++ t /\
    (exists i f, pct_text i f num) /\ forallb is_dot x = true /\ spaces1 w /\
    rate_text rate /\
    k t [(2%nat, rate); (1%nat, num)] = Some r /\
    forall x1 w1 rate1 t1,
      s = num ++ "%" ++ x1 ++ "at" ++ w1 ++ rate1 ++ t1 ->
      spaces1 w1 -> rate_text rate1 ->
      is_Some (k t1 [(2%nat, rate1); (1%nat, num)]) ->
      (length x <= length x1)%nat.
Proof.
  unfold re_reduced. rewrite rmatch_Cat. intros H.
  apply rmatch_sound in H as (num & s1 & c1 & -> & Mnum & H).
  apply pct_inv in Mnum as [Hnum ->].
  rewrite rmatch_Cat in H.
  apply rmatch_sound in H as (pc & s2 & c2 & -> & Mp & H).
  apply matches_Lit_inv in Mp as [-> ->].
  rewrite rmatch_Cat, rmatch_Rep in H.
  apply rep_lazy_first in H as (x & s3 & -> & Hx & H & Hmin).
  apply rmatch_sound in H as (tl & t & c3 & -> & Mt & H).
  apply rate_tail_inv in Mt as (w & rate & -> & Hw & Hrate & ->).
  exists num, x, w, rate, t.
  split; [rewrite <- !app_assoc; reflexivity|].
  repeat (split; [assumption|]).
  intros x1 w1 rate1 t1 E Hw1 Hrate1 Hk.
  destruct (Nat.le_gt_cases (length x) (length x1)) as [|Hlt]; [assumption|]. exfalso.
  apply app_inv_head in E. apply (app_inv_head ("%" : str)) in E.
  assert (E' : x ++ ("at" ++ w ++ rate) ++ t = x1 ++ ("at" ++ w1 ++ rate1) ++ t1)
    by (rewrite E, <- !app_assoc; reflexivity).
  specialize (Hmin x1 _ E' Hlt).
  pose proof (rmatch_complete _ _ _ _ (rate_tail_intro w1 rate1 [(1%nat, num)] Hw1 Hrate1)
                A t1 k Hk) as [y Hy].
  rewrite Hy in Hmin. discriminate Hmin.
Qed.

(** The ETA part of the full pattern at the head of [s]: the ETA that is
    taken is the first one. *)
Lemma rmatch_eta_first (s : str) (c r : caps) :
  rmatch (Cat (Rep false is_dot) (Cat (Lit "ETA") (Cat (Plus true is_space) re_eta)))
    s c (fun _ c' => Some c') = Some r ->
  exists y w eta' post,
    s = y ++ "ETA" ++ w ++ eta' ++ post /\
    forallb is_dot y = true /\ spaces1 w /\ eta_text eta' /\
    r = (3%nat, eta') :: c /\
    forall y1 w1 eta1 post1,
      s = y1 ++ "ETA" ++ w1 ++ eta1 ++ post1 -> spaces1 w1 -> eta_text eta1 ->
      (length y <= length y1)%nat.
Proof.
  rewrite rmatch_Cat, rmatch_Rep. intros H.
  apply rep_lazy_first in H as (y & s1 & -> & Hy & H & Hmin).
  apply rmatch_sound in H as (tl & post & c1 & -> & Mt & H).
  apply eta_tail_inv in Mt as (w & eta' & -> & Hw & He & ->).
  inversion H; subst r.
  exists y, w, eta', post.
  split; [rewrite <- !app_assoc; reflexivity|].
  repeat (split; [assumption|]). split; [reflexivity|].
  intros y1 w1 eta1 post1 E Hw1 He1.
  destruct (Nat.le_gt_cases (length y) (length y1)) as [|Hlt]; [assumption|]. exfalso.
  assert (E' : y ++ ("ETA" ++ w ++ eta') ++ post = y1 ++ ("ETA" ++ w1 ++ eta1) ++ post1)
    by (rewrite E, <- !app_assoc; reflexivity).
  specialize (Hmin y1 _ E' Hlt).
  pose proof (rmatch_complete _ _ _ _ (eta_tail_intro w1 eta1 c Hw1 He1)
                caps post1 (fun _ c' => Some c') ltac:(eauto)) as [z Hz].
  rewrite Hz in Hmin. discriminate Hmin.
Qed.

Lemma eta_tail_complete (y w eta' post : str) (c : caps) :
  forallb is_dot y = true -> spaces1 w -> eta_text eta' ->
  is_Some (rmatch (Cat (Rep false is_dot)
                     (Cat (Lit "ETA") (Cat (Plus true is_space) re_eta)))
             (y ++ "ETA" ++ w ++ eta' ++ post) c (fun _ c' => Some c')).
Proof.
  intros Hy Hw He.
  assert (M : matches (Cat (Rep false is_dot)
                         (Cat (Lit "ETA") (Cat (Plus true is_space) re_eta)))
                (y ++ "ETA" ++ w ++ eta') c ((3%nat, eta') :: c)).
  { econstructor; [constructor; exact Hy|]. apply eta_tail_intro; assumption. }
  pose proof (rmatch_complete _ _ _ _ M caps post (fun _ c' => Some c') ltac:(eauto)) as H.
  rewrite <- !app_assoc in H. simpl in H. simpl. exact H.
Qed.

Lemma reduced_parts_shape line pre num x w rate post :
  reduced_parts line pre num x w rate post ->
  line = pre ++ (num ++ "%" ++ x ++ "at" ++ w ++ rate) ++ post /\
  reduced_shape (num ++ "%" ++ x ++ "at" ++ w ++ rate) num rate.
Proof.
  intros (-> & Hn & Hx & Hw & Hr). split.
  - rewrite <- !app_assoc. reflexivity.
  - exists x, w. auto.
Qed.

Lemma full_parts_shape line pre num x w rate y w' eta' post :
  full_parts line pre num x w rate y w' eta' post ->
  line = pre ++ (num ++ "%" ++ x ++ "at" ++ w ++ rate ++ y ++ "ETA" ++ w' ++ eta') ++ post /\
  full_shape (num ++ "%" ++ x ++ "at" ++ w ++ rate ++ y ++ "ETA" ++ w' ++ eta') num rate eta'.
Proof.
  intros ((-> & Hn & Hx & Hw & Hr) & Hy & Hw' & He). split.
  - rewrite <- !app_assoc. reflexivity.
  - exists (num ++ "%" ++ x ++ "at" ++ w ++ rate), y, w'.
    split; [rewrite <- !app_assoc; reflexivity|].
    split; [exists x, w; auto | auto].
Qed.

(** Two reports of the reduced form that start at the same place: the
    same percentage; and the same rate, and the same text after it, when
    the rate is at the same place. *)
Lemma reduced_parts_unique line pre num x w rate post num1 x1 w1 rate1 post1 :
  reduced_parts line pre num x w rate post ->
  reduced_parts line pre num1 x1 w1 rate1 post1 ->
  num1 = num /\
  x ++ "at" ++ w ++ rate ++ post = x1 ++ "at" ++ w1 ++ rate1 ++ post1 /\
  (length x1 = length x -> x1 = x /\ w1 = w /\ rate1 = rate /\ post1 = post).
Proof.
  intros (E & (i & f & Hn) & Hx & Hw & Hr) (E1 & (i1 & f1 & Hn1) & Hx1 & Hw1 & Hr1).
  rewrite E in E1. apply app_inv_head in E1.
  destruct (pct_unique _ _ _ _ _ _ _ _ Hn Hn1 E1) as [<- E2].
  split; [reflexivity|]. split; [exact E2|].
  intros Hl. apply app_inj_1 in E2 as [<- E3]; [|congruence].
  apply (app_inv_head ("at" : str)) in E3.
  destruct (rate_text_head _ Hr) as (a & r' & Ea & Ha).
  destruct (rate_text_head _ Hr1) as (a1 & r1' & Ea1 & Ha1).
  destruct (spaces_unique w w1 (rate ++ post) (rate1 ++ post1) Hw Hw1) as [<- E4];
    [exists a, (r' ++ post); rewrite Ea; auto
    |exists a1, (r1' ++ post1); rewrite Ea1; auto
    |exact E3|].
  destruct (rate_unique _ _ _ _ Hr Hr1 E4) as [<- <-]. auto.
Qed.

Lemma is_digit_digit_or_dot a : is_digit a = true -> is_digit_or_dot a = true.
Proof. unfold is_digit_or_dot. intros ->. reflexivity. Qed.

(** Two ETA parts that start at the same place hold the same ETA. *)
Lemma eta_parts_unique (w eta' post w1 eta1 post1 : str) :
  spaces1 w -> eta_text eta' -> spaces1 w1 -> eta_text eta1 ->
  "ETA" ++ w ++ eta' ++ post = "ETA" ++ w1 ++ eta1 ++ post1 -> eta1 = eta'.
Proof.
  intros Hw He Hw1 He1 E. apply (app_inv_head ("ETA" : str)) in E.
  destruct (eta_text_head _ He) as (a & r' & Ea & Ha).
  destruct (eta_text_head _ He1) as (a1 & r1' & Ea1 & Ha1).
  destruct (spaces_unique w w1 (eta' ++ post) (eta1 ++ post1) Hw Hw1) as [_ E4];
    [exists a, (r' ++ post); rewrite Ea; auto using is_digit_digit_or_dot
    |exists a1, (r1' ++ post1); rewrite Ea1; auto using is_digit_digit_or_dot
    |exact E|].
  destruct (eta_unique _ _ _ _ He He1 E4) as [<- _]. reflexivity.
Qed.

(** The report the parser takes when the line holds one of the full
    form: the leftmost one; of those that start there, the one whose
    rate comes first; of those, the one whose ETA comes first. *)
Lemma parse_full_first line :
  full_line line ->
  exists pre num x w rate y w' eta' post i f,
    full_parts line pre num x w rate y w' eta' post /\
    (forall pre' mid' post' n' r' e',
       line = pre' ++ mid' ++ post' -> full_shape mid' n' r' e' ->
       (length pre <= length pre')%nat) /\
    (forall num1 x1 w1 rate1 y1 w1' eta1 post1,
       full_parts line pre num1 x1 w1 rate1 y1 w1' eta1 post1 ->
       num1 = num /\ (length x <= length x1)%nat /\
       (length x1 = length x ->
        rate1 = rate /\ (length y <= length y1)%nat /\
        (length y1 = length y -> eta1 = eta'))) /\
    pct_text i f num /\
    parse_progress_line line
      = Ok (Some (nearest_double (pct_number i f), rate, Some eta')).
Proof.
  intros H. apply full_line_has_match, re_search_complete in H as [c E].
  unfold parse_progress_line. rewrite E.
  apply re_search_at in E as (pre & rest & -> & Hm & Hleft).
  unfold match_at, re_full in Hm. rewrite rmatch_Cat in Hm.
  apply rmatch_reduced_first in Hm as (num & x & w & rate & t & -> & Hn & Hx & Hw & Hr & Hk & Hxmin).
  apply rmatch_eta_first in Hk as (y & w' & eta' & post & -> & Hy & Hw' & He & -> & Hymin).
  destruct Hn as (i & f & Hn).
  assert (P : full_parts (pre ++ num ++ "%" ++ x ++ "at" ++ w ++ rate
                            ++ y ++ "ETA" ++ w' ++ eta' ++ post)
                pre num x w rate y w' eta' post).
  { split; [|auto]. split; [reflexivity|]. split; [eauto | auto]. }
  exists pre, num, x, w, rate, y, w', eta', post, i, f.
  split; [exact P|]. split; [|split; [|split; [exact Hn|]]].
  - intros pre' mid' post' n' r' e' E' Hs'.
    eapply Hleft; [exact E' | apply full_intro; exact Hs'].
  - intros num1 x1 w1 rate1 y1 w1' eta1 post1 P1.
    destruct P as [R _]. destruct P1 as (R1 & Hy1 & Hw1' & He1).
    destruct (reduced_parts_unique _ _ _ _ _ _ _ _ _ _ _ _ R R1) as (-> & E2 & Hsame).
    destruct R1 as (_ & _ & _ & Hw1 & Hr1).
    split; [reflexivity|]. split.
    + apply (Hxmin x1 w1 rate1 (y1 ++ "ETA" ++ w1' ++ eta1 ++ post1));
        [rewrite E2; reflexivity | assumption | assumption|].
      apply eta_tail_complete; assumption.
    + intros Hl. destruct (Hsame Hl) as (-> & -> & -> & E3).
      split; [reflexivity|]. split.
      * apply (Hymin y1 w1' eta1 post1); [symmetry; exact E3 | assumption | assumption].
      * intros Hl'. symmetry in E3. apply app_inj_1 in E3 as [_ E4]; [|congruence].
        exact (eta_parts_unique _ _ _ _ _ _ Hw' He Hw1' He1 E4).
  - change (group_or_empty 1 _) with num. rewrite (float_pct_text _ _ _ Hn).
    reflexivity.
Qed.

(** The same when the line holds none of the full form but one of the
    reduced form. *)
Lemma parse_reduced_first line :
  ~ full_line line -> reduced_line line ->
  exists pre num x w rate post i f,
    reduced_parts line pre num x w rate post /\
    (forall pre' mid' post' n' r',
       line = pre' ++ mid' ++ post' -> reduced_shape mid' n' r' ->
       (length pre <= length pre')%nat) /\
    (forall num1 x1 w1 rate1 post1,
       reduced_parts line pre num1 x1 w1 rate1 post1 ->
       num1 = num /\ (length x <= length x1)%nat /\
       (length x1 = length x -> rate1 = rate)) /\
    pct_text i f num /\
    parse_progress_line line = Ok (Some (nearest_double (pct_number i f), rate, None)).
Proof.
  intros Hnf H. unfold parse_progress_line.
  rewrite re_search_none by (rewrite <- full_line_has_match; exact Hnf).
  apply reduced_line_has_match, re_search_complete in H as [c E]. rewrite E.
  apply re_search_at in E as (pre & rest & -> & Hm & Hleft).
  unfold match_at in Hm.
  apply rmatch_reduced_first in Hm as (num & x & w & rate & post & -> & Hn & Hx & Hw & Hr & Hk & Hxmin).
  inversion Hk; subst c.
  destruct Hn as (i & f & Hn).
  assert (P : reduced_parts (pre ++ num ++ "%" ++ x ++ "at" ++ w ++ rate ++ post)
                pre num x w rate post).
  { split; [reflexivity|]. split; [eauto | auto]. }
  exists pre, num, x, w, rate, post, i, f.
  split; [exact P|]. split; [|split; [|split; [exact Hn|]]].
  - intros pre' mid' post' n' r' E' Hs'.
    eapply Hleft; [exact E' | apply reduced_intro; exact Hs'].
  - intros num1 x1 w1 rate1 post1 R1.
    destruct (reduced_parts_unique _ _ _ _ _ _ _ _ _ _ _ _ P R1) as (-> & E2 & Hsame).
    destruct R1 as (_ & _ & _ & Hw1 & Hr1).
    split; [reflexivity|]. split.
    + apply (Hxmin x1 w1 rate1 post1); [rewrite E2; reflexivity | assumption | assumption|].
      eauto.
    + intros Hl. destruct (Hsame Hl) as (_ & _ & -> & _). reflexivity.
  - change (group_or_empty 1 _) with num. rewrite (float_pct_text _ _ _ Hn).
    reflexivity.
Qed.

(** * The loop of the runner *)

(** What one line does to the record: the text, the progress fields when
    the line parses, the file name when the line announces one; nothing
    else, and no exception. *)
Lemma on_line_effect raw j :
  exists j',
    on_line raw j = (Ok tt, j') /\
    done j' = done j /\ error j' = error j /\
    text (status j') = take 160 (strip raw) /\
    filename j' = match announced raw with Some f => Some f | None => filename j end /\
    (parse_progress_line (strip raw) = Ok None ->
       pct (status j') = pct (status j) /\ speed (status j') = speed (status j) /\
       eta (status j') = eta (status j)).
Proof.
  unfold on_line, announced, bind, modify, lift, ret.
  destruct (parse_progress_line_total (strip raw)) as [r Hr]. rewrite Hr.
  destruct r as [[[p sp] et]|];
    destruct (contains "Destination:" (strip raw));
    try destruct (re_search re_destination (strip raw));
    eexists; (split; [reflexivity|]); simpl; repeat split; auto; discriminate.
Qed.

Lemma for_each_on_line out : forall j,
  exists j',
    for_each on_line out j = (Ok tt, j') /\
    done j' = done j /\ error j' = error j /\
    filename j' =
      fold_left (fun acc raw => match announced raw with Some f => Some f | None => acc end)
        out (filename j).
Proof.
  induction out as [|raw out IH]; intros j; simpl.
  - exists j. unfold ret. auto.
  - destruct (on_line_effect raw j) as (j1 & E1 & Hd1 & He1 & _ & Hf1 & _).
    destruct (IH j1) as (j2 & E2 & Hd2 & He2 & Hf2).
    exists j2. unfold bind. rewrite E1, E2.
    repeat split; [congruence | congruence |]. rewrite Hf2, Hf1. reflexivity.
Qed.

(** * The destination announcement *)

Lemma rmatch_Lit {A : Type} (l s : str) (c : caps) (k : str -> caps -> option A) :
  rmatch (Lit l) s c k = if starts_with l s then k (drop (length l) s) c else None.
Proof.
  revert s. induction l as [|a l IH]; intros s; simpl; [reflexivity|].
  destruct s as [|b s]; [reflexivity|].
  unfold is_char. rewrite Ascii.eqb_sym.
  destruct (Ascii.eqb a b); simpl; [apply IH | reflexivity].
Qed.

Lemma rep_greedy_all {A : Type} (p : ascii -> bool) (s : str) (k : str -> option A) :
  forallb p s = true -> is_Some (k []) -> rep true p s k = k [].
Proof.
  intros Hall [x Hx]. induction s as [|a s IH]; simpl; [reflexivity|].
  simpl in Hall. apply andb_prop in Hall as [Ha Hs].
  rewrite Ha, (IH Hs), Hx. reflexivity.
Qed.

Lemma match_at_destination (w : ascii) (path : str) :
  is_space w = true -> path <> [] -> forallb is_dot path = true ->
  match_at re_destination ("Destination:" ++ w :: path) = Some [(1%nat, path)].
Proof.
  intros Hw Hne Hdot. unfold match_at, re_destination.
  cbn [rmatch]. rewrite rmatch_Lit, starts_with_app, drop_app_length.
  cbn [rmatch]. rewrite Hw.
  destruct path as [|a path]; [congruence|].
  simpl in Hdot. apply andb_prop in Hdot as [Ha Hdot].
  unfold Plus. cbn [rmatch]. rewrite Ha.
  rewrite rep_greedy_all; [|exact Hdot|eauto].
  replace (length (a :: path) - length (@nil ascii))%nat with (length (a :: path))
    by (simpl; lia).
  rewrite firstn_all. reflexivity.
Qed.

(** A match of the announcement pattern at the head of a text: the
    token, a white space character, and at least one more character. *)
Lemma match_at_destination_inv (s : str) (c : caps) :
  match_at re_destination s = Some c ->
  exists w path, s = "Destination:" ++ w :: path /\ is_space w = true /\ path <> [].
Proof.
  intros H. apply match_at_sound in H as (mid & post & -> & M).
  unfold re_destination in M.
  apply matches_Cat_inv in M as (t & s1 & c1 & -> & Ht & M).
  apply matches_Lit_inv in Ht as [-> ->].
  apply matches_Cat_inv in M as (sw & p & c2 & -> & Hw & M).
  apply matches_Cls_inv in Hw as (w & -> & Hw & ->).
  apply matches_Grp_inv in M as (c3 & M & ->).
  apply matches_Plus_inv in M as (Hp & Hne & ->).
  exists w, (p ++ post). rewrite <- !app_assoc. repeat split; auto.
  destruct p; [congruence | discriminate].
Qed.

(** The search passes over every position at which no announcement
    begins and returns the path of the first announcement, up to the end
    of the line. *)
Lemma search_first_destination (pre : str) (w : ascii) (path : str) : forall pre0 : str,
  is_space w = true -> path <> [] -> forallb is_dot path = true ->
  (forall pre' w' path',
     pre0 ++ pre ++ "Destination:" ++ w :: path = pre' ++ "Destination:" ++ w' :: path' ->
     is_space w' = true -> path' <> [] -> (length (pre0 ++ pre) <= length pre')%nat) ->
  re_search re_destination (pre ++ "Destination:" ++ w :: path) = Some [(1%nat, path)].
Proof.
  induction pre as [|x pre IH]; intros pre0 Hw Hne Hdot Hfirst.
  - simpl app at 1.
    assert (E := match_at_destination w path Hw Hne Hdot).
    simpl in E |- *. rewrite E. reflexivity.
  - change ((x :: pre) ++ "Destination:" ++ w :: path)
      with (x :: (pre ++ "Destination:" ++ w :: path)).
    cbn [re_search].
    destruct (match_at re_destination (x :: pre ++ "Destination:" ++ w :: path)) as [c|] eqn:E.
    + exfalso. apply match_at_destination_inv in E as (w' & path' & E & Hw' & Hne').
      specialize (Hfirst pre0 w' path').
      change ((x :: pre) ++ "Destination:" ++ w :: path)
        with (x :: (pre ++ "Destination:" ++ w :: path)) in Hfirst.
      rewrite E in Hfirst. specialize (Hfirst eq_refl Hw' Hne').
      rewrite length_app in Hfirst. simpl in Hfirst. lia.
    + apply (IH (pre0 ++ [x])); try assumption.
      intros pre' w' path' E' Hw' Hne'.
      assert (L : (pre0 ++ [x]) ++ pre = pre0 ++ x :: pre)
        by (rewrite <- app_assoc; reflexivity).
      rewrite L. apply (Hfirst pre' w' path'); [|assumption..].
      rewrite <- E', <- app_assoc. reflexivity.
Qed.

(** A line without line feed that holds an announcement has a first one. *)
Lemma first_destination (line : str) :
  forallb is_dot line = true ->
  (exists pre w path,
     line = pre ++ "Destination:" ++ w :: path /\ is_space w = true /\ path <> []) ->
  exists pre w path,
    line = pre ++ "Destination:" ++ w :: path /\ is_space w = true /\ path <> [] /\
    forall pre' w' path',
      line = pre' ++ "Destination:" ++ w' :: path' -> is_space w' = true -> path' <> [] ->
      (length pre <= length pre')%nat.
Proof.
  intros Hdot (pre1 & w1 & path1 & E1 & Hw1 & Hne1).
  assert (Hmatch : forall pre' w' path',
            line = pre' ++ "Destination:" ++ w' :: path' -> is_space w' = true ->
            path' <> [] ->
            exists a rest c, path' = a :: rest /\
              matches re_destination ("Destination:" ++ [w'; a]) [] c).
  { intros pre' w' path' E Hw Hne. destruct path' as [|a rest]; [congruence|].
    assert (Ha : is_dot a = true).
    { rewrite E in Hdot. rewrite !forallb_app in Hdot.
      apply andb_prop in Hdot as [_ Hdot]. apply andb_prop in Hdot as [_ Hdot].
      simpl in Hdot. apply andb_prop in Hdot as [_ Hdot].
      apply andb_prop in Hdot as [Ha _]. exact Ha. }
    exists a, rest. eexists. split; [reflexivity|].
    unfold re_destination.
    change ("Destination:" ++ [w'; a]) with ("Destination:" ++ ([w'] ++ [a])).
    econstructor; [apply matches_Lit_intro|].
    econstructor; [constructor; exact Hw|].
    constructor. apply matches_Plus_intro; [simpl; rewrite Ha; reflexivity | discriminate]. }
  destruct (Hmatch _ _ _ E1 Hw1 Hne1) as (a1 & rest1 & c1 & -> & M1).
  assert (Hhas : has_match re_destination line).
  { exists pre1, ("Destination:" ++ [w1; a1]), rest1, c1. split; [|exact M1].
    rewrite E1, <- !app_assoc. reflexivity. }
  apply re_search_complete in Hhas as [c Hc].
  apply re_search_leftmost in Hc as (pre & mid & post & E & M & Hleft).
  unfold re_destination in M.
  apply matches_Cat_inv in M as (t & s1 & c2 & -> & Ht & M).
  apply matches_Lit_inv in Ht as [-> ->].
  apply matches_Cat_inv in M as (sw & p & c3 & -> & Hw & M).
  apply matches_Cls_inv in Hw as (w & -> & Hw & ->).
  apply matches_Grp_inv in M as (c4 & M & ->).
  apply matches_Plus_inv in M as (Hp & Hne & ->).
  exists pre, w, (p ++ post). repeat split.
  - rewrite E, <- !app_assoc. reflexivity.
  - exact Hw.
  - destruct p; [congruence | discriminate].
  - intros pre' w' path' E' Hw' Hne'.
    destruct (Hmatch _ _ _ E' Hw' Hne') as (a & rest & c' & -> & M').
    apply (Hleft pre' ("Destination:" ++ [w'; a]) rest c'); [|exact M'].
    rewrite E', <- !app_assoc. reflexivity.
Qed.

Lemma forallb_is_dot_suffix (a b : str) :
  forallb is_dot (a ++ b) = true -> forallb is_dot b = true.
Proof. rewrite forallb_app. intros H. apply andb_prop in H. apply H. Qed.

Lemma announced_first_destination (raw pre : str) (w : ascii) (path : str) :
  strip raw = pre ++ "Destination:" ++ w :: path ->
  is_space w = true -> path <> [] -> forallb is_dot (strip raw) = true ->
  (forall pre' w' path',
     strip raw = pre' ++ "Destination:" ++ w' :: path' -> is_space w' = true ->
     path' <> [] -> (length pre <= length pre')%nat) ->
  announced raw = Some (basename path).
Proof.
  intros E Hw Hne Hdot Hfirst. unfold announced.
  rewrite E in Hdot |- *.
  rewrite (contains_mid "Destination:" pre (w :: path)).
  rewrite (search_first_destination pre w path []); [reflexivity|exact Hw|exact Hne| |].
  - apply forallb_is_dot_suffix in Hdot. apply forallb_is_dot_suffix in Hdot.
    simpl in Hdot. apply andb_prop in Hdot. apply Hdot.
  - intros pre' w' path' E'. apply Hfirst. rewrite E. exact E'.
Qed.

(** * The outcome of the runner *)

Lemma supervise_lines out fin ls :
  exists j, for_each on_line out initial_job = (Ok tt, j) /\
    done j = false /\ error j = None /\ filename j = last_announced out /\
    supervise (Spawned out fin) ls initial_job =
      match fin with
      | ReadFails e => (Raise e, j)
      | Exits r =>
          if r =? 0 then
            if falsy (filename j) then
              match newest_first ls with
              | Raise e => (Raise e, set_done j)
              | Ok (f :: _) => (Ok tt, set_filename f (set_done j))
              | Ok [] => (Ok tt, set_done j)
              end
            else (Ok tt, set_done j)
          else (Ok tt, set_error ("yt-dlp exited " ++ show_Z r) j)
      end.
Proof.
  destruct (for_each_on_line out initial_job) as (j & E & Hd & He & Hf).
  exists j. repeat split; try assumption.
  unfold supervise, bind. rewrite E.
  destruct fin as [r|e]; [|reflexivity].
  destruct (r =? 0); [|reflexivity].
  unfold modify, get, lift, ret, raise. cbn [filename set_done].
  destruct (falsy (filename j)); [|reflexivity].
  destruct (newest_first ls) as [[|f fs]|e]; reflexivity.
Qed.

(** Whenever the fallback scan raises, the job ends done and with the
    message of the exception as its error. *)
Lemma runner_scan_failure out ls e :
  falsy (last_announced out) = true -> newest_first ls = Raise e ->
  done (run_job (Spawned out (Exits 0)) ls) = true /\
  error (run_job (Spawned out (Exits 0)) ls) = Some e.
Proof.
  intros Hf Hn.
  destruct (supervise_lines out (Exits 0) ls) as (j & _ & _ & _ & Hj & E).
  change (0 =? 0) with true in E. cbv iota in E.
  rewrite Hj, Hf, Hn in E. unfold run_job. rewrite E. simpl. auto.
Qed.

(** In the other cases of exit code zero the job ends without error. *)
Lemma runner_exit_zero_no_error out ls :
  (falsy (last_announced out) = true -> exists names, newest_first ls = Ok names) ->
  error (run_job (Spawned out (Exits 0)) ls) = None.
Proof.
  intros Hscan.
  destruct (supervise_lines out (Exits 0) ls) as (j & _ & _ & He & Hj & E).
  change (0 =? 0) with true in E. cbv iota in E.
  unfold run_job. rewrite E, Hj.
  destruct (falsy (last_announced out)); [|simpl; exact He].
  destruct (Hscan eq_refl) as [names ->].
  destruct names; simpl; exact He.
Qed.

(** * Paths and the file tree *)

Lemma str_eqb_false (a b : str) : a <> b -> str_eqb a b = false.
Proof. intros H. unfold str_eqb. apply bool_decide_eq_false. exact H. Qed.

Lemma path_join_relative_cases (a b : str) :
  starts_with "/" b = false -> path_join a b = a ++ b \/ path_join a b = a ++ "/" ++ b.
Proof.
  intros H. unfold path_join. rewrite H.
  destruct (str_eqb a [] || ends_with "/" a); auto.
Qed.

Lemma ends_with_slash_downloader (x : str) : ends_with "/" (x ++ "web_downloader") = false.
Proof. unfold ends_with. rewrite rev_app_distr. reflexivity. Qed.

Lemma WEB_DOWNLOADER_DIR_form (cwd : str) :
  exists x, WEB_DOWNLOADER_DIR cwd = x ++ "web_downloader".
Proof.
  unfold WEB_DOWNLOADER_DIR.
  destruct (path_join_relative_cases cwd "web_downloader" eq_refl) as [-> | ->].
  - exists cwd. reflexivity.
  - exists (cwd ++ "/"). rewrite <- app_assoc. reflexivity.
Qed.

Lemma plain_name_not_absolute (f : str) : plain_name f -> starts_with "/" f = false.
Proof.
  intros (Hne & Hs & _). destruct f as [|a f]; [congruence|].
  simpl in Hs. apply andb_prop in Hs as [Ha _]. unfold is_char in Ha.
  change (starts_with "/" (a :: f)) with (Ascii.eqb "/" a && true).
  rewrite Ascii.eqb_sym.
  destruct (Ascii.eqb a "/"); [discriminate | reflexivity].
Qed.

(** Below the managed directory a plain name is joined with one slash. *)
Lemma path_join_managed (cwd f : str) :
  plain_name f ->
  path_join (WEB_DOWNLOADER_DIR cwd) f = WEB_DOWNLOADER_DIR cwd ++ "/" ++ f.
Proof.
  intros Hf. unfold path_join at 1. rewrite (plain_name_not_absolute f Hf).
  destruct (WEB_DOWNLOADER_DIR_form cwd) as [x ->].
  rewrite ends_with_slash_downloader, orb_false_r, str_eqb_false; [reflexivity|].
  destruct x; discriminate.
Qed.

Lemma split_slash_plain (f : str) :
  forallb (fun a => negb (is_char "/" a)) f = true -> split_slash f = [f].
Proof.
  induction f as [|a f IH]; simpl; intros H; [reflexivity|].
  apply andb_prop in H as [Ha Hf].
  destruct (is_char "/" a); [discriminate|]. rewrite (IH Hf). reflexivity.
Qed.

Lemma normpath_plain (f : str) : plain_name f -> normpath f = f.
Proof.
  intros Hp. pose proof (plain_name_not_absolute f Hp) as Habs.
  destruct Hp as (Hne & Hs & Hdot & Hdd).
  unfold normpath. destruct f as [|a f]; [congruence|].
  rewrite Habs, (split_slash_plain _ Hs). cbn [norm_comps].
  rewrite (str_eqb_false (a :: f) []) by discriminate.
  rewrite (str_eqb_false _ _ Hdot), (str_eqb_false _ _ Hdd). reflexivity.
Qed.

Lemma plain_name_not_up (f : str) : plain_name f -> starts_with "../" f = false.
Proof.
  intros (_ & Hs & _). destruct (starts_with "../" f) eqn:E; [|reflexivity].
  apply starts_with_inv in E as [r ->]. discriminate Hs.
Qed.

(** For a plain name the framework joins the same path as the handler. *)
Lemma safe_join_plain (cwd f : str) :
  plain_name f ->
  safe_join (WEB_DOWNLOADER_DIR cwd) f = Some (path_join (WEB_DOWNLOADER_DIR cwd) f).
Proof.
  intros Hp. unfold safe_join. cbv zeta.
  assert (Hn : match f with [] => [] | _ => normpath f end = f).
  { destruct f; [reflexivity|]. apply normpath_plain, Hp. }
  assert (Hd : match WEB_DOWNLOADER_DIR cwd with
               | [] => ("." : str)
               | _ => WEB_DOWNLOADER_DIR cwd
               end = WEB_DOWNLOADER_DIR cwd).
  { destruct (WEB_DOWNLOADER_DIR_form cwd) as [x ->]. destruct x; reflexivity. }
  rewrite Hn, Hd.
  rewrite (plain_name_not_absolute f Hp), (plain_name_not_up f Hp).
  destruct Hp as (_ & _ & _ & Hdd). rewrite (str_eqb_false _ _ Hdd). reflexivity.
Qed.

Lemma read_file_exists cwd t p data :
  read_file cwd t p = Some data -> os_path_exists cwd t p = true.
Proof.
  unfold read_file, os_path_exists. intros H.
  apply bool_decide_eq_true. destruct (resolve cwd t p); [eauto | discriminate].
Qed.

(** *** Removing a file *)

Lemma node_at_file t q d : node_at t q = Some (File d) -> t !! q = Some (File d).
Proof. destruct q; simpl; [discriminate | auto]. Qed.

Lemma node_at_delete t q p n :
  node_at (delete q t) p = Some n -> node_at t p = Some n.
Proof.
  destruct p; simpl; [auto|]. intros H. apply lookup_delete_Some in H. apply H.
Qed.

Lemma is_dir_delete t q d p :
  t !! q = Some (File d) -> is_dir (delete q t) p = is_dir t p.
Proof.
  intros Hq. unfold is_dir, node_at. destruct p as [|c p]; [reflexivity|].
  destruct (decide (q = c :: p)) as [<- | Hne].
  - rewrite lookup_delete_eq, Hq. reflexivity.
  - rewrite lookup_delete_ne by exact Hne. reflexivity.
Qed.

Lemma walk_delete t q d names : forall cur r,
  t !! q = Some (File d) ->
  walk (delete q t) cur names = Some r -> walk t cur names = Some r.
Proof.
  induction names as [|c names IH]; intros cur r Hq; cbn [walk]; [auto|].
  rewrite (is_dir_delete t q d cur Hq).
  destruct (negb (is_dir t cur)); [auto|].
  destruct (str_eqb c [] || str_eqb c "."); [apply IH, Hq|].
  destruct (str_eqb c ".."); [apply IH, Hq|].
  destruct (delete q t !! (cur ++ [c])) as [n|] eqn:E; [|discriminate].
  apply lookup_delete_Some in E as [_ E]. rewrite E. apply IH, Hq.
Qed.

Lemma resolve_delete cwd t q d p r :
  t !! q = Some (File d) ->
  resolve cwd (delete q t) p = Some r -> resolve cwd t p = Some r.
Proof.
  unfold resolve. destruct p; [discriminate|]. apply walk_delete.
Qed.

Lemma read_file_delete cwd t q d p data :
  t !! q = Some (File d) ->
  read_file cwd (delete q t) p = Some data -> read_file cwd t p = Some data.
Proof.
  intros Hq. unfold read_file.
  destruct (resolve cwd (delete q t) p) as [r|] eqn:E; [|discriminate].
  rewrite (resolve_delete _ _ _ _ _ _ Hq E).
  destruct (node_at (delete q t) r) as [n|] eqn:En; [|discriminate].
  rewrite (node_at_delete _ _ _ _ En). auto.
Qed.

(** Once [delayed_delete] has run there is no regular file at its path,
    whatever the tree was. *)
Lemma delayed_delete_gone cwd p t : read_file cwd (delayed_delete cwd p t) p = None.
Proof.
  unfold delayed_delete, os_remove.
  destruct (resolve cwd t p) as [q|] eqn:E.
  - destruct (node_at t q) as [[d|]|] eqn:En.
    + apply node_at_file in En.
      destruct (read_file cwd (delete q t) p) as [data|] eqn:R; [|reflexivity].
      exfalso. unfold read_file in R.
      destruct (resolve cwd (delete q t) p) as [r|] eqn:E'; [|discriminate].
      apply (resolve_delete _ _ _ _ _ _ En) in E'.
      assert (r = q) by congruence. subst r.
      destruct q as [|c q]; [discriminate|].
      simpl in R. rewrite lookup_delete_eq in R. discriminate.
    + unfold read_file. rewrite E, En. reflexivity.
    + unfold read_file. rewrite E, En. reflexivity.
  - unfold read_file. rewrite E. reflexivity.
Qed.

Lemma delayed_delete_keeps_gone cwd q p t :
  read_file cwd t p = None -> read_file cwd (delayed_delete cwd q t) p = None.
Proof.
  intros H. unfold delayed_delete, os_remove.
  destruct (resolve cwd t q) as [r|]; [|exact H].
  destruct (node_at t r) as [[d|]|] eqn:En; try exact H.
  apply node_at_file in En.
  destruct (read_file cwd (delete r t) p) as [data|] eqn:R; [|reflexivity].
  apply (read_file_delete _ _ _ _ _ _ En) in R. congruence.
Qed.

(** A failed removal changes nothing and is not reported. *)
Lemma delayed_delete_swallows cwd p t e :
  os_remove cwd t p = Raise e -> delayed_delete cwd p t = t.
Proof. unfold delayed_delete. intros ->. reflexivity. Qed.

Lemma wake_keeps_gone cwd now l : forall t p,
  read_file cwd t p = None -> read_file cwd (fst (wake cwd now l t)) p = None.
Proof.
  induction l as [|[w q] l IH]; intros t p H; simpl; [exact H|].
  destruct (w <=? now).
  - apply IH, delayed_delete_keeps_gone, H.
  - specialize (IH t p H). destruct (wake cwd now l t). exact IH.
Qed.

Lemma wake_removes cwd now l : forall t w p,
  In (w, p) l -> w <= now -> read_file cwd (fst (wake cwd now l t)) p = None.
Proof.
  induction l as [|[w' q] l IH]; intros t w p Hin Hw; simpl; [destruct Hin|].
  destruct Hin as [E | Hin].
  - inversion E; subst. apply Z.leb_le in Hw. rewrite Hw.
    apply wake_keeps_gone, delayed_delete_gone.
  - destruct (w' <=? now).
    + eapply IH; eassumption.
    + specialize (IH t w p Hin Hw). destruct (wake cwd now l t). exact IH.
Qed.

Lemma wake_too_early cwd now l t :
  Forall (fun s => now < fst s) l -> wake cwd now l t = (t, l).
Proof.
  induction 1 as [|[w p] l Hw Hl IH]; simpl; [reflexivity|].
  simpl in Hw. apply Z.leb_gt in Hw. rewrite Hw, IH. reflexivity.
Qed.

(** Whatever the name and whatever the framework answers, a joined path
    that exists gets its [delayed_delete]. *)
Lemma web_fetch_schedules send cwd filename h :
  os_path_exists cwd (files h) (path_join (WEB_DOWNLOADER_DIR cwd) filename) = true ->
  sleepers (snd (web_fetch send cwd filename h))
    = sleepers h ++ [(clock h + 10, path_join (WEB_DOWNLOADER_DIR cwd) filename)].
Proof. intros H. unfold web_fetch. rewrite H. reflexivity. Qed.

(** * The command builder *)

Lemma speed_profile_items (speed : str) (v : gmap str str) :
  SPEED_MAP !! speed = Some v ->
  exists concurrent chunk,
    getitem v "concurrent" = Ok concurrent /\ getitem v "chunk" = Ok chunk.
Proof.
  unfold SPEED_MAP. intros H. apply elem_of_list_to_map_2 in H.
  repeat (apply elem_of_cons in H as [H | H];
          [inversion H; subst; eexists; eexists; split; vm_compute; reflexivity|]).
  apply elem_of_nil in H. destruct H.
Qed.

Lemma turbo_profile : getitem SPEED_MAP "Turbo" = Ok (speed_profile "40" "10M").
Proof. vm_compute. reflexivity. Qed.

Lemma turbo_items :
  getitem (speed_profile "40" "10M") "concurrent" = Ok ("40" : str) /\
  getitem (speed_profile "40" "10M") "chunk" = Ok ("10M" : str).
Proof. split; vm_compute; reflexivity. Qed.

(** The argument list, whatever the labels are. *)
Lemma build_web_cmd_closed (cwd : str) (cookie_file : bool)
    (url quality fmt cookies speed : str) :
  exists concurrent chunk,
    build_web_cmd cwd cookie_file url quality fmt cookies speed =
      Ok ((if str_eqb fmt "MP4 - Video"
           then ["yt-dlp" : str; "-f" : str;
                 "best[height<=" ++ default ("480" : str) (QUALITY_MAP !! quality)
                   ++ "][ext=mp4]"]
           else ["yt-dlp" : str; "-f" : str; "bestaudio[ext=m4a]" : str])
          ++ (if str_eqb cookies "cookies.txt" && cookie_file
              then ["--cookies" : str; "cookies.txt" : str] else [])
          ++ ["--no-playlist" : str]
          ++ ["--concurrent-fragments" : str; concurrent;
              "--http-chunk-size" : str; chunk;
              "--retries" : str; "3" : str; "--fragment-retries" : str; "3" : str;
              "--newline" : str]
          ++ ["-o" : str; path_join (WEB_DOWNLOADER_DIR cwd) "%(title)s.%(ext)s";
              strip url]) /\
    (SPEED_MAP !! speed = None -> concurrent = ("40" : str) /\ chunk = ("10M" : str)) /\
    (forall v, SPEED_MAP !! speed = Some v ->
       v !! ("concurrent" : str) = Some concurrent /\ v !! ("chunk" : str) = Some chunk).
Proof.
  unfold build_web_cmd. rewrite turbo_profile. unfold dict_get.
  destruct (SPEED_MAP !! speed) as [v|] eqn:E.
  - destruct (speed_profile_items _ _ E) as (c & ch & Hc & Hch).
    cbn [default from_option id]. rewrite Hc, Hch. exists c, ch.
    split; [reflexivity|]. split; [discriminate|].
    intros v' Hv. inversion Hv; subst v'.
    unfold getitem in Hc, Hch.
    destruct (v !! ("concurrent" : str)); [|discriminate].
    destruct (v !! ("chunk" : str)); [|discriminate].
    inversion Hc; inversion Hch; subst. auto.
  - cbn [default from_option id]. destruct turbo_items as [-> ->].
    exists ("40" : str), ("10M" : str). split; [reflexivity|]. split; [auto | discriminate].
Qed.

(** * The registry *)

Lemma web_download_leaves_registry cwd ck form uuid_hex sv :
  web_jobs (snd (web_download cwd ck form uuid_hex sv)) = web_jobs sv.
Proof.
  unfold web_download.
  destruct (form !! ("url" : str)) as [[|a u]|]; try reflexivity.
  destruct (build_web_cmd _ _ _ _ _ _ _); reflexivity.
Qed.

(** * The claims *)

(** C1 (the code differs): [web_download] answers with the job id while
    the registry is as it was; the record is inserted by the first
    statement of the launched thread.  On the sample request a status
    query that arrives before the thread has begun finds no job, and one
    that arrives after finds the initial record. *)
Theorem submit_answers_before_registration :
  let r := web_download "/srv/app" false sample_form sample_uuid
             {| web_jobs := ∅; launched := [] |} in
  fst r = DownloadOk "0123456789ab" /\
  web_jobs (snd r) = ∅ /\
  web_status (Some ("0123456789ab" : str)) (web_jobs (snd r))
    = StatusError "Invalid job" 400 /\
  web_status (Some ("0123456789ab" : str)) (web_jobs (thread_begins (snd r)))
    = StatusOk (status initial_job) false None None.
Proof. vm_compute. repeat split; reflexivity. Qed.

(** C2 (the code differs): a file name that leaves the managed directory
    through [..] gets a not-found answer and no content, yet the handler
    has already started a [delayed_delete] on the joined path, which
    resolves outside the managed directory; ten time units later that
    file is gone. *)
Theorem fetch_parent_path_deletes_outside :
  let cwd : str := "/srv/app" in
  let full_path : str := "/srv/app/web_downloader/../app.py" in
  let r := web_fetch (send_from_directory cwd) cwd "../app.py" sample_host in
  fst r = Aborted404 /\
  sleepers (snd r) = [(110, full_path)] /\
  resolve cwd sample_tree full_path = Some ["srv" : str; "app" : str; "app.py" : str] /\
  ~ inside_managed_dir cwd sample_tree full_path /\
  read_file cwd (files (snd r)) "/srv/app/app.py"
    = Some [Byte.x69; Byte.x6d; Byte.x70] /\
  read_file cwd (files (advance cwd 10 (snd r))) "/srv/app/app.py" = None.
Proof.
  cbv zeta. repeat split; try (vm_compute; reflexivity).
  intros (d & q & Hd & Hq & rest & Hne & ->).
  vm_compute in Hd. inversion Hd; subst d.
  vm_compute in Hq. inversion Hq.
Qed.

(** C3 (the code differs): the process is started, announces no
    destination (the file was there already) and exits with code zero.
    While the fallback looks for the newest file, a file of the listing
    is removed, as the deletion that follows a fetch does, and reading
    its time stamp raises.  The job ends done, with the message of the
    exception as its error and under no file name.  With the same output
    and a scan that goes through, it ends without error under the newest
    file. *)
Theorem runner_exit_zero_with_error :
  let out : list str :=
    ["[download] /srv/app/web_downloader/clip.mp4 has already been downloaded" : str;
     "[download] 100% of 3.00MiB" : str] in
  let gone : str :=
    "[Errno 2] No such file or directory: '/srv/app/web_downloader/old.mp4'" in
  let clip := {| d_name := "clip.mp4"; d_isfile := true; d_mtime := Ok 1700000000 |} in
  let old := {| d_name := "old.mp4"; d_isfile := true; d_mtime := Raise gone |} in
  let j := run_job (Spawned out (Exits 0)) (Ok [clip; old]) in
  let j' := run_job (Spawned out (Exits 0)) (Ok [clip]) in
  last_announced out = None /\
  done j = true /\ error j = Some gone /\ filename j = None /\
  done j' = true /\ error j' = None /\ filename j' = Some ("clip.mp4" : str).
Proof. vm_compute. repeat split; reflexivity. Qed.

(** The outcomes of the runner when the fallback scan does not raise:
    exit code zero gives a job that is done; it is without error and
    under the announced base name when that name is not empty, and
    without error under the first name of the scan (if any) when no name
    was captured and the scan completes.  Another exit code gives a job
    that is not done, with the error [yt-dlp exited <code>].  An
    exception at the start of the process or while its output is read
    gives a job that is not done, with the message as its error. *)
Lemma runner_outcomes (out : list str) (ls : result (list dirent)) :
  done (run_job (Spawned out (Exits 0)) ls) = true /\
  (forall f, last_announced out = Some f -> f <> [] ->
     error (run_job (Spawned out (Exits 0)) ls) = None /\
     filename (run_job (Spawned out (Exits 0)) ls) = Some f) /\
  (forall names, falsy (last_announced out) = true -> newest_first ls = Ok names ->
     error (run_job (Spawned out (Exits 0)) ls) = None /\
     filename (run_job (Spawned out (Exits 0)) ls)
       = match names with f :: _ => Some f | [] => last_announced out end) /\
  (forall r, r <> 0 ->
     done (run_job (Spawned out (Exits r)) ls) = false /\
     error (run_job (Spawned out (Exits r)) ls) = Some ("yt-dlp exited " ++ show_Z r) /\
     filename (run_job (Spawned out (Exits r)) ls) = last_announced out) /\
  (forall e,
     done (run_job (Spawned out (ReadFails e)) ls) = false /\
     error (run_job (Spawned out (ReadFails e)) ls) = Some e) /\
  (forall e,
     done (run_job (SpawnFails e) ls) = false /\
     error (run_job (SpawnFails e) ls) = Some e).
Proof.
  destruct (supervise_lines out (Exits 0) ls) as (j & _ & Hd & He & Hf & E0).
  change (0 =? 0) with true in E0. cbv iota in E0.
  split; [|split; [|split; [|split; [|split]]]].
  - unfold run_job. rewrite E0.
    destruct (falsy (filename j)); [|reflexivity].
    destruct (newest_first ls) as [[|f fs]|e]; reflexivity.
  - intros f Hl Hne. unfold run_job. rewrite E0, Hf, Hl.
    destruct f as [|a f]; [congruence|]. cbn [falsy]. simpl. rewrite He, Hf, Hl. auto.
  - intros names Hfalsy Hn. unfold run_job. rewrite E0, Hf, Hfalsy, Hn.
    destruct names as [|f fs]; simpl; rewrite He; auto.
  - intros r Hr.
    destruct (supervise_lines out (Exits r) ls) as (j' & Ej' & Hd' & He' & Hf' & E).
    apply Z.eqb_neq in Hr. rewrite Hr in E.
    unfold run_job. rewrite E. simpl. auto.
  - intros e.
    destruct (supervise_lines out (ReadFails e) ls) as (j' & Ej' & Hd' & He' & Hf' & E).
    unfold run_job. rewrite E. simpl. auto.
  - intros e. unfold run_job. simpl. auto.
Qed.

Lemma runner_outcomes_witness :
  let out : list str := ["[download] Destination: /srv/app/web_downloader/clip.mp4" : str] in
  let ls : result (list dirent) := Raise "[Errno 2] No such file or directory" in
  (last_announced out = Some ("clip.mp4" : str) /\ ("clip.mp4" : str) <> [] /\
   error (run_job (Spawned out (Exits 0)) ls) = None /\
   filename (run_job (Spawned out (Exits 0)) ls) = Some ("clip.mp4" : str)) /\
  (falsy (last_announced []) = true /\
   newest_first (Ok []) = Ok [] /\
   error (run_job (Spawned [] (Exits 0)) (Ok [])) = None) /\
  (1 <> 0 /\
   error (run_job (Spawned out (Exits 1)) ls) = Some ("yt-dlp exited " ++ show_Z 1)).
Proof.
  cbv zeta.
  split; [|split].
  - assert (H1 : last_announced
                   ["[download] Destination: /srv/app/web_downloader/clip.mp4" : str]
                 = Some ("clip.mp4" : str)) by (vm_compute; reflexivity).
    assert (H2 : ("clip.mp4" : str) <> []) by discriminate.
    split; [exact H1|]. split; [exact H2|].
    exact (proj1 (proj2 (runner_outcomes _ (Raise "[Errno 2] No such file or directory")))
             _ H1 H2).
  - assert (H1 : falsy (last_announced []) = true) by reflexivity.
    assert (H2 : newest_first (Ok []) = Ok []) by reflexivity.
    split; [exact H1|]. split; [exact H2|].
    exact (proj1 (proj1 (proj2 (proj2 (runner_outcomes [] (Ok [])))) [] H1 H2)).
  - assert (H1 : 1 <> 0) by lia.
    split; [exact H1|].
    exact (proj1 (proj2 (proj1 (proj2 (proj2 (proj2
             (runner_outcomes _ (Raise "[Errno 2] No such file or directory")))))
             1 H1))).
Defined.

(** C4 (the code differs): the exit code is zero, no file name was
    captured, and a file of the listing is gone when its time stamp is
    read; [done] has been set by then, the exception sets [error], and
    the job ends done and with an error. *)
Theorem runner_done_with_error :
  let gone : str := "[Errno 2] No such file or directory: 'clip.mp4'" in
  let ls := Ok [ {| d_name := "clip.mp4"; d_isfile := true; d_mtime := Raise gone |} ] in
  let j := run_job (Spawned ["[download] 100% of 3.00MiB in 00:01" : str] (Exits 0)) ls in
  done j = true /\ error j = Some gone.
Proof. vm_compute. split; reflexivity. Qed.

(** C5: [build_web_cmd] always returns an argument list, the same for
    the same inputs; the list is the one written out below.  A quality
    label that is not a key of [QUALITY_MAP] gives the height 480, and a
    speed label that is not a key of [SPEED_MAP] gives the default
    profile, that of [Turbo]: 40 fragments and chunks of 10M. *)
Theorem build_web_cmd_spec (cwd : str) (cookie_file : bool)
    (url quality fmt cookies speed : str) :
  (exists concurrent chunk,
     build_web_cmd cwd cookie_file url quality fmt cookies speed =
       Ok ((if str_eqb fmt "MP4 - Video"
            then ["yt-dlp" : str; "-f" : str;
                  "best[height<=" ++ default ("480" : str) (QUALITY_MAP !! quality)
                    ++ "][ext=mp4]"]
            else ["yt-dlp" : str; "-f" : str; "bestaudio[ext=m4a]" : str])
           ++ (if str_eqb cookies "cookies.txt" && cookie_file
               then ["--cookies" : str; "cookies.txt" : str] else [])
           ++ ["--no-playlist" : str]
           ++ ["--concurrent-fragments" : str; concurrent;
               "--http-chunk-size" : str; chunk;
               "--retries" : str; "3" : str; "--fragment-retries" : str; "3" : str;
               "--newline" : str]
           ++ ["-o" : str; path_join (WEB_DOWNLOADER_DIR cwd) "%(title)s.%(ext)s";
               strip url]) /\
     (SPEED_MAP !! speed = None -> concurrent = ("40" : str) /\ chunk = ("10M" : str)) /\
     (forall v, SPEED_MAP !! speed = Some v ->
        v !! ("concurrent" : str) = Some concurrent /\ v !! ("chunk" : str) = Some chunk)) /\
  (forall cookie_file' url' quality' fmt' cookies' speed',
     cookie_file' = cookie_file -> url' = url -> quality' = quality -> fmt' = fmt ->
     cookies' = cookies -> speed' = speed ->
     build_web_cmd cwd cookie_file' url' quality' fmt' cookies' speed'
       = build_web_cmd cwd cookie_file url quality fmt cookies speed) /\
  (QUALITY_MAP !! quality = None ->
     dict_get QUALITY_MAP quality ("480" : str) = ("480" : str) /\
     build_web_cmd cwd cookie_file url quality fmt cookies speed
       = build_web_cmd cwd cookie_file url "480p" fmt cookies speed) /\
  (SPEED_MAP !! speed = None ->
     build_web_cmd cwd cookie_file url quality fmt cookies speed
       = build_web_cmd cwd cookie_file url quality fmt cookies "Turbo").
Proof.
  split; [apply build_web_cmd_closed|]. split; [|split].
  - intros ? ? ? ? ? ? -> -> -> -> -> ->. reflexivity.
  - intros Hq. unfold build_web_cmd, dict_get. rewrite Hq. split; reflexivity.
  - intros Hs. unfold build_web_cmd, dict_get. rewrite Hs, turbo_profile. reflexivity.
Qed.

Lemma build_web_cmd_spec_witness :
  QUALITY_MAP !! ("4320p" : str) = None /\
  SPEED_MAP !! ("Ludicrous" : str) = None /\
  build_web_cmd "/srv/app" false "https://example.com/watch?v=1"
      "4320p" "MP4 - Video" "none" "Ludicrous"
    = build_web_cmd "/srv/app" false "https://example.com/watch?v=1"
        "480p" "MP4 - Video" "none" "Turbo".
Proof.
  assert (Hq : QUALITY_MAP !! ("4320p" : str) = None) by (vm_compute; reflexivity).
  assert (Hs : SPEED_MAP !! ("Ludicrous" : str) = None) by (vm_compute; reflexivity).
  split; [exact Hq|]. split; [exact Hs|].
  destruct (build_web_cmd_spec "/srv/app" false "https://example.com/watch?v=1"
              "4320p" "MP4 - Video" "none" "Ludicrous") as (_ & _ & Hquality & _).
  destruct (build_web_cmd_spec "/srv/app" false "https://example.com/watch?v=1"
              "480p" "MP4 - Video" "none" "Ludicrous") as (_ & _ & _ & Hspeed).
  rewrite (proj2 (Hquality Hq)). exact (Hspeed Hs).
Defined.

(** C6: when the line holds a progress report of the full form, the
    parser returns the groups of one such report: the leftmost; of those
    that begin there, the one whose rate comes first; of those, the one
    whose ETA comes first.  This fixes the percentage text, the rate and
    the ETA.  The rate and the ETA, which has the form MM:SS, are
    returned as they stand; the percentage is the [float] of its text:
    the double nearest to the number the text denotes, which is that
    number whenever it is a double and is within [2^-44] of it always.
    When the line holds no report of the full form but one of the
    reduced form, the parser returns the percentage and the rate of the
    leftmost one, of those that begin there the one whose rate comes
    first, and no ETA. *)
Theorem parse_progress_line_matches (line : str) :
  (full_line line ->
   exists pre num x w rate y w' eta' post i f q,
     full_parts line pre num x w rate y w' eta' post /\
     (forall pre1 num1 x1 w1 rate1 y1 w1' eta1 post1,
        full_parts line pre1 num1 x1 w1 rate1 y1 w1' eta1 post1 ->
        (length pre <= length pre1)%nat) /\
     (forall num1 x1 w1 rate1 y1 w1' eta1 post1,
        full_parts line pre num1 x1 w1 rate1 y1 w1' eta1 post1 ->
        num1 = num /\ (length x <= length x1)%nat /\
        (length x1 = length x ->
         rate1 = rate /\ (length y <= length y1)%nat /\
         (length y1 = length y -> eta1 = eta'))) /\
     pct_text i f num /\ float_of (pct_number i f) q /\
     parse_progress_line line = Ok (Some (q, rate, Some eta'))) /\
  (~ full_line line -> reduced_line line ->
   exists pre num x w rate post i f q,
     reduced_parts line pre num x w rate post /\
     (forall pre1 num1 x1 w1 rate1 post1,
        reduced_parts line pre1 num1 x1 w1 rate1 post1 ->
        (length pre <= length pre1)%nat) /\
     (forall num1 x1 w1 rate1 post1,
        reduced_parts line pre num1 x1 w1 rate1 post1 ->
        num1 = num /\ (length x <= length x1)%nat /\
        (length x1 = length x -> rate1 = rate)) /\
     pct_text i f num /\ float_of (pct_number i f) q /\
     parse_progress_line line = Ok (Some (q, rate, None))).
Proof.
  split.
  - intros H.
    destruct (parse_full_first line H)
      as (pre & num & x & w & rate & y & w' & eta' & post & i & f & P & Hleft & Hfirst & Hn & E).
    exists pre, num, x, w, rate, y, w', eta', post, i, f, (nearest_double (pct_number i f)).
    split; [exact P|]. split; [|split; [exact Hfirst|]].
    + intros pre1 num1 x1 w1 rate1 y1 w1' eta1 post1 P1.
      destruct (full_parts_shape _ _ _ _ _ _ _ _ _ _ P1) as [E1 S1].
      exact (Hleft _ _ _ _ _ _ E1 S1).
    + split; [exact Hn|]. split; [exact (pct_float_of _ _ _ Hn) | exact E].
  - intros Hnf H.
    destruct (parse_reduced_first line Hnf H)
      as (pre & num & x & w & rate & post & i & f & P & Hleft & Hfirst & Hn & E).
    exists pre, num, x, w, rate, post, i, f, (nearest_double (pct_number i f)).
    split; [exact P|]. split; [|split; [exact Hfirst|]].
    + intros pre1 num1 x1 w1 rate1 post1 P1.
      destruct (reduced_parts_shape _ _ _ _ _ _ _ P1) as [E1 S1].
      exact (Hleft _ _ _ _ _ E1 S1).
    + split; [exact Hn|]. split; [exact (pct_float_of _ _ _ Hn) | exact E].
Qed.

Lemma sample_full_line : full_line progress_full.
Proof.
  apply full_line_has_match.
  apply (re_search_has_match _ _
           [(3%nat, "00:12" : str); (2%nat, "1.23MiB/s" : str); (1%nat, "12.3" : str)]).
  vm_compute. reflexivity.
Qed.

Lemma sample_reduced_line : ~ full_line progress_reduced /\ reduced_line progress_reduced.
Proof.
  split.
  - intros H. apply full_line_has_match in H. revert H.
    apply re_search_no_match. vm_compute. reflexivity.
  - apply reduced_line_has_match.
    apply (re_search_has_match _ _ [(2%nat, "2.00MiB/s" : str); (1%nat, "100" : str)]).
    vm_compute. reflexivity.
Qed.


Lemma parse_progress_line_matches_witness :
  (full_line progress_full /\
   exists num rate eta' q,
     parse_progress_line progress_full = Ok (Some (q, rate, Some eta')) /\
     eta_text eta' /\ rate_text rate /\
     exists i f, pct_text i f num /\ float_of (pct_number i f) q) /\
  (~ full_line progress_reduced /\ reduced_line progress_reduced /\
   exists rate q, parse_progress_line progress_reduced = Ok (Some (q, rate, None))).
Proof.
  split.
  - split; [exact sample_full_line|].
    destruct (proj1 (parse_progress_line_matches progress_full) sample_full_line)
      as (pre & num & x & w & rate & y & w' & eta' & post & i & f & q
          & P & _ & _ & Hp & Hq & E).
    exists num, rate, eta', q. split; [exact E|].
    destruct P as ((_ & _ & _ & _ & Hrate) & _ & _ & Heta).
    split; [exact Heta|]. split; [exact Hrate|]. exists i, f. split; assumption.
  - destruct sample_reduced_line as [Hn Hr].
    split; [exact Hn|]. split; [exact Hr|].
    destruct (proj2 (parse_progress_line_matches progress_reduced) Hn Hr)
      as (pre & num & x & w & rate & post & i & f & q & _ & _ & _ & _ & _ & E).
    exists rate, q. exact E.
Defined.



(** On the sample host, ten time units after a fetch of an existing path
    the one deletion it started has run. *)
Lemma sample_fetch_expiry (send : tree -> str -> str -> fetch_response) (full_path filename : str) :
  path_join (WEB_DOWNLOADER_DIR "/srv/app") filename = full_path ->
  os_path_exists "/srv/app" sample_tree full_path = true ->
  files (advance "/srv/app" 10 (snd (web_fetch send "/srv/app" filename sample_host)))
  = delayed_delete "/srv/app" full_path sample_tree.
Proof.
  intros Ej Hex. unfold web_fetch. rewrite Ej. cbn [files sample_host].
  rewrite Hex. cbn [negb snd]. unfold advance. cbn [files clock sleepers app wake].
  change (100 + 10 <=? 100 + 10) with true. cbv iota. reflexivity.
Qed.

(** C8 (the code differs): a name that is no file of the managed
    directory gets a not-found answer, and yet a deletion is started
    for it.  The name [../app.py] leads out of the directory, to a file
    that exists; the name [.] is the directory itself.  For both the
    joined path exists, so [delayed_delete] is started before the
    framework refuses the name; the first deletion removes the file
    outside ten time units later, the second fails and removes nothing.
    A name whose joined path does not exist is answered by the handler
    itself, and nothing is started. *)
Theorem fetch_not_found_starts_deletion :
  let cwd : str := "/srv/app" in
  let send := send_from_directory cwd in
  let outside := web_fetch send cwd "../app.py" sample_host in
  let itself := web_fetch send cwd "." sample_host in
  let missing := web_fetch send cwd "none.mp4" sample_host in
  ~ inside_managed_dir cwd sample_tree "/srv/app/web_downloader/../app.py" /\
  fst outside = Aborted404 /\
  sleepers (snd outside) = [(110, "/srv/app/web_downloader/../app.py" : str)] /\
  files (advance cwd 10 (snd outside))
    = delete ["srv" : str; "app" : str; "app.py" : str] sample_tree /\
  ~ inside_managed_dir cwd sample_tree "/srv/app/web_downloader/." /\
  fst itself = Aborted404 /\
  sleepers (snd itself) = [(110, "/srv/app/web_downloader/." : str)] /\
  files (advance cwd 10 (snd itself)) = sample_tree /\
  missing = (FileNotFound, sample_host).
Proof.
  cbv zeta.
  assert (Hout : forall p q,
            resolve "/srv/app" sample_tree "/srv/app/web_downloader"
              = Some ["srv" : str; "app" : str; "web_downloader" : str] ->
            resolve "/srv/app" sample_tree p = Some q ->
            (forall rest, rest <> [] ->
               q <> ["srv" : str; "app" : str; "web_downloader" : str] ++ rest) ->
            ~ inside_managed_dir "/srv/app" sample_tree p).
  { intros p q Hd Hq Hno (d & q' & Hd' & Hq' & rest & Hne & E).
    change (WEB_DOWNLOADER_DIR "/srv/app") with ("/srv/app/web_downloader" : str) in Hd'.
    rewrite Hd in Hd'. rewrite Hq in Hq'. inversion Hd'; inversion Hq'; subst.
    exact (Hno rest Hne eq_refl). }
  split; [|split; [|split; [|split; [|split; [|split; [|split; [|split]]]]]]].
  - apply (Hout _ ["srv" : str; "app" : str; "app.py" : str]);
      [vm_compute; reflexivity | vm_compute; reflexivity |].
    intros rest Hne E. destruct rest; [congruence | discriminate E].
  - vm_compute. reflexivity.
  - vm_compute. reflexivity.
  - rewrite (sample_fetch_expiry _ "/srv/app/web_downloader/../app.py")
      by (vm_compute; reflexivity).
    unfold delayed_delete, os_remove.
    replace (resolve "/srv/app" sample_tree "/srv/app/web_downloader/../app.py")
      with (Some ["srv" : str; "app" : str; "app.py" : str]) by (vm_compute; reflexivity).
    replace (node_at sample_tree ["srv" : str; "app" : str; "app.py" : str])
      with (Some (File [Byte.x69; Byte.x6d; Byte.x70])) by (vm_compute; reflexivity).
    reflexivity.
  - apply (Hout _ ["srv" : str; "app" : str; "web_downloader" : str]);
      [vm_compute; reflexivity | vm_compute; reflexivity |].
    intros rest Hne E. destruct rest; [congruence|].
    apply (f_equal (@length _)) in E. simpl in E. lia.
  - vm_compute. reflexivity.
  - vm_compute. reflexivity.
  - rewrite (sample_fetch_expiry _ "/srv/app/web_downloader/.")
      by (vm_compute; reflexivity).
    apply (delayed_delete_swallows _ _ _ "Is a directory"). vm_compute. reflexivity.
  - unfold web_fetch.
    replace (os_path_exists "/srv/app" (files sample_host)
               (path_join (WEB_DOWNLOADER_DIR "/srv/app") "none.mp4"))
      with false by (vm_compute; reflexivity).
    reflexivity.
Qed.

(** For a plain name the handler does what is asked of it: when the
    joined path does not exist, [web_fetch] answers not-found and starts
    no deletion.  When the name is a plain name of a regular file of the
    managed directory, the answer is the whole content of the file; a
    [delayed_delete] of the path is started with a sleep of 10 time
    units, whatever the framework does with the transfer; it leaves the
    tree alone while fewer than 10 units have passed, and once 10 have
    passed no regular file is at the path.  A removal that fails changes
    nothing and reports nothing. *)
Lemma web_fetch_spec (cwd filename : str) (h : host) :
  let full_path := path_join (WEB_DOWNLOADER_DIR cwd) filename in
  let h' := {| files := files h; clock := clock h;
               sleepers := sleepers h ++ [(clock h + 10, full_path)] |} in
  (os_path_exists cwd (files h) full_path = false ->
   forall send, web_fetch send cwd filename h = (FileNotFound, h)) /\
  (forall data,
     plain_name filename -> read_file cwd (files h) full_path = Some data ->
     web_fetch (send_from_directory cwd) cwd filename h = (Attachment data, h') /\
     (forall send, snd (web_fetch send cwd filename h) = h') /\
     (forall dt, 10 <= dt -> read_file cwd (files (advance cwd dt h')) full_path = None) /\
     (forall dt, dt < 10 -> sleepers h = [] -> files (advance cwd dt h') = files h)) /\
  (forall p t e, os_remove cwd t p = Raise e -> delayed_delete cwd p t = t).
Proof.
  cbv zeta. split; [|split].
  - intros Hex send. unfold web_fetch. rewrite Hex. reflexivity.
  - intros data Hp Hr.
    pose proof (read_file_exists _ _ _ _ Hr) as Hex.
    assert (Hsnd : forall send,
              snd (web_fetch send cwd filename h) =
              {| files := files h; clock := clock h;
                 sleepers := sleepers h
                   ++ [(clock h + 10, path_join (WEB_DOWNLOADER_DIR cwd) filename)] |}).
    { intros send. unfold web_fetch. rewrite Hex. reflexivity. }
    split; [|split; [exact Hsnd|split]].
    + unfold web_fetch. rewrite Hex. cbn [negb files].
      unfold send_from_directory. rewrite (safe_join_plain cwd filename Hp), Hr.
      reflexivity.
    + intros dt Hdt. unfold advance. cbn [files clock sleepers].
      pose proof (wake_removes cwd (clock h + dt)
                    (sleepers h ++ [(clock h + 10, path_join (WEB_DOWNLOADER_DIR cwd) filename)])
                    (files h) (clock h + 10)
                    (path_join (WEB_DOWNLOADER_DIR cwd) filename)) as Hw.
      destruct (wake cwd (clock h + dt) _ (files h)) as [t r].
      apply Hw; [apply in_or_app; right; left; reflexivity | lia].
    + intros dt Hdt Hnone. unfold advance. cbn [files clock sleepers].
      rewrite Hnone. cbn [app].
      rewrite wake_too_early; [reflexivity|].
      constructor; [simpl; lia | constructor].
  - intros p t e. apply delayed_delete_swallows.
Qed.

Lemma sample_plain_name : plain_name ("clip.mp4" : str).
Proof. repeat split; try discriminate. Qed.

Lemma web_fetch_spec_witness :
  (os_path_exists "/srv/app" sample_tree "/srv/app/web_downloader/none.mp4" = false /\
   web_fetch (send_from_directory "/srv/app") "/srv/app" "none.mp4" sample_host
     = (FileNotFound, sample_host)) /\
  (plain_name ("clip.mp4" : str) /\
   read_file "/srv/app" sample_tree "/srv/app/web_downloader/clip.mp4"
     = Some [Byte.x00; Byte.x01; Byte.x02; Byte.x03] /\
   fst (web_fetch (send_from_directory "/srv/app") "/srv/app" "clip.mp4" sample_host)
     = Attachment [Byte.x00; Byte.x01; Byte.x02; Byte.x03]).
Proof.
  split.
  - assert (H : os_path_exists "/srv/app" (files sample_host)
                  (path_join (WEB_DOWNLOADER_DIR "/srv/app") "none.mp4") = false)
      by (vm_compute; reflexivity).
    split; [exact H|].
    exact (proj1 (web_fetch_spec "/srv/app" "none.mp4" sample_host) H
             (send_from_directory "/srv/app")).
  - assert (H : read_file "/srv/app" (files sample_host)
                  (path_join (WEB_DOWNLOADER_DIR "/srv/app") "clip.mp4")
                = Some [Byte.x00; Byte.x01; Byte.x02; Byte.x03])
      by (vm_compute; reflexivity).
    split; [exact sample_plain_name|]. split; [exact H|].
    rewrite (proj1 (proj1 (proj2 (web_fetch_spec "/srv/app" "clip.mp4" sample_host))
                      _ sample_plain_name H)).
    reflexivity.
Defined.

(** C9: a line that announces a destination sets the file name of the
    job to the base name of the announced path: the part after its last
    slash, whatever the number of directories before.  An announcement
    is the token, one white space character and a path that is not
    empty; the line, stripped, holds no line feed, and the announced path
    is that of the first announcement, up to the end of the line. *)
Theorem destination_sets_basename (raw : str) (j : Job) :
  forallb is_dot (strip raw) = true ->
  (exists pre w path,
     strip raw = pre ++ "Destination:" ++ w :: path /\ is_space w = true /\ path <> []) ->
  exists pre w path j' dir,
    strip raw = pre ++ "Destination:" ++ w :: path /\ is_space w = true /\ path <> [] /\
    (forall pre' w' path',
       strip raw = pre' ++ "Destination:" ++ w' :: path' -> is_space w' = true ->
       path' <> [] -> (length pre <= length pre')%nat) /\
    on_line raw j = (Ok tt, j') /\
    filename j' = Some (basename path) /\
    path = dir ++ basename path /\
    forallb (fun a => negb (is_char "/" a)) (basename path) = true /\
    (dir = [] \/ exists dir', dir = dir' ++ "/").
Proof.
  intros Hdot Hex.
  destruct (first_destination _ Hdot Hex) as (pre & w & path & E & Hw & Hne & Hfirst).
  destruct (on_line_effect raw j) as (j' & Ej & _ & _ & _ & Hf & _).
  rewrite (announced_first_destination raw pre w path E Hw Hne Hdot Hfirst) in Hf.
  destruct (basename_spec path) as (dir & Hpath & Hbase & Hdir).
  exists pre, w, path, j', dir. auto 10.
Qed.

Lemma destination_sets_basename_witness :
  let raw : str := "[download] Destination: /srv/app/web_downloader/My Clip.mp4" in
  exists pre w path j',
    strip raw = pre ++ "Destination:" ++ w :: path /\
    on_line raw initial_job = (Ok tt, j') /\
    filename j' = Some (basename path).
Proof.
  cbv zeta.
  destruct (destination_sets_basename
              "[download] Destination: /srv/app/web_downloader/My Clip.mp4" initial_job)
    as (pre & w & path & j' & dir & E & _ & _ & _ & Ej & Hf & _).
  - vm_compute. reflexivity.
  - exists ("[download] " : str), " "%char, ("/srv/app/web_downloader/My Clip.mp4" : str).
    split; [vm_compute; reflexivity|]. split; [reflexivity | discriminate].
  - exists pre, w, path, j'. auto.
Defined.

(** C10: when the [job] parameter is missing, empty, or not a key of
    the registry, [web_status] gives one and the same answer, the error
    [Invalid job] with code 400, and no snapshot of a job. *)
Theorem web_status_invalid_job (arg : option str) (jobs : gmap str Job) :
  arg = None \/ arg = Some [] \/ (exists job_id, arg = Some job_id /\ jobs !! job_id = None) ->
  web_status arg jobs = StatusError "Invalid job" 400 /\
  forall st d f e, web_status arg jobs <> StatusOk st d f e.
Proof.
  intros H.
  assert (E : web_status arg jobs = StatusError "Invalid job" 400).
  { destruct H as [-> | [-> | (job_id & -> & Hnone)]]; try reflexivity.
    unfold web_status. rewrite Hnone. destruct job_id; reflexivity. }
  split; [exact E|]. intros st d f e. rewrite E. discriminate.
Qed.

Lemma web_status_invalid_job_witness :
  web_status None ∅ = StatusError "Invalid job" 400 /\
  web_status (Some []) ∅ = StatusError "Invalid job" 400 /\
  web_status (Some ("0123456789ab" : str)) ∅ = StatusError "Invalid job" 400.
Proof.
  split; [|split].
  - exact (proj1 (web_status_invalid_job None ∅ (or_introl eq_refl))).
  - exact (proj1 (web_status_invalid_job (Some []) ∅ (or_intror (or_introl eq_refl)))).
  - refine (proj1 (web_status_invalid_job (Some ("0123456789ab" : str)) ∅ _)).
    right. right. exists ("0123456789ab" : str). split; reflexivity.
Defined.

(** * Further properties of the code *)

(** * [strip] *)

Lemma lstrip_split (s : str) :
  exists l, s = l ++ lstrip s /\ forallb is_space l = true.
Proof.
  induction s as [|a s IH]; simpl.
  - exists []. auto.
  - destruct (is_space a) eqn:Ha.
    + destruct IH as (l & E & Hl). exists (a :: l). simpl. rewrite Ha, <- E. auto.
    + exists []. auto.
Qed.

Lemma lstrip_no_leading (s : str) : no_leading_space (lstrip s).
Proof.
  induction s as [|a s IH]; simpl; [exact I|].
  destruct (is_space a) eqn:Ha; [exact IH | exact Ha].
Qed.

Lemma lstrip_snoc (s : str) (a : ascii) :
  is_space a = false -> lstrip (s ++ [a]) = lstrip s ++ [a].
Proof.
  intros Ha. induction s as [|b s IH]; simpl.
  - rewrite Ha. reflexivity.
  - destruct (is_space b); [exact IH | reflexivity].
Qed.

Lemma lstrip_all_space (s : str) : forallb is_space s = true -> lstrip s = [].
Proof.
  induction s as [|a s IH]; simpl; intros H; [reflexivity|].
  apply andb_prop in H as [Ha Hs]. rewrite Ha. apply IH, Hs.
Qed.

Lemma rstrip_split (s : str) :
  exists r, s = rstrip s ++ r /\ forallb is_space r = true.
Proof.
  unfold rstrip. destruct (lstrip_split (rev s)) as (l & E & Hl).
  exists (rev l). split.
  - rewrite <- rev_app_distr, <- E, rev_involutive. reflexivity.
  - rewrite forallb_forall in Hl |- *. intros x Hx. apply Hl, in_rev, Hx.
Qed.

Lemma rstrip_no_trailing (s : str) : no_trailing_space (rstrip s).
Proof.
  unfold no_trailing_space, rstrip. rewrite rev_involutive. apply lstrip_no_leading.
Qed.

Lemma rstrip_keeps_head (s : str) : no_leading_space s -> no_leading_space (rstrip s).
Proof.
  destruct s as [|a s]; [intros _; exact I|]. simpl. intros Ha.
  unfold rstrip. simpl rev. rewrite (lstrip_snoc _ _ Ha), rev_app_distr. exact Ha.
Qed.

(** [strip] takes white space off both ends, and nothing else. *)
Lemma strip_split (s : str) :
  exists l r, s = l ++ strip s ++ r /\
    forallb is_space l = true /\ forallb is_space r = true.
Proof.
  unfold strip. destruct (lstrip_split s) as (l & E & Hl).
  destruct (rstrip_split (lstrip s)) as (r & E' & Hr).
  exists l, r. rewrite <- E', <- E. auto.
Qed.

Lemma strip_no_leading (s : str) : no_leading_space (strip s).
Proof. apply rstrip_keeps_head, lstrip_no_leading. Qed.

Lemma strip_no_trailing (s : str) : no_trailing_space (strip s).
Proof. apply rstrip_no_trailing. Qed.

Lemma strip_all_space (s : str) : forallb is_space s = true -> strip s = [].
Proof. intros H. unfold strip. rewrite (lstrip_all_space s H). reflexivity. Qed.

Lemma take_no_leading (n : nat) (s : str) : no_leading_space s -> no_leading_space (take n s).
Proof. destruct n, s; simpl; auto. Qed.

(** * The parser, case by case *)

Lemma full_line_dec (line : str) : full_line line \/ ~ full_line line.
Proof.
  destruct (re_search re_full line) as [c|] eqn:E.
  - left. apply full_line_has_match. eapply re_search_has_match, E.
  - right. rewrite full_line_has_match. apply re_search_no_match, E.
Qed.

Lemma reduced_line_dec (line : str) : reduced_line line \/ ~ reduced_line line.
Proof.
  destruct (re_search re_reduced line) as [c|] eqn:E.
  - left. apply reduced_line_has_match. eapply re_search_has_match, E.
  - right. rewrite reduced_line_has_match. apply re_search_no_match, E.
Qed.

Lemma reduced_shape_rate mid num rate : reduced_shape mid num rate -> rate_text rate.
Proof. intros (x & w & _ & _ & _ & _ & H). exact H. Qed.

Lemma full_shape_parts mid num rate eta' :
  full_shape mid num rate eta' -> rate_text rate /\ eta_text eta'.
Proof.
  intros (red & y & w & _ & Hred & _ & _ & Heta).
  split; [eapply reduced_shape_rate, Hred | exact Heta].
Qed.

(** The three cases of the parser. *)
Lemma parse_cases (line : str) :
  (full_line line /\
   exists num rate eta' i f q,
     pct_text i f num /\ float_of (pct_number i f) q /\ rate_text rate /\ eta_text eta' /\
     parse_progress_line line = Ok (Some (q, rate, Some eta'))) \/
  (~ full_line line /\ reduced_line line /\
   exists num rate i f q,
     pct_text i f num /\ float_of (pct_number i f) q /\ rate_text rate /\
     parse_progress_line line = Ok (Some (q, rate, None))) \/
  (~ full_line line /\ ~ reduced_line line /\ parse_progress_line line = Ok None).
Proof.
  destruct (full_line_dec line) as [Hf | Hf].
  - left. split; [exact Hf|].
    destruct (parse_full line Hf)
      as (pre & mid & post & num & rate & eta' & i & f & q & _ & Hs & _ & Hp & Hq & E).
    destruct (full_shape_parts _ _ _ _ Hs) as [Hr He].
    exists num, rate, eta', i, f, q. auto.
  - right. destruct (reduced_line_dec line) as [Hr | Hr].
    + left. split; [exact Hf|]. split; [exact Hr|].
      destruct (parse_reduced line Hf Hr)
        as (pre & mid & post & num & rate & i & f & q & _ & Hs & _ & Hp & Hq & E).
      exists num, rate, i, f, q.
      split; [exact Hp|]. split; [exact Hq|].
      split; [eapply reduced_shape_rate, Hs | exact E].
    + right. split; [exact Hf|]. split; [exact Hr|]. apply parse_none, Hr.
Qed.

(** X1: the parser raises for no line, and what it returns tells which
    form the line holds: nothing exactly when the line holds no progress
    report, an ETA exactly when it holds a report of the full form. *)
Theorem parse_progress_line_decides (line : str) :
  (forall msg, parse_progress_line line <> Raise msg) /\
  (parse_progress_line line = Ok None <-> ~ reduced_line line) /\
  ((exists q rate eta', parse_progress_line line = Ok (Some (q, rate, Some eta')))
   <-> full_line line) /\
  ((exists q rate, parse_progress_line line = Ok (Some (q, rate, None)))
   <-> reduced_line line /\ ~ full_line line).
Proof.
  destruct (parse_cases line)
    as [(Hf & num & rate & eta' & i & f & q & _ & _ & _ & _ & E)
       |[(Hf & Hr & num & rate & i & f & q & _ & _ & _ & E)
        |(Hf & Hr & E)]]; rewrite E.
  - pose proof (full_line_reduced line Hf) as Hr.
    split; [discriminate|]. split; [split; [discriminate | tauto]|].
    split; [split; [auto | eauto]|].
    split; [intros (? & ? & H); discriminate H | tauto].
  - split; [discriminate|]. split; [split; [discriminate | tauto]|].
    split; [split; [intros (? & ? & ? & H); discriminate H | tauto]|].
    split; [auto | eauto].
  - split; [discriminate|]. split; [tauto|].
    split; [split; [intros (? & ? & ? & H); discriminate H | tauto]|].
    split; [intros (? & ? & H); discriminate H | tauto].
Qed.

Lemma parse_progress_line_decides_witness :
  parse_progress_line progress_none = Ok None /\ ~ reduced_line progress_none.
Proof.
  assert (E : parse_progress_line progress_none = Ok None) by (vm_compute; reflexivity).
  split; [exact E|].
  exact (proj1 (proj1 (proj2 (parse_progress_line_decides progress_none))) E).
Defined.

(** X2: a percentage the parser returns lies between 0 and 1000, both
    included: at most three digits stand before the point, the value is
    not cut down to 100, and the conversion rounds to the nearest double,
    which 1000 is for a text just below it.  The rate it returns ends in
    the unit, and the ETA has the form MM:SS. *)
Theorem parse_progress_line_bounds (line : str) (q : Q) (rate : str) (eta' : option str) :
  parse_progress_line line = Ok (Some (q, rate, eta')) ->
  (0 <= q)%Q /\ (q <= 1000)%Q /\ is_double q /\ rate_text rate /\
  match eta' with
  | Some e => eta_text e
  | None => True
  end.
Proof.
  intros H.
  destruct (parse_cases line)
    as [(Hf & num & rate0 & eta0 & i & f & q0 & Hp & Hq & Hr & He & E)
       |[(Hf & Hr' & num & rate0 & i & f & q0 & Hp & Hq & Hr & E)
        |(Hf & Hr & E)]]; rewrite E in H; inversion H; subst;
    destruct (pct_double_bounds _ _ _ Hp) as [B1 B2];
    destruct Hq as (-> & [Hd _] & _);
    change 1000%Q with (inject_Z 1000); auto.
Qed.

Lemma parse_progress_line_bounds_witness :
  parse_progress_line "[download] 999.99999999999999999% of 1.00MiB at 3.5KiB/s ETA 01:02"
    = Ok (Some (1000%Q, "3.5KiB/s" : str, Some ("01:02" : str))) /\
  (0 <= 1000)%Q /\ (1000 <= 1000)%Q /\ is_double 1000.
Proof.
  assert (E : parse_progress_line
                "[download] 999.99999999999999999% of 1.00MiB at 3.5KiB/s ETA 01:02"
              = Ok (Some (1000%Q, "3.5KiB/s" : str, Some ("01:02" : str))))
    by (vm_compute; reflexivity).
  split; [exact E|].
  destruct (parse_progress_line_bounds _ _ _ _ E) as (B1 & B2 & B3 & _).
  split; [exact B1|]. split; [exact B2 | exact B3].
Defined.

(** * One line of output, in full *)

Lemma on_line_status raw j :
  exists r j',
    parse_progress_line (strip raw) = Ok r /\
    on_line raw j = (Ok tt, j') /\
    done j' = done j /\ error j' = error j /\
    status j' =
      match r with
      | Some (p, sp, et) =>
          {| pct := p; speed := sp; eta := py_or et "--"; text := take 160 (strip raw) |}
      | None =>
          {| pct := pct (status j); speed := speed (status j); eta := eta (status j);
             text := take 160 (strip raw) |}
      end.
Proof.
  destruct (parse_progress_line_total (strip raw)) as [r Hr].
  exists r. unfold on_line, bind, modify, lift, ret. rewrite Hr.
  destruct r as [[[p sp] et]|];
    destruct (contains "Destination:" (strip raw));
    try destruct (re_search re_destination (strip raw));
    eexists; (split; [reflexivity|]); (split; [reflexivity|]); simpl; auto.
Qed.

Lemma eta_text_py_or (e : str) : eta_text e -> py_or (Some e) "--" = e.
Proof. intros (a & b & c & d & -> & _). reflexivity. Qed.

(** X3: processing a line never raises and never touches [done] or
    [error].  The text of the job becomes the line without the white
    space around it, cut after 160 characters: nothing inside the line is
    changed, the text does not begin with white space, and it does not
    end with white space unless it was cut. *)
Theorem on_line_text (raw : str) (j : Job) :
  exists j' l r,
    on_line raw j = (Ok tt, j') /\
    done j' = done j /\ error j' = error j /\
    raw = l ++ strip raw ++ r /\
    forallb is_space l = true /\ forallb is_space r = true /\
    text (status j') = take 160 (strip raw) /\
    (length (text (status j')) <= 160)%nat /\
    no_leading_space (text (status j')) /\
    ((length (strip raw) <= 160)%nat -> no_trailing_space (text (status j'))).
Proof.
  destruct (on_line_effect raw j) as (j' & E & Hd & He & Ht & _).
  destruct (strip_split raw) as (l & r & Hs & Hl & Hr).
  exists j', l, r. rewrite Ht.
  split; [exact E|]. split; [exact Hd|]. split; [exact He|]. split; [exact Hs|].
  split; [exact Hl|]. split; [exact Hr|]. split; [reflexivity|].
  split; [rewrite length_take; lia|].
  split; [apply take_no_leading, strip_no_leading|].
  intros Hlen. rewrite firstn_all2 by exact Hlen. apply strip_no_trailing.
Qed.

Lemma on_line_text_witness :
  let raw : str := "  [download] Destination: clip.mp4   " in
  (length (strip raw) <= 160)%nat /\
  exists j', on_line raw initial_job = (Ok tt, j') /\
    text (status j') = ("[download] Destination: clip.mp4" : str) /\
    no_trailing_space (text (status j')).
Proof.
  cbv zeta.
  assert (Hs : strip "  [download] Destination: clip.mp4   "
               = ("[download] Destination: clip.mp4" : str)) by (vm_compute; reflexivity).
  assert (Hlen : (length (strip "  [download] Destination: clip.mp4   ") <= 160)%nat)
    by (rewrite Hs; simpl; lia).
  split; [exact Hlen|].
  destruct (on_line_text "  [download] Destination: clip.mp4   " initial_job)
    as (j' & l & r & E & _ & _ & _ & _ & _ & Ht & _ & _ & Htr).
  exists j'. split; [exact E|]. split.
  - rewrite Ht, Hs. reflexivity.
  - exact (Htr Hlen).
Defined.

(** X4: a line with a progress report of the full form sets the
    percentage, the rate and the ETA of the job to what the parser
    returns; one of the reduced form only sets the percentage and the
    rate and puts the ETA back to [--]. *)
Theorem on_line_progress (raw : str) (j : Job) :
  (full_line (strip raw) ->
   exists q rate e j',
     parse_progress_line (strip raw) = Ok (Some (q, rate, Some e)) /\
     on_line raw j = (Ok tt, j') /\
     pct (status j') = q /\ speed (status j') = rate /\ eta (status j') = e) /\
  (~ full_line (strip raw) -> reduced_line (strip raw) ->
   exists q rate j',
     parse_progress_line (strip raw) = Ok (Some (q, rate, None)) /\
     on_line raw j = (Ok tt, j') /\
     pct (status j') = q /\ speed (status j') = rate /\
     eta (status j') = ("--" : str)).
Proof.
  destruct (on_line_status raw j) as (r & j' & Hr & E & _ & _ & Hst).
  split.
  - intros Hf.
    destruct (parse_cases (strip raw))
      as [(_ & num & rate & e & i & f & q & _ & _ & _ & He & Ep)
         |[(Hn & _)|(Hn & _)]]; try contradiction.
    rewrite Ep in Hr. inversion Hr; subst r.
    exists q, rate, e, j'. rewrite Hst. cbn [pct speed eta].
    rewrite (eta_text_py_or e He). auto.
  - intros Hn Hred.
    destruct (parse_cases (strip raw))
      as [(Hf & _)|[(_ & _ & num & rate & i & f & q & _ & _ & _ & Ep)|(_ & Hn' & _)]];
      try contradiction.
    rewrite Ep in Hr. inversion Hr; subst r.
    exists q, rate, j'. rewrite Hst. auto.
Qed.

Lemma on_line_progress_witness :
  (full_line (strip progress_full) /\
   exists q rate e j',
     on_line progress_full initial_job = (Ok tt, j') /\
     pct (status j') = q /\ speed (status j') = rate /\ eta (status j') = e) /\
  (~ full_line (strip progress_reduced) /\ reduced_line (strip progress_reduced) /\
   exists j',
     on_line progress_reduced initial_job = (Ok tt, j') /\
     eta (status j') = ("--" : str)).
Proof.
  assert (E1 : strip progress_full = progress_full) by (vm_compute; reflexivity).
  assert (E2 : strip progress_reduced = progress_reduced) by (vm_compute; reflexivity).
  split.
  - assert (Hf : full_line (strip progress_full)) by (rewrite E1; exact sample_full_line).
    split; [exact Hf|].
    destruct (proj1 (on_line_progress progress_full initial_job) Hf)
      as (q & rate & e & j' & _ & E & H1 & H2 & H3).
    exists q, rate, e, j'. auto.
  - assert (Hn : ~ full_line (strip progress_reduced))
      by (rewrite E2; exact (proj1 sample_reduced_line)).
    assert (Hr : reduced_line (strip progress_reduced))
      by (rewrite E2; exact (proj2 sample_reduced_line)).
    split; [exact Hn|]. split; [exact Hr|].
    destruct (proj2 (on_line_progress progress_reduced initial_job) Hn Hr)
      as (q & rate & j' & _ & E & _ & _ & H3).
    exists j'. auto.
Defined.

Lemma search_destination_inv (line : str) (c : caps) :
  re_search re_destination line = Some c ->
  exists pre w path,
    line = pre ++ "Destination:" ++ w :: path /\ is_space w = true /\ path <> [].
Proof.
  induction line as [|a line IH]; cbn [re_search].
  - destruct (match_at re_destination []) eqn:E; [|discriminate].
    intros _. apply match_at_destination_inv in E as (w & path & E & _). discriminate E.
  - destruct (match_at re_destination (a :: line)) eqn:E.
    + intros _. apply match_at_destination_inv in E as (w & path & E & Hw & Hne).
      exists [], w, path. auto.
    + intros H. destruct (IH H) as (pre & w & path & -> & Hw & Hne).
      exists (a :: pre), w, path. auto.
Qed.

(** X5: the file name of the job is changed by an announcement only: a
    line that changes it holds the token, a white space character and a
    path that is not empty, and the new name has no slash. *)
Theorem on_line_filename (raw : str) (j j' : Job) :
  on_line raw j = (Ok tt, j') -> filename j' <> filename j ->
  (exists pre w path,
     strip raw = pre ++ "Destination:" ++ w :: path /\ is_space w = true /\ path <> []) /\
  exists f, filename j' = Some f /\ forallb (fun a => negb (is_char "/" a)) f = true.
Proof.
  intros E Hne.
  destruct (on_line_effect raw j) as (j1 & E1 & _ & _ & _ & Hf & _).
  rewrite E in E1. inversion E1; subst j1. clear E1.
  unfold announced in Hf.
  destruct (contains "Destination:" (strip raw)); [|congruence].
  destruct (re_search re_destination (strip raw)) as [m|] eqn:Es; [|congruence].
  split; [eapply search_destination_inv, Es|].
  eexists. split; [exact Hf|].
  destruct (basename_spec (group_or_empty 1 m)) as (d & _ & Hb & _). exact Hb.
Qed.

Lemma on_line_filename_witness :
  let raw : str := "[download] Destination: /srv/app/web_downloader/clip.mp4" in
  let j' := snd (on_line raw initial_job) in
  filename j' <> filename initial_job /\
  exists f, filename j' = Some f /\ forallb (fun a => negb (is_char "/" a)) f = true.
Proof.
  cbv zeta.
  assert (E : on_line "[download] Destination: /srv/app/web_downloader/clip.mp4" initial_job
              = (Ok tt, snd (on_line "[download] Destination: /srv/app/web_downloader/clip.mp4"
                               initial_job))) by (vm_compute; reflexivity).
  assert (Hne : filename (snd (on_line "[download] Destination: /srv/app/web_downloader/clip.mp4"
                                 initial_job)) <> filename initial_job)
    by (vm_compute; discriminate).
  split; [exact Hne|].
  exact (proj2 (on_line_filename _ _ _ E Hne)).
Defined.

(** * The runner, in full *)

Lemma run_job_closed out fin ls :
  let j := snd (for_each on_line out initial_job) in
  done j = false /\ error j = None /\ filename j = last_announced out /\
  run_job (Spawned out fin) ls =
    match fin with
    | ReadFails e => set_error e j
    | Exits r =>
        if r =? 0 then
          if falsy (filename j) then
            match newest_first ls with
            | Raise e => set_error e (set_done j)
            | Ok (f :: _) => set_filename f (set_done j)
            | Ok [] => set_done j
            end
          else set_done j
        else set_error ("yt-dlp exited " ++ show_Z r) j
    end.
Proof.
  destruct (supervise_lines out fin ls) as (j & Ej & Hd & He & Hf & E).
  cbv zeta. rewrite Ej. cbn [snd]. repeat split; try assumption.
  unfold run_job. rewrite E.
  destruct fin as [r|e]; [|reflexivity].
  destruct (r =? 0); [|reflexivity].
  destruct (falsy (filename j)); [|reflexivity].
  destruct (newest_first ls) as [[|f fs]|e]; reflexivity.
Qed.

Lemma for_each_text out : forall j,
  text (status (snd (for_each on_line out j))) =
    match last out with
    | Some raw => take 160 (strip raw)
    | None => text (status j)
    end.
Proof.
  induction out as [|raw out IH]; intros j; [reflexivity|].
  destruct (on_line_effect raw j) as (j1 & E1 & _ & _ & Ht & _).
  cbn [for_each]. unfold bind. rewrite E1. rewrite IH.
  destruct out as [|raw' out]; [exact Ht|].
  change (last (raw :: raw' :: out)) with (last (raw' :: out)).
  destruct (last (raw' :: out)) eqn:L; [reflexivity|].
  apply last_None in L. discriminate L.
Qed.

(** X6: a job ends done exactly when its process was started, its
    output was read to the end and its exit code was zero; and a job that
    is not done always ends with an error. *)
Theorem run_job_done_iff (p : process) (ls : result (list dirent)) :
  (done (run_job p ls) = true <-> exists out, p = Spawned out (Exits 0)) /\
  (done (run_job p ls) = false -> exists e, error (run_job p ls) = Some e).
Proof.
  destruct p as [e | out fin].
  - split; [split; [discriminate | intros [out H]; discriminate H]|].
    intros _. exists e. reflexivity.
  - destruct (run_job_closed out fin ls) as (Hd & He & Hf & E). rewrite E.
    destruct fin as [r|e].
    + destruct (r =? 0) eqn:Hr.
      * apply Z.eqb_eq in Hr. subst r.
        assert (D : forall x, done x = true ->
                  (done x = true <-> exists out0, Spawned out (Exits 0) = Spawned out0 (Exits 0))
                  /\ (done x = false -> exists e, error x = Some e)).
        { intros x Hx. split; [split; eauto|]. rewrite Hx. discriminate. }
        destruct (falsy _); [|apply D; reflexivity].
        destruct (newest_first ls) as [[|f fs]|e]; apply D; reflexivity.
      * apply Z.eqb_neq in Hr. simpl. rewrite Hd.
        split; [split; [discriminate | intros [out0 H]; inversion H; congruence]|].
        eauto.
    + simpl. rewrite Hd.
      split; [split; [discriminate | intros [out0 H]; discriminate H]|]. eauto.
Qed.

Lemma run_job_done_iff_witness :
  done (run_job (Spawned [] (Exits (-9))) (Ok [])) = false /\
  exists e, error (run_job (Spawned [] (Exits (-9))) (Ok [])) = Some e.
Proof.
  assert (H : done (run_job (Spawned [] (Exits (-9))) (Ok [])) = false) by reflexivity.
  split; [exact H|].
  exact (proj2 (run_job_done_iff (Spawned [] (Exits (-9))) (Ok [])) H).
Defined.

(** X7: a job ends without error exactly when the exit code was zero
    and either a file name was captured from the output or the scan of
    the directory went through. *)
Theorem run_job_no_error_iff (p : process) (ls : result (list dirent)) :
  error (run_job p ls) = None <->
  exists out, p = Spawned out (Exits 0) /\
    (falsy (last_announced out) = true -> exists names, newest_first ls = Ok names).
Proof.
  destruct p as [e | out fin].
  - split; [discriminate | intros (out & H & _); discriminate H].
  - destruct (run_job_closed out fin ls) as (Hd & He & Hf & E). rewrite E, Hf.
    destruct fin as [r|e].
    + destruct (r =? 0) eqn:Hr.
      * apply Z.eqb_eq in Hr. subst r.
        destruct (falsy (last_announced out)) eqn:Hfa.
        -- destruct (newest_first ls) as [[|f fs]|e] eqn:Hn; simpl; rewrite ?He.
           ++ split; [intros _; exists out; split; [reflexivity|]; eauto | reflexivity].
           ++ split; [intros _; exists out; split; [reflexivity|]; eauto | reflexivity].
           ++ split; [discriminate|].
              intros (out0 & H & Hs). inversion H; subst out0.
              rewrite Hfa in Hs. destruct (Hs eq_refl) as [names Hn']. discriminate Hn'.
        -- simpl. rewrite He.
           split; [intros _; exists out; split; [reflexivity|]|reflexivity].
           intros H. congruence.
      * apply Z.eqb_neq in Hr. simpl.
        split; [discriminate | intros (out0 & H & _); inversion H; congruence].
    + simpl. split; [discriminate | intros (out0 & H & _); discriminate H].
Qed.

Lemma run_job_no_error_iff_witness :
  error (run_job (Spawned [] (Exits 0)) (Ok [])) = None /\
  exists out, Spawned [] (Exits 0) = Spawned out (Exits 0) /\
    (falsy (last_announced out) = true ->
     exists names, newest_first (Ok []) = Ok names).
Proof.
  assert (E : error (run_job (Spawned [] (Exits 0)) (Ok [])) = None) by reflexivity.
  split; [exact E|].
  exact (proj1 (run_job_no_error_iff (Spawned [] (Exits 0)) (Ok [])) E).
Defined.

(** X8: the directory is looked at only after exit code zero with no
    file name captured: in every other case the record of the job is the
    same whatever the directory holds. *)
Theorem run_job_scan_only_as_fallback (out : list str) (ls ls' : result (list dirent)) :
  (forall r, r <> 0 ->
     run_job (Spawned out (Exits r)) ls = run_job (Spawned out (Exits r)) ls') /\
  (falsy (last_announced out) = false ->
     run_job (Spawned out (Exits 0)) ls = run_job (Spawned out (Exits 0)) ls') /\
  (forall e, run_job (Spawned out (ReadFails e)) ls = run_job (Spawned out (ReadFails e)) ls') /\
  (forall e, run_job (SpawnFails e) ls = run_job (SpawnFails e) ls').
Proof.
  split; [|split; [|split]].
  - intros r Hr. apply Z.eqb_neq in Hr.
    destruct (run_job_closed out (Exits r) ls) as (_ & _ & _ & ->).
    destruct (run_job_closed out (Exits r) ls') as (_ & _ & _ & ->).
    rewrite Hr. reflexivity.
  - intros Hfa.
    destruct (run_job_closed out (Exits 0) ls) as (_ & _ & Hf & ->).
    destruct (run_job_closed out (Exits 0) ls') as (_ & _ & _ & ->).
    rewrite Hf, Hfa. reflexivity.
  - intros e.
    destruct (run_job_closed out (ReadFails e) ls) as (_ & _ & _ & ->).
    destruct (run_job_closed out (ReadFails e) ls') as (_ & _ & _ & ->).
    reflexivity.
  - intros e. reflexivity.
Qed.

Lemma run_job_scan_only_as_fallback_witness :
  let out : list str := ["[download] Destination: clip.mp4" : str] in
  falsy (last_announced out) = false /\
  run_job (Spawned out (Exits 0)) (Raise "listing failed")
    = run_job (Spawned out (Exits 0)) (Ok []) /\
  (1 <> 0 /\
   run_job (Spawned out (Exits 1)) (Raise "listing failed")
     = run_job (Spawned out (Exits 1)) (Ok [])).
Proof.
  cbv zeta.
  assert (H : falsy (last_announced ["[download] Destination: clip.mp4" : str]) = false)
    by (vm_compute; reflexivity).
  assert (H1 : 1 <> 0) by lia.
  pose proof (run_job_scan_only_as_fallback ["[download] Destination: clip.mp4" : str]
                (Raise "listing failed") (Ok [])) as (A & B & _).
  split; [exact H|]. split; [exact (B H)|]. split; [exact H1 | exact (A 1 H1)].
Defined.

(** X9: what follows the loop (the exit code, the fallback scan, the
    exception) never touches the progress of the job, and the text of a
    finished job is that of the last line the loop received from the
    process, or the initial text when it received none. *)
Theorem run_job_status (out : list str) (fin : finish) (ls : result (list dirent)) :
  status (run_job (Spawned out fin) ls) = status (snd (for_each on_line out initial_job)) /\
  text (status (run_job (Spawned out fin) ls)) =
    match last out with
    | Some raw => take 160 (strip raw)
    | None => ("Starting..." : str)
    end.
Proof.
  assert (S : status (run_job (Spawned out fin) ls)
              = status (snd (for_each on_line out initial_job))).
  { destruct (run_job_closed out fin ls) as (_ & _ & _ & ->).
    destruct fin as [r|e]; [|reflexivity].
    destruct (r =? 0); [|reflexivity].
    destruct (falsy _); [|reflexivity].
    destruct (newest_first ls) as [[|f fs]|e]; reflexivity. }
  split; [exact S|]. rewrite S, for_each_text. reflexivity.
Qed.

(** * The newest file *)

Lemma insert_desc_perm (x : Z * str) (l : list (Z * str)) :
  Permutation (insert_desc x l) (x :: l).
Proof.
  induction l as [|y l IH]; simpl; [reflexivity|].
  destruct (fst y <=? fst x); [reflexivity|].
  rewrite IH. apply perm_swap.
Qed.

Lemma sort_desc_perm (l : list (Z * str)) : Permutation (sort_desc l) l.
Proof.
  induction l as [|x l IH]; simpl; [reflexivity|].
  unfold sort_desc in *. simpl. rewrite insert_desc_perm, IH. reflexivity.
Qed.

Lemma insert_desc_descending (x : Z * str) (l : list (Z * str)) :
  descending l -> descending (insert_desc x l).
Proof.
  unfold descending. induction 1 as [|y l Hl IH Hy]; simpl.
  - repeat constructor.
  - destruct (fst y <=? fst x) eqn:E.
    + apply Z.leb_le in E. constructor; [constructor; assumption|].
      constructor; [exact E|].
      rewrite List.Forall_forall in Hy |- *. intros z Hz. specialize (Hy z Hz). lia.
    + apply Z.leb_gt in E. constructor; [exact IH|].
      rewrite List.Forall_forall in Hy |- *. intros z Hz.
      apply (Permutation_in _ (insert_desc_perm x l)) in Hz.
      destruct Hz as [<- | Hz]; [lia | apply Hy, Hz].
Qed.

Lemma sort_desc_descending (l : list (Z * str)) : descending (sort_desc l).
Proof.
  unfold sort_desc. induction l as [|x l IH]; simpl; [constructor|].
  apply insert_desc_descending, IH.
Qed.

Lemma insert_desc_of_age (t : Z) (x : Z * str) (l : list (Z * str)) :
  of_age t (insert_desc x l) = of_age t (x :: l).
Proof.
  unfold of_age. induction l as [|y l IH]; [reflexivity|].
  cbn [insert_desc]. destruct (fst y <=? fst x) eqn:E; [reflexivity|].
  apply Z.leb_gt in E. cbn [List.filter] in IH |- *. rewrite IH.
  destruct (fst x =? t) eqn:Ex; [|reflexivity].
  destruct (fst y =? t) eqn:Ey; [|reflexivity].
  apply Z.eqb_eq in Ex, Ey. lia.
Qed.

Lemma sort_desc_of_age (t : Z) (l : list (Z * str)) : of_age t (sort_desc l) = of_age t l.
Proof.
  unfold sort_desc. induction l as [|x l IH]; [reflexivity|].
  cbn [foldr]. rewrite insert_desc_of_age. unfold of_age in *.
  cbn [List.filter]. rewrite IH. reflexivity.
Qed.

(** X10: [sorted(..., reverse=True)] as the fallback uses it: the
    result holds the same entries, newest first, and entries of the same
    age keep the order of the listing. *)
Theorem sort_desc_spec (l : list (Z * str)) :
  Permutation (sort_desc l) l /\ descending (sort_desc l) /\
  forall t, of_age t (sort_desc l) = of_age t l.
Proof.
  split; [apply sort_desc_perm|]. split; [apply sort_desc_descending|].
  intros t. apply sort_desc_of_age.
Qed.

Lemma mtime_keys_ok (l : list dirent) (ks : list (Z * str)) :
  mtime_keys l = Ok ks ->
  Forall2 (fun d k => d_mtime d = Ok (fst k) /\ d_name d = snd k) l ks.
Proof.
  revert ks. induction l as [|d l IH]; simpl; intros ks H.
  - inversion H. constructor.
  - destruct (d_mtime d) as [t|e] eqn:Et; [|discriminate].
    destruct (mtime_keys l) as [ks'|e] eqn:Ek; [|discriminate].
    inversion H; subst. constructor; [auto | apply IH; reflexivity].
Qed.

Lemma mtime_keys_raise (l : list dirent) :
  (exists e, mtime_keys l = Raise e) <-> exists d e, In d l /\ d_mtime d = Raise e.
Proof.
  induction l as [|d l IH]; simpl.
  - split; [intros [e H]; discriminate H | intros (d & e & [] & _)].
  - destruct (d_mtime d) as [t|e] eqn:Et.
    + destruct (mtime_keys l) as [ks|e'] eqn:Ek.
      * split; [intros [e H]; discriminate H|].
        intros (d' & e & [<- | Hin] & He); [congruence|].
        destruct (proj2 IH) as [e0 H0]; [eauto | discriminate H0].
      * split; [|eauto]. intros _.
        destruct (proj1 IH) as (d' & e & Hin & He); eauto.
    + split; [|eauto]. intros _. exists d, e. auto.
Qed.

Lemma Forall2_in_r {A B : Type} (P : A -> B -> Prop) (l : list A) (k : list B) (y : B) :
  Forall2 P l k -> In y k -> exists x, In x l /\ P x y.
Proof.
  induction 1 as [|a b l k Hab H IH]; simpl; [intros []|].
  intros [<- | Hy]; [eauto|]. destruct (IH Hy) as (x & Hx & Hp). eauto.
Qed.

Lemma Forall2_in_l {A B : Type} (P : A -> B -> Prop) (l : list A) (k : list B) (x : A) :
  Forall2 P l k -> In x l -> exists y, In y k /\ P x y.
Proof.
  induction 1 as [|a b l k Hab H IH]; simpl; [intros []|].
  intros [<- | Hx]; [eauto|]. destruct (IH Hx) as (y & Hy & Hp). eauto.
Qed.

Lemma descending_head (x : Z * str) (l : list (Z * str)) :
  descending (x :: l) -> forall y, In y (x :: l) -> fst y <= fst x.
Proof.
  intros H y [<- | Hy]; [lia|].
  inversion H as [|? ? _ Hall]; subst.
  rewrite List.Forall_forall in Hall. apply Hall, Hy.
Qed.

(** X11: when the scan of the directory goes through, its result names
    the regular files of the listing and nothing else, and the first of
    them, which the fallback takes, is a regular file that no other
    regular file of the listing is newer than. *)
Theorem newest_first_spec (names : list dirent) (fs : list str) :
  newest_first (Ok names) = Ok fs ->
  Permutation fs (map d_name (List.filter d_isfile names)) /\
  forall f rest, fs = f :: rest ->
    exists d t,
      In d names /\ d_isfile d = true /\ d_name d = f /\ d_mtime d = Ok t /\
      forall d' t', In d' names -> d_isfile d' = true -> d_mtime d' = Ok t' -> t' <= t.
Proof.
  unfold newest_first.
  destruct (mtime_keys (List.filter d_isfile names)) as [ks|e] eqn:Ek; [|discriminate].
  intros H. inversion H; subst fs. clear H.
  pose proof (mtime_keys_ok _ _ Ek) as HF.
  split.
  - rewrite (sort_desc_perm ks).
    clear Ek. induction HF as [|d k l ks' [_ Hn] _ IH]; simpl; [reflexivity|].
    rewrite Hn. constructor. exact IH.
  - intros f rest E.
    destruct (sort_desc ks) as [|[t f0] srt] eqn:Es; [discriminate|].
    simpl in E. inversion E; subst f0 rest. clear E.
    assert (Hin : In (t, f) ks).
    { apply (Permutation_in _ (sort_desc_perm ks)). rewrite Es. left. reflexivity. }
    destruct (Forall2_in_r _ _ _ _ HF Hin) as (d & Hd & Ht & Hn).
    apply filter_In in Hd as [Hd Hfile].
    exists d, t. simpl in Ht, Hn. repeat split; auto.
    intros d' t' Hd' Hfile' Ht'.
    assert (Hd'' : In d' (List.filter d_isfile names)) by (apply filter_In; auto).
    destruct (Forall2_in_l _ _ _ _ HF Hd'') as (k & Hk & Hkt & _).
    rewrite Ht' in Hkt. inversion Hkt; subst t'.
    apply (Permutation_in _ (Permutation_sym (sort_desc_perm ks))) in Hk.
    rewrite Es in Hk.
    pose proof (sort_desc_descending ks) as Hs. rewrite Es in Hs.
    apply (descending_head _ _ Hs k Hk).
Qed.

Lemma newest_first_spec_witness :
  let names :=
    [ {| d_name := "a.mp4"; d_isfile := true; d_mtime := Ok 5 |};
      {| d_name := "b.mp4"; d_isfile := true; d_mtime := Ok 7 |};
      {| d_name := "sub"; d_isfile := false; d_mtime := Raise "gone" |} ] in
  newest_first (Ok names) = Ok ["b.mp4" : str; "a.mp4" : str] /\
  Permutation ["b.mp4" : str; "a.mp4" : str] (map d_name (List.filter d_isfile names)).
Proof.
  cbv zeta.
  assert (E : newest_first
                (Ok [ {| d_name := "a.mp4"; d_isfile := true; d_mtime := Ok 5 |};
                      {| d_name := "b.mp4"; d_isfile := true; d_mtime := Ok 7 |};
                      {| d_name := "sub"; d_isfile := false; d_mtime := Raise "gone" |} ])
              = Ok ["b.mp4" : str; "a.mp4" : str]) by (vm_compute; reflexivity).
  split; [exact E|]. exact (proj1 (newest_first_spec _ _ E)).
Defined.

(** X12: the scan raises exactly when the listing itself raises or the
    time stamp of a regular file cannot be read; what is not a regular
    file is left out before any time stamp is read. *)
Theorem newest_first_raises (ls : result (list dirent)) :
  (exists e, newest_first ls = Raise e) <->
  (exists e, ls = Raise e) \/
  (exists names d e, ls = Ok names /\ In d names /\ d_isfile d = true /\ d_mtime d = Raise e).
Proof.
  destruct ls as [names|e0]; simpl.
  - destruct (mtime_keys (List.filter d_isfile names)) as [ks|e] eqn:Ek.
    + split; [intros [e H]; discriminate H|].
      intros [[e H] | (names0 & d & e & H & Hin & Hf & He)]; [discriminate H|].
      inversion H; subst names0.
      destruct (proj2 (mtime_keys_raise (List.filter d_isfile names))) as [e1 H1].
      * exists d, e. split; [apply filter_In; auto | exact He].
      * congruence.
    + split; [|eauto]. intros _. right.
      destruct (proj1 (mtime_keys_raise (List.filter d_isfile names))) as (d & e1 & Hin & He);
        [eauto|].
      apply filter_In in Hin as [Hin Hf]. exists names, d, e1. auto.
  - split; [eauto | intros _; eauto].
Qed.

Lemma newest_first_raises_witness :
  let names := [ {| d_name := "clip.mp4"; d_isfile := true; d_mtime := Raise "gone" |} ] in
  In {| d_name := "clip.mp4"; d_isfile := true; d_mtime := Raise "gone" |} names /\
  exists e, newest_first (Ok names) = Raise e.
Proof.
  cbv zeta. split; [left; reflexivity|].
  apply (proj2 (newest_first_raises _)). right.
  exists [ {| d_name := "clip.mp4"; d_isfile := true; d_mtime := Raise "gone" |} ],
         {| d_name := "clip.mp4"; d_isfile := true; d_mtime := Raise "gone" |},
         ("gone" : str).
  split; [reflexivity|]. split; [left; reflexivity|]. split; reflexivity.
Defined.

(** * The command, further *)

Lemma managed_template (cwd : str) :
  path_join (WEB_DOWNLOADER_DIR cwd) "%(title)s.%(ext)s"
  = WEB_DOWNLOADER_DIR cwd ++ "/%(title)s.%(ext)s".
Proof.
  unfold path_join at 1. change (starts_with "/" "%(title)s.%(ext)s") with false. cbv iota.
  destruct (WEB_DOWNLOADER_DIR_form cwd) as [x ->].
  rewrite ends_with_slash_downloader, orb_false_r, str_eqb_false; [reflexivity|].
  destruct x; discriminate.
Qed.

Lemma build_web_cmd_frame_all (cwd : str) (cookie_file : bool)
    (quality fmt cookies speed : str) :
  exists opts, forall url,
    build_web_cmd cwd cookie_file url quality fmt cookies speed =
      Ok (("yt-dlp" : str) :: ("-f" : str) :: opts
          ++ ["-o" : str; WEB_DOWNLOADER_DIR cwd ++ "/%(title)s.%(ext)s"; strip url]).
Proof.
  destruct (build_web_cmd_closed cwd cookie_file [] quality fmt cookies speed)
    as (c & ch & E & Hnone & Hsome).
  assert (Hall : forall url,
            build_web_cmd cwd cookie_file url quality fmt cookies speed =
              Ok ((if str_eqb fmt "MP4 - Video"
                   then ["yt-dlp" : str; "-f" : str;
                         "best[height<=" ++ default ("480" : str) (QUALITY_MAP !! quality)
                           ++ "][ext=mp4]"]
                   else ["yt-dlp" : str; "-f" : str; "bestaudio[ext=m4a]" : str])
                  ++ (if str_eqb cookies "cookies.txt" && cookie_file
                      then ["--cookies" : str; "cookies.txt" : str] else [])
                  ++ ["--no-playlist" : str]
                  ++ ["--concurrent-fragments" : str; c;
                      "--http-chunk-size" : str; ch;
                      "--retries" : str; "3" : str; "--fragment-retries" : str; "3" : str;
                      "--newline" : str]
                  ++ ["-o" : str; path_join (WEB_DOWNLOADER_DIR cwd) "%(title)s.%(ext)s";
                      strip url])).
  { intros url.
    destruct (build_web_cmd_closed cwd cookie_file url quality fmt cookies speed)
      as (c' & ch' & E' & Hnone' & Hsome').
    assert (Hc : c' = c /\ ch' = ch).
    { destruct (SPEED_MAP !! speed) as [v|] eqn:Ev.
      - destruct (Hsome v eq_refl) as [H1 H2]. destruct (Hsome' v eq_refl) as [H1' H2'].
        split; congruence.
      - destruct (Hnone eq_refl) as [-> ->]. destruct (Hnone' eq_refl) as [-> ->]. auto. }
    destruct Hc as [-> ->]. exact E'. }
  exists ((if str_eqb fmt "MP4 - Video"
           then ["best[height<=" ++ default ("480" : str) (QUALITY_MAP !! quality)
                   ++ "][ext=mp4]"]
           else ["bestaudio[ext=m4a]" : str])
          ++ (if str_eqb cookies "cookies.txt" && cookie_file
              then ["--cookies" : str; "cookies.txt" : str] else [])
          ++ ["--no-playlist" : str; "--concurrent-fragments" : str; c;
              "--http-chunk-size" : str; ch;
              "--retries" : str; "3" : str; "--fragment-retries" : str; "3" : str;
              "--newline" : str]).
  intros url. rewrite Hall, managed_template. f_equal.
  destruct (str_eqb fmt "MP4 - Video");
    destruct (str_eqb cookies "cookies.txt" && cookie_file);
    cbn [app]; reflexivity.
Qed.

(** X13: the command always begins with [yt-dlp -f] and ends with [-o],
    the output template, which lies directly in the managed directory,
    and the URL without the white space around it; what stands between
    does not depend on the URL. *)
Theorem build_web_cmd_frame (cwd : str) (cookie_file : bool)
    (quality fmt cookies speed : str) :
  exists opts, forall url,
    build_web_cmd cwd cookie_file url quality fmt cookies speed =
      Ok (("yt-dlp" : str) :: ("-f" : str) :: opts
          ++ ["-o" : str; WEB_DOWNLOADER_DIR cwd ++ "/%(title)s.%(ext)s"; strip url]) /\
    no_leading_space (strip url) /\ no_trailing_space (strip url).
Proof.
  destruct (build_web_cmd_frame_all cwd cookie_file quality fmt cookies speed) as [opts H].
  exists opts. intros url.
  split; [apply H|]. split; [apply strip_no_leading | apply strip_no_trailing].
Qed.

(** X14: for every format but [MP4 - Video] the quality plays no part;
    and without a cookie file, or with another choice than
    [cookies.txt], the command is the one for [none]. *)
Theorem build_web_cmd_ignores (cwd : str) (cookie_file : bool)
    (url quality fmt cookies speed : str) :
  (fmt <> ("MP4 - Video" : str) ->
   forall quality',
     build_web_cmd cwd cookie_file url quality' fmt cookies speed
       = build_web_cmd cwd cookie_file url quality fmt cookies speed) /\
  (cookies <> ("cookies.txt" : str) \/ cookie_file = false ->
   build_web_cmd cwd cookie_file url quality fmt cookies speed
     = build_web_cmd cwd false url quality fmt "none" speed).
Proof.
  split.
  - intros Hf q'. unfold build_web_cmd. rewrite (str_eqb_false _ _ Hf). reflexivity.
  - intros H. unfold build_web_cmd.
    assert (E : str_eqb cookies "cookies.txt" && cookie_file = false).
    { destruct H as [H | ->]; [rewrite (str_eqb_false _ _ H); reflexivity|].
      apply andb_false_r. }
    rewrite E. reflexivity.
Qed.

Lemma build_web_cmd_ignores_witness :
  ("MP3 - Audio" : str) <> ("MP4 - Video" : str) /\
  build_web_cmd "/srv/app" false "u" "144p (Low)" "MP3 - Audio" "cookies.txt" "Mid"
    = build_web_cmd "/srv/app" false "u" "1080p" "MP3 - Audio" "none" "Mid".
Proof.
  assert (H : ("MP3 - Audio" : str) <> ("MP4 - Video" : str)) by discriminate.
  split; [exact H|].
  pose proof (build_web_cmd_ignores "/srv/app" false "u" "1080p" "MP3 - Audio"
                "cookies.txt" "Mid") as [A B].
  rewrite (A H "144p (Low)"). exact (B (or_intror eq_refl)).
Defined.

(** * [web_download], further *)

Lemma build_web_cmd_ok cwd ck url quality fmt cookies speed :
  exists cmd, build_web_cmd cwd ck url quality fmt cookies speed = Ok cmd.
Proof.
  destruct (build_web_cmd_closed cwd ck url quality fmt cookies speed) as (c & ch & E & _).
  eauto.
Qed.

Lemma web_download_accepts (cwd : str) (cookie_file : bool)
    (form : gmap str str) (uuid_hex : str) (sv : server) (url : str) :
  form !! ("url" : str) = Some url -> url <> [] ->
  exists cmd,
    build_web_cmd cwd cookie_file url
      (default ("480p" : str) (form !! ("quality" : str)))
      (default ("MP4 - Video" : str) (form !! ("format" : str)))
      (default ("none" : str) (form !! ("cookies" : str)))
      (default ("Turbo" : str) (form !! ("speed" : str))) = Ok cmd /\
    web_download cwd cookie_file form uuid_hex sv =
      (DownloadOk (take 12 uuid_hex),
       {| web_jobs := web_jobs sv;
          launched := launched sv ++ [(take 12 uuid_hex, cmd)] |}).
Proof.
  intros Hu Hne.
  destruct (build_web_cmd_ok cwd cookie_file url
              (default ("480p" : str) (form !! ("quality" : str)))
              (default ("MP4 - Video" : str) (form !! ("format" : str)))
              (default ("none" : str) (form !! ("cookies" : str)))
              (default ("Turbo" : str) (form !! ("speed" : str)))) as [cmd E].
  exists cmd. split; [exact E|].
  unfold web_download, dict_get. rewrite Hu.
  destruct url as [|a u]; [congruence|]. rewrite E. reflexivity.
Qed.

(** X15: without a URL, or with an empty one, [web_download] answers
    [Missing URL] with code 400 and starts nothing.  With a URL it never
    fails: it answers with the first 12 characters of the UUID and
    launches exactly one thread, for that id and for the command built
    from the form, a missing field counting as [480p], [MP4 - Video],
    [none], [Turbo]; the registry is left as it was. *)
Theorem web_download_spec (cwd : str) (cookie_file : bool)
    (form : gmap str str) (uuid_hex : str) (sv : server) :
  (form !! ("url" : str) = None \/ form !! ("url" : str) = Some [] ->
   web_download cwd cookie_file form uuid_hex sv = (DownloadError "Missing URL" 400, sv)) /\
  (forall url, form !! ("url" : str) = Some url -> url <> [] ->
   exists cmd,
     build_web_cmd cwd cookie_file url
       (default ("480p" : str) (form !! ("quality" : str)))
       (default ("MP4 - Video" : str) (form !! ("format" : str)))
       (default ("none" : str) (form !! ("cookies" : str)))
       (default ("Turbo" : str) (form !! ("speed" : str))) = Ok cmd /\
     web_download cwd cookie_file form uuid_hex sv =
       (DownloadOk (take 12 uuid_hex),
        {| web_jobs := web_jobs sv;
           launched := launched sv ++ [(take 12 uuid_hex, cmd)] |})).
Proof.
  split.
  - intros [H | H]; unfold web_download; rewrite H; reflexivity.
  - intros url. apply web_download_accepts.
Qed.

Lemma web_download_spec_witness :
  (web_download "/srv/app" false ∅ sample_uuid {| web_jobs := ∅; launched := [] |}
     = (DownloadError "Missing URL" 400, {| web_jobs := ∅; launched := [] |})) /\
  exists cmd,
    web_download "/srv/app" false sample_form sample_uuid {| web_jobs := ∅; launched := [] |}
      = (DownloadOk (take 12 sample_uuid),
         {| web_jobs := ∅; launched := [(take 12 sample_uuid, cmd)] |}).
Proof.
  pose proof (web_download_spec "/srv/app" false ∅ sample_uuid
                {| web_jobs := ∅; launched := [] |}) as [A _].
  pose proof (web_download_spec "/srv/app" false sample_form sample_uuid
                {| web_jobs := ∅; launched := [] |}) as [_ B].
  split; [exact (A (or_introl eq_refl))|].
  destruct (B ("https://example.com/watch?v=1" : str) eq_refl ltac:(discriminate))
    as (cmd & _ & E).
  exists cmd. exact E.
Defined.

(** X16: a URL that holds white space only passes the check of
    [web_download]: the job is launched, and the last argument of its
    command is the empty text. *)
Theorem web_download_blank_url (cwd : str) (cookie_file : bool)
    (form : gmap str str) (uuid_hex : str) (sv : server) (url : str) :
  form !! ("url" : str) = Some url -> url <> [] -> forallb is_space url = true ->
  exists cmd opts,
    web_download cwd cookie_file form uuid_hex sv =
      (DownloadOk (take 12 uuid_hex),
       {| web_jobs := web_jobs sv;
          launched := launched sv ++ [(take 12 uuid_hex, cmd)] |}) /\
    cmd = opts ++ [[]].
Proof.
  intros Hu Hne Hsp.
  destruct (build_web_cmd_frame_all cwd cookie_file
              (default ("480p" : str) (form !! ("quality" : str)))
              (default ("MP4 - Video" : str) (form !! ("format" : str)))
              (default ("none" : str) (form !! ("cookies" : str)))
              (default ("Turbo" : str) (form !! ("speed" : str)))) as (opts & E).
  specialize (E url). rewrite (strip_all_space url Hsp) in E.
  eexists. eexists. split.
  - unfold web_download, dict_get. rewrite Hu.
    destruct url as [|a u]; [congruence|]. rewrite E. reflexivity.
  - instantiate (1 := ("yt-dlp" : str) :: ("-f" : str) :: opts
                       ++ ["-o" : str; WEB_DOWNLOADER_DIR cwd ++ "/%(title)s.%(ext)s"]).
    cbn [app]. rewrite <- app_assoc. reflexivity.
Qed.

Lemma web_download_blank_url_witness :
  exists cmd opts,
    web_download "/srv/app" false (<[("url" : str) := ("  " : str)]> ∅) sample_uuid
      {| web_jobs := ∅; launched := [] |}
    = (DownloadOk (take 12 sample_uuid),
       {| web_jobs := ∅; launched := [(take 12 sample_uuid, cmd)] |}) /\
    cmd = opts ++ [[]].
Proof.
  apply (web_download_blank_url "/srv/app" false (<[("url" : str) := ("  " : str)]> ∅)
           sample_uuid {| web_jobs := ∅; launched := [] |} ("  " : str)).
  - apply lookup_insert_eq.
  - discriminate.
  - reflexivity.
Defined.

Lemma build_web_cmd_unknown_quality cwd ck url quality fmt cookies speed :
  QUALITY_MAP !! quality = None ->
  build_web_cmd cwd ck url quality fmt cookies speed
    = build_web_cmd cwd ck url "480p" fmt cookies speed.
Proof. intros H. unfold build_web_cmd, dict_get. rewrite H. reflexivity. Qed.

Lemma build_web_cmd_unknown_speed cwd ck url quality fmt cookies speed :
  SPEED_MAP !! speed = None ->
  build_web_cmd cwd ck url quality fmt cookies speed
    = build_web_cmd cwd ck url quality fmt cookies "Turbo".
Proof. intros H. unfold build_web_cmd, dict_get. rewrite H, turbo_profile. reflexivity. Qed.

(** X17: a quality label that is not in the table does what a missing
    quality field does, and a speed label that is not in the table does
    what a missing speed field does. *)
Theorem web_download_unknown_labels (cwd : str) (cookie_file : bool)
    (form : gmap str str) (uuid_hex : str) (sv : server) (label : str) :
  (form !! ("quality" : str) = None -> QUALITY_MAP !! label = None ->
   web_download cwd cookie_file (<[("quality" : str) := label]> form) uuid_hex sv
     = web_download cwd cookie_file form uuid_hex sv) /\
  (form !! ("speed" : str) = None -> SPEED_MAP !! label = None ->
   web_download cwd cookie_file (<[("speed" : str) := label]> form) uuid_hex sv
     = web_download cwd cookie_file form uuid_hex sv).
Proof.
  split; intros Hf Hl; unfold web_download, dict_get.
  - rewrite lookup_insert_eq.
    rewrite !lookup_insert_ne by discriminate. rewrite Hf. cbn [default from_option id].
    destruct (form !! ("url" : str)) as [[|a u]|]; try reflexivity.
    rewrite (build_web_cmd_unknown_quality _ _ _ label _ _ _ Hl). reflexivity.
  - rewrite lookup_insert_eq.
    rewrite !lookup_insert_ne by discriminate. rewrite Hf. cbn [default from_option id].
    destruct (form !! ("url" : str)) as [[|a u]|]; try reflexivity.
    rewrite (build_web_cmd_unknown_speed _ _ _ _ _ _ label Hl). reflexivity.
Qed.

Lemma web_download_unknown_labels_witness :
  sample_form !! ("quality" : str) = None /\ QUALITY_MAP !! ("best" : str) = None /\
  web_download "/srv/app" false (<[("quality" : str) := ("best" : str)]> sample_form)
      sample_uuid {| web_jobs := ∅; launched := [] |}
    = web_download "/srv/app" false sample_form sample_uuid
        {| web_jobs := ∅; launched := [] |}.
Proof.
  assert (H1 : sample_form !! ("quality" : str) = None) by (vm_compute; reflexivity).
  assert (H2 : QUALITY_MAP !! ("best" : str) = None) by (vm_compute; reflexivity).
  split; [exact H1|]. split; [exact H2|].
  exact (proj1 (web_download_unknown_labels "/srv/app" false sample_form sample_uuid
                  {| web_jobs := ∅; launched := [] |} "best") H1 H2).
Defined.

(** * The registry, further *)

Lemma web_status_found (job_id : str) (jobs : gmap str Job) (j : Job) :
  job_id <> [] -> jobs !! job_id = Some j ->
  web_status (Some job_id) jobs = StatusOk (status j) (done j) (filename j) (error j).
Proof.
  intros Hne H. unfold web_status. destruct job_id; [congruence|]. rewrite H. reflexivity.
Qed.

Lemma web_status_same_lookup (arg : option str) (jobs jobs' : gmap str Job) :
  (forall job_id, arg = Some job_id -> jobs !! job_id = jobs' !! job_id) ->
  web_status arg jobs = web_status arg jobs'.
Proof.
  intros H. unfold web_status. destruct arg as [[|a s]|]; try reflexivity.
  rewrite (H (a :: s) eq_refl). reflexivity.
Qed.

Lemma worker_lookup popen ls job_id cmd jobs :
  web_download_worker popen ls job_id cmd jobs !! job_id = Some (run_job (popen cmd) ls).
Proof. unfold web_download_worker. apply lookup_insert_eq. Qed.

Lemma worker_lookup_other popen ls job_id cmd jobs other :
  other <> job_id ->
  web_download_worker popen ls job_id cmd jobs !! other = jobs !! other.
Proof.
  intros H. unfold web_download_worker, worker_begin.
  rewrite !lookup_insert_ne by congruence. reflexivity.
Qed.

(** X18: once the runner of a job has ended, a status query for its id
    gives the record the run produced; the answers for every other id are
    what they were; and a record that was in the registry under the same
    id is gone without trace. *)
Theorem worker_then_status (popen : list str -> process) (ls : result (list dirent))
    (job_id : str) (cmd : list str) (jobs : gmap str Job) :
  (job_id <> [] ->
   web_status (Some job_id) (web_download_worker popen ls job_id cmd jobs)
     = StatusOk (status (run_job (popen cmd) ls)) (done (run_job (popen cmd) ls))
         (filename (run_job (popen cmd) ls)) (error (run_job (popen cmd) ls))) /\
  (forall other, other <> job_id ->
     web_status (Some other) (web_download_worker popen ls job_id cmd jobs)
       = web_status (Some other) jobs) /\
  (forall j, web_download_worker popen ls job_id cmd (<[job_id := j]> jobs)
             = web_download_worker popen ls job_id cmd jobs).
Proof.
  split; [|split].
  - intros Hne. apply web_status_found; [exact Hne | apply worker_lookup].
  - intros other Hne. apply web_status_same_lookup.
    intros x Hx. inversion Hx; subst x. apply worker_lookup_other, Hne.
  - intros j. unfold web_download_worker, worker_begin.
    rewrite !insert_insert_eq. reflexivity.
Qed.

Lemma worker_then_status_witness :
  ("0123456789ab" : str) <> [] /\ ("ffffffffffff" : str) <> ("0123456789ab" : str) /\
  web_status (Some ("0123456789ab" : str))
    (web_download_worker (fun _ => SpawnFails "no such program") (Ok [])
       "0123456789ab" [] ∅)
  = StatusOk (status initial_job) false None (Some ("no such program" : str)) /\
  web_status (Some ("ffffffffffff" : str))
    (web_download_worker (fun _ => SpawnFails "no such program") (Ok [])
       "0123456789ab" [] ∅)
  = web_status (Some ("ffffffffffff" : str)) ∅.
Proof.
  assert (H1 : ("0123456789ab" : str) <> []) by discriminate.
  assert (H2 : ("ffffffffffff" : str) <> ("0123456789ab" : str)) by discriminate.
  pose proof (worker_then_status (fun _ => SpawnFails "no such program") (Ok [])
                "0123456789ab" [] ∅) as (A & B & _).
  split; [exact H1|]. split; [exact H2|]. split; [exact (A H1) | exact (B _ H2)].
Defined.

(** X19: from the request to the status: when no other thread waits,
    a request with a URL is answered with an id under which, once the
    launched thread has run, the status query gives the outcome of the
    process started for the command built from the form; no thread is
    left waiting and no other record has changed. *)
Theorem submit_run_status (cwd : str) (cookie_file : bool) (form : gmap str str)
    (uuid_hex : str) (sv : server) (popen : list str -> process)
    (ls : result (list dirent)) (url : str) :
  launched sv = [] -> form !! ("url" : str) = Some url -> url <> [] ->
  take 12 uuid_hex <> [] ->
  exists cmd,
    build_web_cmd cwd cookie_file url
      (default ("480p" : str) (form !! ("quality" : str)))
      (default ("MP4 - Video" : str) (form !! ("format" : str)))
      (default ("none" : str) (form !! ("cookies" : str)))
      (default ("Turbo" : str) (form !! ("speed" : str))) = Ok cmd /\
    fst (web_download cwd cookie_file form uuid_hex sv) = DownloadOk (take 12 uuid_hex) /\
    let sv' := thread_runs popen ls (snd (web_download cwd cookie_file form uuid_hex sv)) in
    web_status (Some (take 12 uuid_hex)) (web_jobs sv')
      = StatusOk (status (run_job (popen cmd) ls)) (done (run_job (popen cmd) ls))
          (filename (run_job (popen cmd) ls)) (error (run_job (popen cmd) ls)) /\
    launched sv' = [] /\
    forall other, other <> take 12 uuid_hex -> web_jobs sv' !! other = web_jobs sv !! other.
Proof.
  intros Hl Hu Hne Hid.
  destruct (web_download_accepts cwd cookie_file form uuid_hex sv url Hu Hne) as (cmd & Eb & E).
  exists cmd. rewrite E, Hl. cbn [fst snd app]. unfold thread_runs. cbn [launched web_jobs].
  split; [exact Eb|]. split; [reflexivity|]. cbv zeta.
  split; [apply web_status_found; [exact Hid | apply worker_lookup]|].
  split; [reflexivity|]. intros other Ho. apply worker_lookup_other, Ho.
Qed.

Lemma submit_run_status_witness :
  exists cmd,
    web_status (Some (take 12 sample_uuid))
      (web_jobs (thread_runs (fun _ => Spawned [progress_full] (Exits 0)) (Ok [])
                   (snd (web_download "/srv/app" false sample_form sample_uuid
                           {| web_jobs := ∅; launched := [] |}))))
    = StatusOk (status (run_job (Spawned [progress_full] (Exits 0)) (Ok [])))
        (done (run_job ((fun _ : list str => Spawned [progress_full] (Exits 0)) cmd) (Ok [])))
        (filename (run_job (Spawned [progress_full] (Exits 0)) (Ok [])))
        (error (run_job (Spawned [progress_full] (Exits 0)) (Ok []))).
Proof.
  destruct (submit_run_status "/srv/app" false sample_form sample_uuid
              {| web_jobs := ∅; launched := [] |}
              (fun _ => Spawned [progress_full] (Exits 0)) (Ok [])
              ("https://example.com/watch?v=1" : str)
              eq_refl eq_refl ltac:(discriminate) ltac:(discriminate))
    as (cmd & _ & _ & H & _).
  exists cmd. exact H.
Defined.

(** * The clean-up, further *)

Lemma node_at_delete_other (t : tree) (q r : list str) :
  r <> q -> node_at (delete q t) r = node_at t r.
Proof.
  intros H. destruct r; [reflexivity|]. simpl. apply lookup_delete_ne. congruence.
Qed.

Lemma walk_delete_other t q d names : forall cur r,
  t !! q = Some (File d) ->
  walk t cur names = Some r -> r <> q -> walk (delete q t) cur names = Some r.
Proof.
  induction names as [|c names IH]; intros cur r Hq; cbn [walk]; [auto|].
  rewrite (is_dir_delete t q d cur Hq).
  destruct (negb (is_dir t cur)); [auto|].
  destruct (str_eqb c [] || str_eqb c "."); [apply IH, Hq|].
  destruct (str_eqb c ".."); [apply IH, Hq|].
  destruct (t !! (cur ++ [c])) as [n|] eqn:E; [|discriminate].
  intros Hw Hr.
  destruct (decide (cur ++ [c] = q)) as [Eq | Hne].
  - exfalso. rewrite Eq in Hw. destruct names as [|c' names].
    + simpl in Hw. congruence.
    + cbn [walk] in Hw. unfold is_dir, node_at in Hw.
      destruct q as [|x q]; [destruct cur; discriminate Eq|].
      rewrite Hq in Hw. discriminate Hw.
  - rewrite lookup_delete_ne by congruence. rewrite E. apply IH; assumption.
Qed.

Lemma read_file_delete_other cwd t q d p r :
  t !! q = Some (File d) -> resolve cwd t p = Some r -> r <> q ->
  read_file cwd (delete q t) p = read_file cwd t p.
Proof.
  intros Hq Hr Hne. unfold read_file. rewrite Hr.
  assert (E : resolve cwd (delete q t) p = Some r).
  { unfold resolve in *. destruct p; [discriminate|].
    eapply walk_delete_other; eassumption. }
  rewrite E, (node_at_delete_other _ _ _ Hne). reflexivity.
Qed.

Lemma removelast_snoc {A : Type} (l : list A) (x : A) : removelast (l ++ [x]) = l.
Proof. apply removelast_last. Qed.

Lemma walk_exists t names : forall cur r,
  tree_wf t -> is_Some (node_at t cur) ->
  walk t cur names = Some r -> is_Some (node_at t r).
Proof.
  induction names as [|c names IH]; intros cur r Hwf Hcur; cbn [walk].
  - intros H. inversion H; subst. exact Hcur.
  - destruct (negb (is_dir t cur)); [discriminate|].
    destruct (str_eqb c [] || str_eqb c "."); [apply IH; assumption|].
    destruct (str_eqb c "..").
    + apply IH; [exact Hwf|].
      destruct cur as [|x cur] using rev_ind; [simpl; eauto|].
      rewrite removelast_snoc.
      destruct Hcur as [n Hn].
      assert (Hn' : t !! (cur ++ [x]) = Some n).
      { destruct (cur ++ [x]) eqn:E; [destruct cur; discriminate E | exact Hn]. }
      pose proof (Hwf _ _ Hn') as Hd. rewrite removelast_snoc in Hd.
      unfold is_dir in Hd. destruct (node_at t cur); [eauto | discriminate].
    + destruct (t !! (cur ++ [c])) as [n|] eqn:E; [|discriminate].
      apply IH; [exact Hwf|].
      destruct (cur ++ [c]) eqn:E'; [destruct cur; discriminate E'|].
      simpl. eauto.
Qed.

(** In a well-formed tree, the path of a removed file no longer exists. *)
Lemma resolve_deleted cwd t q d p :
  tree_wf t -> q <> [] -> t !! q = Some (File d) -> resolve cwd t p = Some q ->
  resolve cwd (delete q t) p = None.
Proof.
  intros Hwf Hne Hq Hr.
  destruct (resolve cwd (delete q t) p) as [r|] eqn:E; [|reflexivity].
  exfalso.
  pose proof (resolve_delete _ _ _ _ _ _ Hq E) as Hr'.
  assert (r = q) by congruence. subst r.
  assert (Hwf' : tree_wf (delete q t)).
  { intros k n Hk. apply lookup_delete_Some in Hk as [Hk' Hk].
    rewrite (is_dir_delete t q d _ Hq). eapply Hwf, Hk. }
  unfold resolve in E. destruct p; [discriminate|].
  apply walk_exists in E; [|exact Hwf'|simpl; eauto].
  destruct q as [|x q]; [congruence|].
  simpl in E. rewrite lookup_delete_eq in E. destruct E as [n E]. discriminate E.
Qed.

Lemma read_file_node cwd t p q data :
  resolve cwd t p = Some q -> read_file cwd t p = Some data ->
  q <> [] /\ t !! q = Some (File data).
Proof.
  unfold read_file. intros -> H.
  destruct q as [|x q]; [discriminate H|]. simpl in H.
  destruct (t !! (x :: q)) as [[d|]|]; try discriminate.
  inversion H; subst. split; [discriminate | reflexivity].
Qed.

Lemma delayed_delete_file cwd t p q data :
  resolve cwd t p = Some q -> read_file cwd t p = Some data ->
  delayed_delete cwd p t = delete q t.
Proof.
  intros Hr Hf. pose proof Hf as Hf'. unfold read_file in Hf'. rewrite Hr in Hf'.
  unfold delayed_delete, os_remove. rewrite Hr.
  destruct (node_at t q) as [[d|]|]; try discriminate. reflexivity.
Qed.

Lemma delayed_delete_noop cwd t p :
  read_file cwd t p = None -> delayed_delete cwd p t = t.
Proof.
  unfold read_file, delayed_delete, os_remove.
  destruct (resolve cwd t p) as [q|]; [|reflexivity].
  destruct (node_at t q) as [[d|]|]; [discriminate | reflexivity | reflexivity].
Qed.

Lemma delayed_delete_only_removes cwd p t k n :
  delayed_delete cwd p t !! k = Some n -> t !! k = Some n.
Proof.
  unfold delayed_delete, os_remove.
  destruct (resolve cwd t p) as [q|]; [|auto].
  destruct (node_at t q) as [[d|]|]; auto.
  intros H. apply lookup_delete_Some in H. apply H.
Qed.

Lemma delayed_delete_keeps_dirs cwd p t k :
  t !! k = Some Dir -> delayed_delete cwd p t !! k = Some Dir.
Proof.
  intros Hk. unfold delayed_delete, os_remove.
  destruct (resolve cwd t p) as [q|]; [|exact Hk].
  destruct (node_at t q) as [[d|]|] eqn:En; try exact Hk.
  apply node_at_file in En.
  rewrite lookup_delete_ne; [exact Hk | congruence].
Qed.

Lemma wake_only_removes cwd now l : forall t k n,
  fst (wake cwd now l t) !! k = Some n -> t !! k = Some n.
Proof.
  induction l as [|[w p] l IH]; intros t k n; simpl; [auto|].
  destruct (w <=? now).
  - intros H. apply IH in H. eapply delayed_delete_only_removes, H.
  - specialize (IH t k n). destruct (wake cwd now l t). exact IH.
Qed.

Lemma wake_keeps_dirs cwd now l : forall t k,
  t !! k = Some Dir -> fst (wake cwd now l t) !! k = Some Dir.
Proof.
  induction l as [|[w p] l IH]; intros t k Hk; simpl; [exact Hk|].
  destruct (w <=? now).
  - apply IH, delayed_delete_keeps_dirs, Hk.
  - specialize (IH t k Hk). destruct (wake cwd now l t). exact IH.
Qed.

Lemma advance_files cwd dt h :
  files (advance cwd dt h) = fst (wake cwd (clock h + dt) (sleepers h) (files h)).
Proof. unfold advance. destruct (wake _ _ _ _). reflexivity. Qed.

Lemma advance_sleepers cwd dt h :
  sleepers (advance cwd dt h) = snd (wake cwd (clock h + dt) (sleepers h) (files h)).
Proof. unfold advance. destruct (wake _ _ _ _). reflexivity. Qed.

Lemma advance_clock cwd dt h : clock (advance cwd dt h) = clock h + dt.
Proof. unfold advance. destruct (wake _ _ _ _). reflexivity. Qed.

(** X20: however many deletions are pending and however much time
    passes, the clean-up only removes: it creates nothing, changes no
    content, and removes no directory. *)
Theorem cleanup_only_removes_files (cwd : str) (dt : Z) (h : host) (k : list str) :
  (forall n, files (advance cwd dt h) !! k = Some n -> files h !! k = Some n) /\
  (files h !! k = Some Dir -> files (advance cwd dt h) !! k = Some Dir).
Proof.
  rewrite advance_files. split.
  - intros n. apply wake_only_removes.
  - apply wake_keeps_dirs.
Qed.

Lemma cleanup_only_removes_files_witness :
  let h := snd (web_fetch (send_from_directory "/srv/app") "/srv/app" "." sample_host) in
  sleepers h = [(110, "/srv/app/web_downloader/." : str)] /\
  files h !! ["srv" : str; "app" : str; "web_downloader" : str] = Some Dir /\
  files (advance "/srv/app" 10 h) !! ["srv" : str; "app" : str; "web_downloader" : str]
    = Some Dir.
Proof.
  cbv zeta.
  assert (H : files (snd (web_fetch (send_from_directory "/srv/app") "/srv/app" "."
                            sample_host))
              !! ["srv" : str; "app" : str; "web_downloader" : str] = Some Dir)
    by (vm_compute; reflexivity).
  split; [vm_compute; reflexivity|]. split; [exact H|].
  exact (proj2 (cleanup_only_removes_files "/srv/app" 10 _ _) H).
Defined.

Lemma web_fetch_existing send cwd filename h data :
  read_file cwd (files h) (path_join (WEB_DOWNLOADER_DIR cwd) filename) = Some data ->
  snd (web_fetch send cwd filename h) =
    {| files := files h; clock := clock h;
       sleepers := sleepers h
         ++ [(clock h + 10, path_join (WEB_DOWNLOADER_DIR cwd) filename)] |}.
Proof.
  intros Hr. unfold web_fetch. rewrite (read_file_exists _ _ _ _ Hr). reflexivity.
Qed.

Lemma web_fetch_served cwd filename h data :
  plain_name filename ->
  read_file cwd (files h) (path_join (WEB_DOWNLOADER_DIR cwd) filename) = Some data ->
  fst (web_fetch (send_from_directory cwd) cwd filename h) = Attachment data.
Proof.
  intros Hp Hr. unfold web_fetch. rewrite (read_file_exists _ _ _ _ Hr). cbn [negb fst files].
  unfold send_from_directory. rewrite (safe_join_plain cwd filename Hp), Hr. reflexivity.
Qed.

Lemma fetch_then_expiry_files (send : tree -> str -> str -> fetch_response)
    (cwd filename : str) (h : host) (q : list str) (data : list Byte.byte) (dt : Z) :
  resolve cwd (files h) (path_join (WEB_DOWNLOADER_DIR cwd) filename) = Some q ->
  read_file cwd (files h) (path_join (WEB_DOWNLOADER_DIR cwd) filename) = Some data ->
  sleepers h = [] -> 10 <= dt ->
  files (advance cwd dt (snd (web_fetch send cwd filename h))) = delete q (files h) /\
  sleepers (advance cwd dt (snd (web_fetch send cwd filename h))) = [].
Proof.
  intros Hq Hr Hs Hdt.
  rewrite (web_fetch_existing send cwd filename h data Hr), Hs.
  assert (E : wake cwd (clock h + dt)
                [(clock h + 10, path_join (WEB_DOWNLOADER_DIR cwd) filename)] (files h)
              = (delete q (files h), [])).
  { simpl. assert (Hle : (clock h + 10 <=? clock h + dt) = true) by (apply Z.leb_le; lia).
    rewrite Hle, (delayed_delete_file _ _ _ _ _ Hq Hr). reflexivity. }
  rewrite advance_files, advance_sleepers. cbn [files clock sleepers app].
  rewrite E. split; reflexivity.
Qed.

(** X21: when a file is fetched and nothing else is pending, then from
    10 time units on the tree is the old tree without that one file: no
    deletion is left pending, and every path that led elsewhere leads to
    the same content as before. *)
Theorem fetch_then_expiry (send : tree -> str -> str -> fetch_response)
    (cwd filename : str) (h : host) (q : list str) (data : list Byte.byte) (dt : Z) :
  let full_path := path_join (WEB_DOWNLOADER_DIR cwd) filename in
  let h1 := snd (web_fetch send cwd filename h) in
  resolve cwd (files h) full_path = Some q ->
  read_file cwd (files h) full_path = Some data ->
  sleepers h = [] -> 10 <= dt ->
  files (advance cwd dt h1) = delete q (files h) /\
  sleepers (advance cwd dt h1) = [] /\
  forall p r, resolve cwd (files h) p = Some r -> r <> q ->
    read_file cwd (files (advance cwd dt h1)) p = read_file cwd (files h) p.
Proof.
  cbv zeta. intros Hq Hr Hs Hdt.
  destruct (fetch_then_expiry_files send cwd filename h q data dt Hq Hr Hs Hdt) as [Ef Esl].
  rewrite Ef. split; [reflexivity|]. split; [exact Esl|].
  intros p r Hp Hne.
  destruct (read_file_node _ _ _ _ _ Hq Hr) as [_ Hfile].
  eapply read_file_delete_other; eassumption.
Qed.

Lemma sample_clip_resolves :
  resolve "/srv/app" (files sample_host)
    (path_join (WEB_DOWNLOADER_DIR "/srv/app") "clip.mp4")
  = Some ["srv" : str; "app" : str; "web_downloader" : str; "clip.mp4" : str].
Proof. vm_compute. reflexivity. Qed.

Lemma sample_clip_content :
  read_file "/srv/app" (files sample_host)
    (path_join (WEB_DOWNLOADER_DIR "/srv/app") "clip.mp4")
  = Some [Byte.x00; Byte.x01; Byte.x02; Byte.x03].
Proof. vm_compute. reflexivity. Qed.

Lemma fetch_then_expiry_witness :
  let h1 := snd (web_fetch (send_from_directory "/srv/app") "/srv/app" "clip.mp4"
                   sample_host) in
  sleepers sample_host = [] /\ 10 <= 10 /\
  files (advance "/srv/app" 10 h1)
    = delete ["srv" : str; "app" : str; "web_downloader" : str; "clip.mp4" : str] sample_tree.
Proof.
  cbv zeta. split; [reflexivity|]. split; [lia|].
  exact (proj1 (fetch_then_expiry (send_from_directory "/srv/app") "/srv/app" "clip.mp4"
                  sample_host _ _ 10 sample_clip_resolves sample_clip_content eq_refl
                  ltac:(lia))).
Defined.

(** X22: a file can be fetched again while its deletion is pending; the
    second deletion finds nothing to remove, and 10 time units after the
    second fetch the tree is what one fetch alone would have left. *)
Theorem fetch_twice (cwd filename : str) (h : host) (q : list str)
    (data : list Byte.byte) (dt1 dt2 : Z) :
  let full_path := path_join (WEB_DOWNLOADER_DIR cwd) filename in
  let h1 := snd (web_fetch (send_from_directory cwd) cwd filename h) in
  let r2 := web_fetch (send_from_directory cwd) cwd filename (advance cwd dt1 h1) in
  plain_name filename ->
  resolve cwd (files h) full_path = Some q ->
  read_file cwd (files h) full_path = Some data ->
  sleepers h = [] -> 0 <= dt1 < 10 -> 10 <= dt2 ->
  fst r2 = Attachment data /\
  sleepers (snd r2) = [(clock h + 10, full_path); (clock h + dt1 + 10, full_path)] /\
  files (advance cwd dt2 (snd r2)) = delete q (files h) /\
  sleepers (advance cwd dt2 (snd r2)) = [].
Proof.
  cbv zeta. intros Hp Hq Hr Hs Hdt1 Hdt2.
  set (full_path := path_join (WEB_DOWNLOADER_DIR cwd) filename) in *.
  rewrite (web_fetch_existing _ cwd filename h data Hr), Hs. cbn [app].
  fold full_path.
  assert (E1 : advance cwd dt1
                 {| files := files h; clock := clock h;
                    sleepers := [(clock h + 10, full_path)] |}
               = {| files := files h; clock := clock h + dt1;
                    sleepers := [(clock h + 10, full_path)] |}).
  { unfold advance. cbn [files clock sleepers].
    rewrite wake_too_early; [reflexivity|].
    constructor; [simpl; lia | constructor]. }
  rewrite E1.
  assert (Hr' : read_file cwd
                  (files {| files := files h; clock := clock h + dt1;
                            sleepers := [(clock h + 10, full_path)] |}) full_path
                = Some data) by exact Hr.
  split; [apply web_fetch_served; assumption|].
  rewrite (web_fetch_existing _ cwd filename _ data Hr'). cbn [files clock sleepers app].
  fold full_path. split; [reflexivity|].
  rewrite advance_files, advance_sleepers. cbn [files clock sleepers].
  assert (L1 : (clock h + 10 <=? clock h + dt1 + dt2) = true) by (apply Z.leb_le; lia).
  assert (L2 : (clock h + dt1 + 10 <=? clock h + dt1 + dt2) = true) by (apply Z.leb_le; lia).
  cbn [wake]. rewrite L1, L2.
  rewrite (delayed_delete_file _ _ _ _ _ Hq Hr).
  rewrite delayed_delete_noop.
  - split; reflexivity.
  - rewrite <- (delayed_delete_file _ _ _ _ _ Hq Hr). apply delayed_delete_gone.
Qed.

Lemma fetch_twice_witness :
  let h1 := snd (web_fetch (send_from_directory "/srv/app") "/srv/app" "clip.mp4"
                   sample_host) in
  let r2 := web_fetch (send_from_directory "/srv/app") "/srv/app" "clip.mp4"
              (advance "/srv/app" 4 h1) in
  plain_name ("clip.mp4" : str) /\ 0 <= 4 < 10 /\ 10 <= 10 /\
  fst r2 = Attachment [Byte.x00; Byte.x01; Byte.x02; Byte.x03] /\
  files (advance "/srv/app" 10 (snd r2))
    = delete ["srv" : str; "app" : str; "web_downloader" : str; "clip.mp4" : str] sample_tree.
Proof.
  cbv zeta.
  pose proof (fetch_twice "/srv/app" "clip.mp4" sample_host _ _ 4 10 sample_plain_name
                sample_clip_resolves sample_clip_content eq_refl ltac:(lia) ltac:(lia))
    as (A & _ & B & _).
  split; [exact sample_plain_name|]. split; [lia|]. split; [lia|].
  split; [exact A | exact B].
Defined.

Lemma sample_tree_wf : tree_wf sample_tree.
Proof.
  intros p n H. unfold sample_tree in H. apply elem_of_list_to_map_2 in H.
  repeat (apply elem_of_cons in H as [H | H];
          [inversion H; subst; vm_compute; reflexivity|]).
  apply elem_of_nil in H. destruct H.
Qed.

(** X23: in a well-formed tree, a fetch that comes 10 time units or more
    after the first one is answered not-found and starts no deletion. *)
Theorem fetch_after_expiry (send send' : tree -> str -> str -> fetch_response)
    (cwd filename : str) (h : host) (q : list str) (data : list Byte.byte) (dt : Z) :
  let full_path := path_join (WEB_DOWNLOADER_DIR cwd) filename in
  let h2 := advance cwd dt (snd (web_fetch send cwd filename h)) in
  tree_wf (files h) ->
  resolve cwd (files h) full_path = Some q ->
  read_file cwd (files h) full_path = Some data ->
  sleepers h = [] -> 10 <= dt ->
  web_fetch send' cwd filename h2 = (FileNotFound, h2) /\ sleepers h2 = [].
Proof.
  cbv zeta. intros Hwf Hq Hr Hs Hdt.
  destruct (fetch_then_expiry_files send cwd filename h q data dt Hq Hr Hs Hdt) as [Ef Esl].
  destruct (read_file_node _ _ _ _ _ Hq Hr) as [Hne Hfile].
  split; [|exact Esl].
  set (h2 := advance cwd dt (snd (web_fetch send cwd filename h))) in *.
  unfold web_fetch. rewrite Ef.
  assert (Hex : os_path_exists cwd (delete q (files h))
                  (path_join (WEB_DOWNLOADER_DIR cwd) filename) = false).
  { unfold os_path_exists. apply bool_decide_eq_false.
    rewrite (resolve_deleted cwd (files h) q data _ Hwf Hne Hfile Hq).
    intros [x Hx]. discriminate Hx. }
  rewrite Hex. reflexivity.
Qed.

Lemma fetch_after_expiry_witness :
  let h2 := advance "/srv/app" 10
              (snd (web_fetch (send_from_directory "/srv/app") "/srv/app" "clip.mp4"
                      sample_host)) in
  tree_wf (files sample_host) /\
  web_fetch (send_from_directory "/srv/app") "/srv/app" "clip.mp4" h2 = (FileNotFound, h2).
Proof.
  cbv zeta. split; [exact sample_tree_wf|].
  exact (proj1 (fetch_after_expiry (send_from_directory "/srv/app")
                  (send_from_directory "/srv/app") "/srv/app" "clip.mp4" sample_host _ _ 10
                  sample_tree_wf sample_clip_resolves sample_clip_content eq_refl
                  ltac:(lia))).
Defined.
